(** * Chamaeleon-MCMC: the four-component TMC-1 fit

    A shallow embedding of [scripts/MCMC/TMC1_four_component.py]: the noise
    estimator [calc_noise_std], the line-window extractor [read_file], the
    forward model ([apply_beam], [make_model]), the posterior evaluation
    ([is_within_bounds], [lnprior], [lnlike], [lnprob]), the data grid that
    [init_setup] builds and the priors that [fit_multi_gaussian] takes from a
    chain.

    Numbers.  A NumPy [float64] is modelled by [npfloat]: a real number, or one
    of the three special values [+inf], [-inf] and [nan], with the IEEE rules for
    the special values (a comparison with [nan] is false, [x/0] is an infinity
    or [nan], [inf - inf] is [nan], ...).  Rounding, overflow, underflow and the
    sign of zero are not modelled: finite arithmetic is exact arithmetic on [R],
    and a zero divisor counts as [+0.0].

    Compiled kernels.  [apply_beam] and [make_model] are compiled with
    [@njit(fastmath=True)].  The reassociation that [fastmath] allows is not
    modelled, but two places where the compiled code departs from NumPy on
    special values are: the power [x**-1] is the division [1.0/x] of compiled
    scalar code, which raises [ZeroDivisionError] at zero instead of returning
    an infinity ([power_minus_1]); and the comparison that builds the mask of
    [make_model] is compiled without the test for [nan], so that it holds as
    soon as one of its sides is [nan] ([lt_fastmath]).

    Exceptions.  A function that can raise returns an [option], [None] standing
    for the exception. *)

From Stdlib Require Import Reals Lra Lia List Bool Arith ZArith.
Import ListNotations.

Open Scope R_scope.

(** * The program *)

(** ** NumPy floats *)

Inductive npfloat : Type :=
| Fin (x : R)
| PInf
| NInf
| NaN.

Coercion Fin : R >-> npfloat.

Definition Rltb (x y : R) : bool := if Rlt_dec x y then true else false.
Definition Reqb (x y : R) : bool := if Req_dec_T x y then true else false.

Module NP.

Definition neg (a : npfloat) : npfloat :=
  match a with
  | Fin x => Fin (- x)
  | PInf => NInf
  | NInf => PInf
  | NaN => NaN
  end.

Definition add (a b : npfloat) : npfloat :=
  match a, b with
  | NaN, _ | _, NaN => NaN
  | Fin x, Fin y => Fin (x + y)
  | PInf, NInf | NInf, PInf => NaN
  | PInf, _ | _, PInf => PInf
  | NInf, _ | _, NInf => NInf
  end.

Definition sub (a b : npfloat) : npfloat := add a (neg b).

(** [x * (+inf)] when [pos], [x * (-inf)] otherwise. *)
Definition scale_inf (x : R) (pos : bool) : npfloat :=
  if Rltb 0 x then (if pos then PInf else NInf)
  else if Rltb x 0 then (if pos then NInf else PInf)
  else NaN.

Definition mul (a b : npfloat) : npfloat :=
  match a, b with
  | NaN, _ | _, NaN => NaN
  | Fin x, Fin y => Fin (x * y)
  | Fin x, PInf | PInf, Fin x => scale_inf x true
  | Fin x, NInf | NInf, Fin x => scale_inf x false
  | PInf, PInf | NInf, NInf => PInf
  | PInf, NInf | NInf, PInf => NInf
  end.

Definition div (a b : npfloat) : npfloat :=
  match a, b with
  | NaN, _ | _, NaN => NaN
  | Fin x, Fin y => if Reqb y 0 then scale_inf x true else Fin (x / y)
  | Fin _, PInf | Fin _, NInf => Fin 0
  | PInf, Fin y => if Rltb y 0 then NInf else PInf
  | NInf, Fin y => if Rltb y 0 then PInf else NInf
  | _, _ => NaN
  end.

(** [x**2] and [x**2.] *)
Definition pow2 (a : npfloat) : npfloat := mul a a.

Definition abs (a : npfloat) : npfloat :=
  match a with
  | Fin x => Fin (Rabs x)
  | PInf | NInf => PInf
  | NaN => NaN
  end.

Definition sqrt (a : npfloat) : npfloat :=
  match a with
  | Fin x => if Rltb x 0 then NaN else Fin (R_sqrt.sqrt x)
  | PInf => PInf
  | NInf | NaN => NaN
  end.

Definition exp (a : npfloat) : npfloat :=
  match a with
  | Fin x => Fin (Rtrigo_def.exp x)
  | PInf => PInf
  | NInf => Fin 0
  | NaN => NaN
  end.

Definition log (a : npfloat) : npfloat :=
  match a with
  | Fin x => if Rltb 0 x then Fin (ln x) else if Rltb x 0 then NaN else NInf
  | PInf => PInf
  | NInf | NaN => NaN
  end.

Definition ltb (a b : npfloat) : bool :=
  match a, b with
  | Fin x, Fin y => Rltb x y
  | NInf, Fin _ | NInf, PInf | Fin _, PInf => true
  | _, _ => false
  end.

Definition gtb (a b : npfloat) : bool := ltb b a.

Definition isnan (a : npfloat) : bool :=
  match a with NaN => true | _ => false end.

Definition isfinite (a : npfloat) : bool :=
  match a with Fin _ => true | _ => false end.

(** [np.sum] *)
Definition sum (a : list npfloat) : npfloat := fold_left add a (Fin 0).

(** [np.max]: raises on an empty array, propagates [nan]. *)
Definition max2 (a b : npfloat) : npfloat :=
  if isnan a then NaN else if isnan b then NaN else if ltb a b then b else a.

Definition max (a : list npfloat) : option npfloat :=
  match a with
  | [] => None
  | x :: rest => Some (fold_left max2 rest x)
  end.

End NP.

Declare Scope np_scope.
Delimit Scope np_scope with np.
Bind Scope np_scope with npfloat.
Infix "+" := NP.add : np_scope.
Infix "-" := NP.sub : np_scope.
Infix "*" := NP.mul : np_scope.
Infix "/" := NP.div : np_scope.
Notation "- x" := (NP.neg x) : np_scope.
Infix "<?" := NP.ltb (at level 70) : np_scope.
Infix ">?" := NP.gtb (at level 70) : np_scope.

(** ** Parameter vectors

    [theta], [prior_stds] and [prior_means] are arrays of 14 numbers that the
    source unpacks into 14 names; a record of 14 fields stands for them, field
    [vK] being index [K].  An array of another length makes the unpacking raise
    and is outside the model. *)

Record vec14 : Type := Vec14 {
  v0 : npfloat; v1 : npfloat; v2 : npfloat; v3 : npfloat;
  v4 : npfloat; v5 : npfloat; v6 : npfloat; v7 : npfloat;
  v8 : npfloat;
  v9 : npfloat; v10 : npfloat; v11 : npfloat; v12 : npfloat;
  v13 : npfloat }.

(** ** Bounds and prior *)

Definition is_within_bounds (theta : vec14) : bool :=
  let '(Vec14 source_size1 source_size2 source_size3 source_size4
              Ncol1 Ncol2 Ncol3 Ncol4 Tex vlsr1 vlsr2 vlsr3 vlsr4 dV) := theta in
  ((0 <? source_size1) && (source_size1 <? 200) &&
   (0 <? source_size2) && (source_size2 <? 200) &&
   (0 <? source_size3) && (source_size3 <? 200) &&
   (0 <? source_size4) && (source_size4 <? 200) &&
   (0 <? Ncol1) && (Ncol1 <? 10^16) && (0 <? Ncol2) && (Ncol2 <? 10^16) &&
   (0 <? Ncol3) && (Ncol3 <? 10^16) && (0 <? Ncol4) && (Ncol4 <? 10^16) &&
   (vlsr1 <? vlsr2 - 0.05) && (vlsr2 <? vlsr3 - 0.05) && (vlsr3 <? vlsr4 - 0.05) &&
   (vlsr2 <? vlsr1 + 0.3) && (vlsr3 <? vlsr2 + 0.3) && (vlsr4 <? vlsr3 + 0.3) &&
   (dV <? 0.3) && (2.7 <? Tex))%np.

(** One Gaussian log-density term,
    [np.log(1.0/(np.sqrt(2*np.pi)*s)) - 0.5*(x-m)**2/s**2]. *)
Definition log_gauss (x m s : npfloat) : npfloat :=
  (NP.log (1 / (NP.sqrt (2 * PI) * s)) - 0.5 * NP.pow2 (x - m) / NP.pow2 s)%np.

Definition lnprior (theta prior_stds prior_means : vec14) : npfloat :=
  let '(Vec14 source_size1 source_size2 source_size3 source_size4
              Ncol1 Ncol2 Ncol3 Ncol4 Tex vlsr1 vlsr2 vlsr3 vlsr4 dV) := theta in
  let '(Vec14 s0 s1 s2 s3 s4 s5 s6 s7 s8 s9 s10 s11 s12 s13) := prior_stds in
  let '(Vec14 m0 m1 m2 m3 m4 m5 m6 m7 m8 m9 m10 m11 m12 m13) := prior_means in
  let s9 := (m13 * 0.8)%np in
  let s10 := (m13 * 0.8)%np in
  let s11 := (m13 * 0.8)%np in
  let s12 := (m13 * 0.8)%np in
  let s13 := (m13 * 0.3)%np in
  if negb (is_within_bounds theta) then NInf
  else
    let p0 := log_gauss source_size1 m0 s0 in
    let p1 := log_gauss source_size2 m1 s1 in
    let p2 := log_gauss source_size3 m2 s2 in
    let p3 := log_gauss source_size4 m3 s3 in
    let p8 := log_gauss Tex m8 s8 in
    let p9 := log_gauss vlsr1 m9 s9 in
    let p10 := log_gauss vlsr2 m10 s10 in
    let p11 := log_gauss vlsr3 m11 s11 in
    let p12 := log_gauss vlsr4 m12 s12 in
    let p13 := log_gauss dV m13 s13 in
    (p0 + p1 + p2 + p3 + p8 + p9 + p10 + p11 + p12 + p13)%np.

(** ** Arrays *)

(** [np.zeros(n)] *)
Definition zeros (n : nat) : list npfloat := repeat (Fin 0) n.

(** Element-wise operation on two arrays of one shape. *)
Fixpoint map2 {A B C : Type} (f : A -> B -> C) (a : list A) (b : list B) : list C :=
  match a, b with
  | x :: a', y :: b' => f x y :: map2 f a' b'
  | _, _ => []
  end.

(** [np.where(mask)[0]]: the indices at which [mask] holds, in increasing order. *)
Fixpoint where_from (start : nat) (mask : list bool) : list nat :=
  match mask with
  | [] => []
  | b :: rest =>
      if b then start :: where_from (S start) rest else where_from (S start) rest
  end.

Definition np_where (mask : list bool) : list nat := where_from 0 mask.

(** [a[locs]] for an index array [locs] whose entries are in range. *)
Definition gather (a : list npfloat) (locs : list nat) : list npfloat :=
  map (fun k => nth k a NaN) locs.

(** [a[k] = v] *)
Fixpoint set_at (k : nat) (v : npfloat) (a : list npfloat) : list npfloat :=
  match a, k with
  | [], _ => []
  | _ :: rest, O => v :: rest
  | x :: rest, S k' => x :: set_at k' v rest
  end.

(** [a[locs] = vals], one value per index. *)
Fixpoint scatter (a : list npfloat) (locs : list nat) (vals : list npfloat) : list npfloat :=
  match locs, vals with
  | k :: locs', v :: vals' => scatter (set_at k v a) locs' vals'
  | _, _ => a
  end.

(** [a[mask]] for a boolean [mask] of the shape of [a]. *)
Fixpoint compress (mask : list bool) (a : list npfloat) : list npfloat :=
  match mask, a with
  | b :: mask', x :: a' => if b then x :: compress mask' a' else compress mask' a'
  | _, _ => []
  end.

(** The bounds [lo, hi) that Python gives the slice [start:stop] of a sequence
    of [n] elements: a negative index counts from the end, and both ends are
    clamped into [0, n]. *)
Definition slice_index (n : nat) (i : Z) : nat :=
  if (i <? 0)%Z then Z.to_nat (Z.max 0 (i + Z.of_nat n))
  else Z.to_nat (Z.min i (Z.of_nat n)).

Fixpoint fill_from (pos lo hi : nat) (v : npfloat) (a : list npfloat) : list npfloat :=
  match a with
  | [] => []
  | x :: rest =>
      (if (lo <=? pos)%nat && (pos <? hi)%nat then v else x)
        :: fill_from (S pos) lo hi v rest
  end.

(** [a[start:stop] = v] *)
Definition set_slice (a : list npfloat) (start stop : Z) (v : npfloat) : list npfloat :=
  fill_from 0 (slice_index (length a) start) (slice_index (length a) stop) v a.

(** ** Noise estimation *)

(** [np.nanmean]: the mean of the entries that are not [nan]; [nan] when there
    is none. *)
Definition not_nan (a : list npfloat) : list npfloat :=
  filter (fun x => negb (NP.isnan x)) a.

Definition nanmean (a : list npfloat) : npfloat :=
  (NP.sum (not_nan a) / INR (length (not_nan a)))%np.

(** [np.nanstd]: square root of the mean squared deviation (no Bessel correction)
    of the entries that are not [nan]. *)
Definition nanstd (a : list npfloat) : npfloat :=
  let avg := nanmean a in
  NP.sqrt (NP.sum (map (fun x => NP.pow2 (x - avg)%np) (not_nan a))
           / INR (length (not_nan a)))%np.

(** [for chan in chans: noise[chan-10:chan+10] = np.nan] *)
Definition mask_around (noise : list npfloat) (chans : list nat) : list npfloat :=
  fold_left (fun nz chan => set_slice nz (Z.of_nat chan - 10) (Z.of_nat chan + 10) NaN)
            chans noise.

(** [np.where(dummy_ints-mean < (-std*threshold))[0]] *)
Definition low_outliers (dummy_ints : list npfloat) (mean std threshold : npfloat)
    : list nat :=
  np_where (map (fun x => (x - mean <? (- std) * threshold)%np) dummy_ints).

(** [np.where(dummy_ints-mean > (std*threshold))[0]] *)
Definition high_outliers (dummy_ints : list npfloat) (mean std threshold : npfloat)
    : list nat :=
  np_where (map (fun x => (x - mean >? std * threshold)%np) dummy_ints).

(** One clip cycle: the two masking loops, then the statistics of what is left. *)
Definition clip_cycle (dummy_ints : list npfloat) (threshold : npfloat)
    (st : list npfloat * npfloat * npfloat) : list npfloat * npfloat * npfloat :=
  let '(noise, mean, std) := st in
  let noise := mask_around noise (low_outliers dummy_ints mean std threshold) in
  let noise := mask_around noise (high_outliers dummy_ints mean std threshold) in
  (noise, nanmean noise, nanstd noise).

Definition calc_noise_std (intensity : list npfloat) (threshold : npfloat)
    : npfloat * npfloat :=
  let dummy_ints := intensity in
  let noise := intensity in
  let dummy_mean := nanmean dummy_ints in
  let dummy_std := nanstd dummy_ints in
  let st := clip_cycle dummy_ints threshold (noise, dummy_mean, dummy_std) in
  let st := clip_cycle dummy_ints threshold st in
  let '(_, noise_mean, noise_std) := clip_cycle dummy_ints threshold st in
  (noise_mean, noise_std).

(** The default [threshold=3.5]. *)
Definition default_threshold : npfloat := Fin 3.5.

(** ** Line-window extraction *)

(** The accumulators of [read_file]'s loop. *)
Record windows : Type := Windows {
  relevant_freqs : list npfloat;
  relevant_intensity : list npfloat;
  relevant_yerrs : list npfloat;
  covered_trans : list nat }.

(** [vel = (rf - freqs)/rf*300000 + shift], for one channel. *)
Definition velocity (rf shift f : npfloat) : npfloat :=
  ((rf - f) / rf * 300000 + shift)%np.

(** [(vel<(.3+6.)) & (vel>(-.3+5.6))], for one channel. *)
Definition in_window (vel : npfloat) : bool :=
  ((vel <? 0.3 + 6) && (vel >? - 0.3 + 5.6))%np.

(** [locs = np.where(...)]: the channels of the window of rest frequency [rf]. *)
Definition window_locs (freqs : list npfloat) (rf shift : npfloat) : list nat :=
  let vel := map (velocity rf shift) freqs in
  np_where (map in_window vel).

(** [thresh = 0.05] *)
Definition thresh : npfloat := Fin 0.05.

(** The body of the loop over [enumerate(restfreqs)]; [None] when the source
    raises ([int_sim[i]] out of range, [np.max] of an empty array).  The plots
    and the printed messages are left out. *)
Definition read_line (freqs intensity int_sim : list npfloat) (shift : npfloat)
    (block_interlopers : bool) (st : windows) (i : nat) (rf : npfloat)
    : option windows :=
  match nth_error int_sim i, NP.max int_sim with
  | Some sim_i, Some peak =>
      if (sim_i >? thresh * peak)%np then
        let locs := window_locs freqs rf shift in
        if negb (length locs =? 0)%nat then
          let '(noise_mean, noise_std) :=
            calc_noise_std (gather intensity locs) default_threshold in
          match NP.max (gather intensity locs) with
          | Some top =>
              if block_interlopers && (top >? 6 * noise_std)%np then Some st
              else
                Some {| covered_trans := covered_trans st ++ [i];
                        relevant_freqs :=
                          scatter (relevant_freqs st) locs (gather freqs locs);
                        relevant_intensity :=
                          scatter (relevant_intensity st) locs (gather intensity locs);
                        relevant_yerrs :=
                          scatter (relevant_yerrs st) locs
                            (map (fun x => NP.sqrt (NP.pow2 noise_std + NP.pow2 (x * 0.1))%np)
                                 (gather intensity locs)) |}
          | None => None
          end
        else Some st
      else Some st
  | _, _ => None
  end.

Fixpoint read_lines (freqs intensity int_sim : list npfloat) (shift : npfloat)
    (block_interlopers : bool) (i : nat) (restfreqs : list npfloat) (st : windows)
    : option windows :=
  match restfreqs with
  | [] => Some st
  | rf :: rest =>
      match read_line freqs intensity int_sim shift block_interlopers st i rf with
      | Some st' => read_lines freqs intensity int_sim shift block_interlopers (S i) rest st'
      | None => None
      end
  end.

(** [freqs = data[0]], with [freqs *= 1000.] when [GHz] is set. *)
Definition scaled_freqs (data0 : list npfloat) (GHz : bool) : list npfloat :=
  if GHz then map (fun f => (f * 1000)%np) data0 else data0.

(** [read_file], on the two rows [data0], [data1] of the loaded file.  The
    source indexes the intensity row with positions and masks computed on the
    frequency row, which raises when the rows differ in length; the model
    raises at once in that case. *)
Definition read_file (data0 data1 restfreqs int_sim : list npfloat) (shift : npfloat)
    (GHz block_interlopers : bool)
    : option (list npfloat * list npfloat * list npfloat * list nat) :=
  let freqs := scaled_freqs data0 GHz in
  let intensity := data1 in
  if negb (length freqs =? length intensity)%nat then None
  else
    let st := {| relevant_freqs := zeros (length freqs);
                 relevant_intensity := zeros (length intensity);
                 relevant_yerrs := zeros (length freqs);
                 covered_trans := [] |} in
    match read_lines freqs intensity int_sim shift block_interlopers 0 restfreqs st with
    | Some st =>
        let mask := map (fun f => (f >? 0)%np) (relevant_freqs st) in
        Some (compress mask (relevant_freqs st),
              compress mask (relevant_intensity st),
              compress mask (relevant_yerrs st),
              covered_trans st)
    | None => None
    end.

(** ** Forward model and posterior

    The physical constants [cm], [ckm], [h], [k] come from
    [spectral_simulator.constants] and the line simulator [MolSim] from
    [spectral_simulator.classes]; these two modules are not embedded here, and
    the constants and the simulator are parameters of the section [Model]. *)

(** Forward-model invocations made so far. *)
Record calls : Type := Calls {
  predict_calls : nat;
  model_calls : nat }.

(** Computations that count forward-model calls and may raise ([None]). *)
Definition M (A : Type) : Type := calls -> option A * calls.

Definition ret {A : Type} (x : A) : M A := fun c => (Some x, c).

Definition bind {A B : Type} (m : M A) (f : A -> M B) : M B :=
  fun c =>
    match m c with
    | (Some x, c') => f x c'
    | (None, c') => (None, c')
    end.

Definition lift {A : Type} (o : option A) : M A := fun c => (o, c).

Definition tick_predict : M unit :=
  fun c => (Some tt, {| predict_calls := S (predict_calls c); model_calls := model_calls c |}).

Definition tick_model : M unit :=
  fun c => (Some tt, {| predict_calls := predict_calls c; model_calls := S (model_calls c) |}).

Notation "x <- m ;; f" := (bind m (fun x => f))
  (at level 61, m at next level, right associativity).

(** [np.array(a)[ids]]: raises when an index is out of range. *)
Fixpoint take_ids (a : list npfloat) (ids : list nat) : option (list npfloat) :=
  match ids with
  | [] => Some []
  | i :: ids' =>
      match nth_error a i, take_ids a ids' with
      | Some x, Some rest => Some (x :: rest)
      | _, _ => None
      end
  end.

(** Element-wise operation that raises on arrays of different lengths
    (broadcasting of a one-element array is not modelled). *)
Definition zip_same {A B C : Type} (f : A -> B -> C) (a : list A) (b : list B)
    : option (list C) :=
  if (length a =? length b)%nat then Some (map2 f a b) else None.

(** [model[mask] += f(vel_grid[mask])] *)
Fixpoint add_where (model : list npfloat) (mask : list bool) (vel_grid : list npfloat)
    (f : npfloat -> npfloat) : list npfloat :=
  match model, mask, vel_grid with
  | m :: model', b :: mask', v :: vel' =>
      (if b then (m + f v)%np else m) :: add_where model' mask' vel' f
  | _, _, _ => []
  end.

(** An element-wise operation that raises as soon as it raises on one
    element. *)
Fixpoint map_raise {A B : Type} (f : A -> option B) (a : list A) : option (list B) :=
  match a with
  | [] => Some []
  | x :: rest =>
      match f x, map_raise f rest with
      | Some y, Some ys => Some (y :: ys)
      | _, _ => None
      end
  end.

(** [x**-1] in a compiled kernel: [1.0/x], with the [ZeroDivisionError] of
    compiled scalar code at zero. *)
Definition power_minus_1 (a : npfloat) : option npfloat :=
  match a with
  | Fin x => if Reqb x 0 then None else Some (1 / a)%np
  | _ => Some (1 / a)%np
  end.

(** [a < b] in a kernel compiled with [fastmath]: the comparison is not
    ordered, it holds as soon as one side is [nan]. *)
Definition lt_fastmath (a b : npfloat) : bool :=
  match a, b with
  | NaN, _ | _, NaN => true
  | _, _ => (a <? b)%np
  end.

(** The observed grid: [datagrid[0]] to [datagrid[3]]. *)
Record datagrid : Type := Datagrid {
  dg_freqs : list npfloat;
  dg_ints : list npfloat;
  dg_yerrs : list npfloat;
  dg_line_ids : list nat }.

Section Model.

Variables cm ckm h k : R.
Variable MolCat : Type.
Variable mol_sim :
  npfloat -> npfloat -> npfloat -> npfloat -> MolCat ->
  list npfloat * list npfloat * list npfloat.

Definition predict_intensities (source_size Ncol Tex dV : npfloat) (mol_cat : MolCat)
    : M (list npfloat * list npfloat * list npfloat) :=
  _ <- tick_predict ;;
  ret (mol_sim source_size Ncol Tex dV mol_cat).

(** [apply_beam] on one channel; [make_model] applies it to whole arrays. *)
Definition apply_beam (frequency intensity source_size dish_size : npfloat) : npfloat :=
  let wavelength := (cm / (frequency * 1e6))%np in
  let beam_size := (wavelength * 206265 * 1.22 / dish_size)%np in
  let dilution_factor :=
    (NP.pow2 source_size / (NP.pow2 beam_size + NP.pow2 source_size))%np in
  let intensity_diluted := (intensity * dilution_factor)%np in
  intensity_diluted.

(** [np.exp(-0.5*((vel - vlsr)/(dV/2.355))**2.)] *)
Definition profile (vlsr dV vel : npfloat) : npfloat :=
  NP.exp (- 0.5 * NP.pow2 ((vel - vlsr) / (dV / 2.355)))%np.

(** [(h*nu*10**6/k)*(np.exp(((h*nu*10**6)/(k*T))) -1)**-1] on one channel;
    [None] for the [ZeroDivisionError] of the power. *)
Definition planck (T nu : npfloat) : option npfloat :=
  match power_minus_1 (NP.exp ((h * nu * 10^6) / (k * T)) - 1)%np with
  | Some inverse => Some ((h * nu * 10^6 / k) * inverse)%np
  | None => None
  end.

(** The four accumulators of [make_model]'s loop. *)
Definition models : Type :=
  (list npfloat * list npfloat * list npfloat * list npfloat)%type.

(** The body of the loop over the lines; [None] for a read past the end of
    one of the amplitude arrays, which the compiled source does not check. *)
Definition add_line (freqs1 ints1 ints2 ints3 ints4 datagrid0 : list npfloat)
    (vlsr1 vlsr2 vlsr3 vlsr4 dV : npfloat) (acc : models) (i : nat) : option models :=
  let '(model1, model2, model3, model4) := acc in
  match nth_error freqs1 i, nth_error ints1 i, nth_error ints2 i,
        nth_error ints3 i, nth_error ints4 i with
  | Some f1, Some a1, Some a2, Some a3, Some a4 =>
      let vel_grid := map (fun d0 => ((f1 - d0) / f1 * ckm)%np) datagrid0 in
      let mask := map (fun v => lt_fastmath (NP.abs (v - 5.8)) (dV * 10)%np) vel_grid in
      Some (add_where model1 mask vel_grid (fun v => (a1 * profile vlsr1 dV v)%np),
            add_where model2 mask vel_grid (fun v => (a2 * profile vlsr2 dV v)%np),
            add_where model3 mask vel_grid (fun v => (a3 * profile vlsr3 dV v)%np),
            add_where model4 mask vel_grid (fun v => (a4 * profile vlsr4 dV v)%np))
  | _, _, _, _, _ => None
  end.

Fixpoint add_lines (freqs1 ints1 ints2 ints3 ints4 datagrid0 : list npfloat)
    (vlsr1 vlsr2 vlsr3 vlsr4 dV : npfloat) (lines : list nat) (acc : models)
    : option models :=
  match lines with
  | [] => Some acc
  | i :: rest =>
      match add_line freqs1 ints1 ints2 ints3 ints4 datagrid0
                     vlsr1 vlsr2 vlsr3 vlsr4 dV acc i with
      | Some acc' =>
          add_lines freqs1 ints1 ints2 ints3 ints4 datagrid0
                    vlsr1 vlsr2 vlsr3 vlsr4 dV rest acc'
      | None => None
      end
  end.

(** [apply_beam(datagrid0, (J_T - J_Tbg)*(1 - np.exp(-model)), ss, 100)] *)
Definition diluted (datagrid0 J_T J_Tbg model : list npfloat) (ss : npfloat)
    : list npfloat :=
  map2 (fun nu intensity => apply_beam nu intensity ss 100)
       datagrid0
       (map2 (fun J m => (J * (1 - NP.exp (- m)))%np) (map2 NP.sub J_T J_Tbg) model).

(** [make_model]; [freqs2], [freqs3] and [freqs4] are arguments the source
    never reads.  [None] when the boolean mask, of the shape of [datagrid0],
    does not fit the accumulators, of the shape of [datagrid1] (the
    broadcasting of a one-element array is not modelled), and when one of the
    two Planck terms divides by zero on a channel. *)
Definition make_model (freqs1 freqs2 freqs3 freqs4 ints1 ints2 ints3 ints4 : list npfloat)
    (ss1 ss2 ss3 ss4 : npfloat) (datagrid0 datagrid1 : list npfloat)
    (vlsr1 vlsr2 vlsr3 vlsr4 dV Tex : npfloat) : option (list npfloat) :=
  let model1 := zeros (length datagrid1) in
  let model2 := zeros (length datagrid1) in
  let model3 := zeros (length datagrid1) in
  let model4 := zeros (length datagrid1) in
  let nlines := length freqs1 in
  if negb (length datagrid0 =? length datagrid1)%nat then None
  else
    match add_lines freqs1 ints1 ints2 ints3 ints4 datagrid0
                    vlsr1 vlsr2 vlsr3 vlsr4 dV (seq 0 nlines)
                    (model1, model2, model3, model4) with
    | Some (model1, model2, model3, model4) =>
        match map_raise (planck Tex) datagrid0, map_raise (planck 2.7) datagrid0 with
        | Some J_T, Some J_Tbg =>
            let model1 := diluted datagrid0 J_T J_Tbg model1 ss1 in
            let model2 := diluted datagrid0 J_T J_Tbg model2 ss2 in
            let model3 := diluted datagrid0 J_T J_Tbg model3 ss3 in
            let model4 := diluted datagrid0 J_T J_Tbg model4 ss4 in
            let curr_model :=
              map2 NP.add (map2 NP.add (map2 NP.add model1 model2) model3) model4 in
            Some curr_model
        | _, _ => None
        end
    | None => None
    end.

Definition lnlike (theta : vec14) (dg : datagrid) (mol_cat : MolCat) : M npfloat :=
  let yerrs := dg_yerrs dg in
  let line_ids := dg_line_ids dg in
  let '(Vec14 source_size1 source_size2 source_size3 source_size4
              Ncol1 Ncol2 Ncol3 Ncol4 Tex vlsr1 vlsr2 vlsr3 vlsr4 dV) := theta in
  sim1 <- predict_intensities source_size1 Ncol1 Tex dV mol_cat ;;
  sim2 <- predict_intensities source_size2 Ncol2 Tex dV mol_cat ;;
  sim3 <- predict_intensities source_size3 Ncol3 Tex dV mol_cat ;;
  sim4 <- predict_intensities source_size4 Ncol4 Tex dV mol_cat ;;
  let '(freqs1, ints1, taus1) := sim1 in
  let '(freqs2, ints2, taus2) := sim2 in
  let '(freqs3, ints3, taus3) := sim3 in
  let '(freqs4, ints4, taus4) := sim4 in
  freqs1 <- lift (take_ids freqs1 line_ids) ;;
  freqs2 <- lift (take_ids freqs2 line_ids) ;;
  freqs3 <- lift (take_ids freqs3 line_ids) ;;
  freqs4 <- lift (take_ids freqs4 line_ids) ;;
  taus1 <- lift (take_ids taus1 line_ids) ;;
  taus2 <- lift (take_ids taus2 line_ids) ;;
  taus3 <- lift (take_ids taus3 line_ids) ;;
  taus4 <- lift (take_ids taus4 line_ids) ;;
  ints1 <- lift (take_ids ints1 line_ids) ;;
  ints2 <- lift (take_ids ints2 line_ids) ;;
  ints3 <- lift (take_ids ints3 line_ids) ;;
  ints4 <- lift (take_ids ints4 line_ids) ;;
  _ <- tick_model ;;
  curr_model <- lift (make_model freqs1 freqs2 freqs3 freqs4 taus1 taus2 taus3 taus4
                        source_size1 source_size2 source_size3 source_size4
                        (dg_freqs dg) (dg_ints dg) vlsr1 vlsr2 vlsr3 vlsr4 dV Tex) ;;
  let inv_sigma2 := map (fun y => (1 / NP.pow2 y)%np) yerrs in
  resid <- lift (zip_same (fun d m => NP.pow2 (d - m)%np) (dg_ints dg) curr_model) ;;
  terms <- lift (zip_same (fun r w => (r * w - NP.log w)%np) resid inv_sigma2) ;;
  let tot_lnlike := NP.sum terms in
  ret (- 0.5 * tot_lnlike)%np.

Definition lnprob (theta : vec14) (dg : datagrid) (mol_cat : MolCat)
    (prior_stds prior_means : vec14) : M npfloat :=
  let lp := lnprior theta prior_stds prior_means in
  if negb (NP.isfinite lp) then ret NInf
  else
    ll <- lnlike theta dg mol_cat ;;
    ret (lp + ll)%np.

End Model.

(** ** Setting up a fit *)

(** An array of shape [(14,)] as a parameter vector; [None] for another shape. *)
Definition list_to_vec14 (a : list npfloat) : option vec14 :=
  match a with
  | [a0; a1; a2; a3; a4; a5; a6; a7; a8; a9; a10; a11; a12; a13] =>
      Some (Vec14 a0 a1 a2 a3 a4 a5 a6 a7 a8 a9 a10 a11 a12 a13)
  | _ => None
  end.

(** The priors that [fit_multi_gaussian] derives from an earlier chain when
    [template_run] is off.  The three arguments are the per-parameter averages
    of the 50th, 16th and 84th percentiles of the chain; the loading of the
    chain and [np.percentile] are not embedded.  The result is
    [(prior_stds, prior_means)]; [None] stands for the [ValueError] of the
    shape check, and for arrays of different shapes. *)
Definition percentile_priors (prior_means percentile_16 percentile_84 : list npfloat)
    : option (vec14 * vec14) :=
  match zip_same NP.add percentile_16 percentile_84 with
  | Some sum_16_84 =>
      match zip_same NP.sub sum_16_84 (map (fun x => (2 * x)%np) prior_means) with
      | Some diff =>
          let prior_stds := map NP.abs (map (fun x => (x / 2)%np) diff) in
          match list_to_vec14 prior_means, list_to_vec14 prior_stds with
          | Some means, Some stds => Some (stds, means)
          | _, _ => None
          end
      | None => None
      end
  | None => None
  end.

(** What [np.array([freqs, ints, yerrs, line_ids], dtype=object)] makes of
    four arrays: an array of shape [(4,)] that holds the four arrays when their
    lengths differ, and a table of shape [(4, n)] that holds one object per
    entry when the four arrays have one length [n]. *)
Inductive object_array : Type :=
| Rows (dg : datagrid)
| Table (dg : datagrid).

Definition np_array_object (dg : datagrid) : object_array :=
  let n := length (dg_freqs dg) in
  if ((length (dg_ints dg) =? n) && (length (dg_yerrs dg) =? n)
      && (length (dg_line_ids dg) =? n))%nat
  then Table dg
  else Rows dg.

Section Setup.

Variables cm ckm h k : R.
Variable MolCat : Type.
Variable mol_sim :
  npfloat -> npfloat -> npfloat -> npfloat -> MolCat ->
  list npfloat * list npfloat * list npfloat.

(** [init_setup], on the two rows of the data file: the lines are simulated
    once, for a source of 40 arcseconds at 8 K with a column density of 7e11
    and a line width of 0.37, the windows of the significant lines are
    extracted with [read_file] (no shift, frequencies in MHz), and the four
    results are put in one array of objects, which is saved.  The result is
    the array that [fit_multi_gaussian] loads from the file; the folders, the
    catalogue file and the file of the grid are left out. *)
Definition init_setup (data0 data1 : list npfloat) (mol_cat : MolCat)
    (block_interlopers : bool) : option object_array :=
  let '(freq_sim, int_sim, _) := mol_sim 40 7e11 8 0.37 mol_cat in
  match read_file data0 data1 freq_sim int_sim 0 false block_interlopers with
  | Some (freqs_gotham, ints_gotham, yerrs_gotham, covered_trans_gotham) =>
      let datagrid :=
        {| dg_freqs := freqs_gotham; dg_ints := ints_gotham;
           dg_yerrs := yerrs_gotham; dg_line_ids := covered_trans_gotham |} in
      Some (np_array_object datagrid)
  | None => None
  end.

(** [lnlike] on the array that [fit_multi_gaussian] loads.  Of an array of
    four arrays it reads the four arrays.  Of a table, [datagrid[3]] is a row
    of objects, and after the four simulations the first selection
    [np.array(freqs1)[line_ids]] raises [IndexError]: an array of objects is
    no index. *)
Definition lnlike_loaded (theta : vec14) (datagrid : object_array) (mol_cat : MolCat)
    : M npfloat :=
  match datagrid with
  | Rows dg => lnlike cm ckm h k MolCat mol_sim theta dg mol_cat
  | Table dg =>
      let '(Vec14 source_size1 source_size2 source_size3 source_size4
                  Ncol1 Ncol2 Ncol3 Ncol4 Tex vlsr1 vlsr2 vlsr3 vlsr4 dV) := theta in
      _ <- predict_intensities MolCat mol_sim source_size1 Ncol1 Tex dV mol_cat ;;
      _ <- predict_intensities MolCat mol_sim source_size2 Ncol2 Tex dV mol_cat ;;
      _ <- predict_intensities MolCat mol_sim source_size3 Ncol3 Tex dV mol_cat ;;
      _ <- predict_intensities MolCat mol_sim source_size4 Ncol4 Tex dV mol_cat ;;
      lift None
  end.

End Setup.

(** * Vocabulary of the statements *)

(** ** Comparisons as propositions *)

Definition np_lt (a b : npfloat) : Prop := NP.ltb a b = true.

(** [x] lies in the open interval [(lo, hi)]. *)
Definition in_open (lo hi x : npfloat) : Prop := np_lt lo x /\ np_lt x hi.

(** ** The parameter domain and the velocity window, in the specification's words *)

(** The domain constraint of the parameter vector: sizes in (0, 200), column
    densities in (0, 1e16), each velocity in (previous + 0.05, previous + 0.3),
    [dV < 0.3] and [Tex > 2.7]. *)
Definition satisfies_bounds (theta : vec14) : Prop :=
  in_open 0 200 (v0 theta) /\ in_open 0 200 (v1 theta) /\
  in_open 0 200 (v2 theta) /\ in_open 0 200 (v3 theta) /\
  in_open 0 1e16 (v4 theta) /\ in_open 0 1e16 (v5 theta) /\
  in_open 0 1e16 (v6 theta) /\ in_open 0 1e16 (v7 theta) /\
  in_open (v9 theta + 0.05)%np (v9 theta + 0.3)%np (v10 theta) /\
  in_open (v10 theta + 0.05)%np (v10 theta + 0.3)%np (v11 theta) /\
  in_open (v11 theta + 0.05)%np (v11 theta + 0.3)%np (v12 theta) /\
  np_lt (v13 theta) 0.3 /\ np_lt 2.7 (v8 theta).

(** The velocity window: the interval [5.6, 6.3] km/s widened by (-0.3, +0.3). *)
Definition spec_window (vel : npfloat) : bool :=
  ((5.6 - 0.3 <? vel) && (vel <? 6.3 + 0.3))%np.

(** The noise estimate with the masking of each cycle as the specification
    words it: the ten channels below and the ten channels above every flagged
    channel, at either end of the window as well. *)
Definition spec_mask_around (noise : list npfloat) (chans : list nat) : list npfloat :=
  fold_left (fun nz chan => fill_from 0 (chan - 10) (chan + 11) NaN nz) chans noise.

Definition spec_clip_cycle (dummy_ints : list npfloat) (threshold : npfloat)
    (st : list npfloat * npfloat * npfloat) : list npfloat * npfloat * npfloat :=
  let '(noise, mean, std) := st in
  let noise := spec_mask_around noise (low_outliers dummy_ints mean std threshold) in
  let noise := spec_mask_around noise (high_outliers dummy_ints mean std threshold) in
  (noise, nanmean noise, nanstd noise).

Definition spec_calc_noise_std (intensity : list npfloat) (threshold : npfloat)
    : npfloat * npfloat :=
  let st :=
    spec_clip_cycle intensity threshold (intensity, nanmean intensity, nanstd intensity) in
  let st := spec_clip_cycle intensity threshold st in
  let '(_, noise_mean, noise_std) := spec_clip_cycle intensity threshold st in
  (noise_mean, noise_std).

(** ** Priors *)

(** [theta] with its line width replaced. *)
Definition with_dV (theta : vec14) (dV : npfloat) : vec14 :=
  Vec14 (v0 theta) (v1 theta) (v2 theta) (v3 theta) (v4 theta) (v5 theta) (v6 theta)
        (v7 theta) (v8 theta) (v9 theta) (v10 theta) (v11 theta) (v12 theta) dV.

(** Two standard-deviation vectors that agree at the indices 0-3 and 8. *)
Definition same_used_stds (s s' : vec14) : Prop :=
  v0 s = v0 s' /\ v1 s = v1 s' /\ v2 s = v2 s' /\ v3 s = v3 s' /\ v8 s = v8 s'.

(** Two mean vectors that agree at the indices 0-3 and 8-13. *)
Definition same_used_means (m m' : vec14) : Prop :=
  v0 m = v0 m' /\ v1 m = v1 m' /\ v2 m = v2 m' /\ v3 m = v3 m' /\ v8 m = v8 m' /\
  v9 m = v9 m' /\ v10 m = v10 m' /\ v11 m = v11 m' /\ v12 m = v12 m' /\ v13 m = v13 m'.

(** ** Lines and windows of [read_file] *)

(** [int_sim[i]] strictly exceeds 5% of [max(int_sim)]. *)
Definition significant (int_sim : list npfloat) (i : nat) : Prop :=
  exists sim_i peak,
    nth_error int_sim i = Some sim_i /\ NP.max int_sim = Some peak /\
    np_lt (0.05 * peak)%np sim_i.

(** The peak of a window exceeds 6 times its noise standard deviation. *)
Definition is_interloper (window : list npfloat) : bool :=
  match NP.max window with
  | Some top => (top >? 6 * snd (calc_noise_std window default_threshold))%np
  | None => false
  end.

(** The uncertainty stored for a channel of intensity [x] in a window of noise
    standard deviation [noise_std]. *)
Definition yerr_of (noise_std x : npfloat) : npfloat :=
  NP.sqrt (NP.pow2 noise_std + NP.pow2 (x * 0.1))%np.

(** The noise standard deviation of the window of rest frequency [rf]. *)
Definition window_noise (freqs intensity : list npfloat) (rf shift : npfloat) : npfloat :=
  snd (calc_noise_std (gather intensity (window_locs freqs rf shift)) default_threshold).

(** Line [i], of rest frequency [rf], is kept by [read_file]: it is
    significant, its window has channels, and it is not blocked as an
    interloper. *)
Definition accepted (freqs intensity int_sim : list npfloat) (shift : npfloat)
    (block_interlopers : bool) (i : nat) (rf : npfloat) : Prop :=
  significant int_sim i /\
  window_locs freqs rf shift <> [] /\
  (block_interlopers = true ->
   is_interloper (gather intensity (window_locs freqs rf shift)) = false).

(** The accumulators after the window of line [i] has been stored. *)
Definition store_window (freqs intensity : list npfloat) (shift : npfloat)
    (st : windows) (i : nat) (rf : npfloat) : windows :=
  let locs := window_locs freqs rf shift in
  {| covered_trans := covered_trans st ++ [i];
     relevant_freqs := scatter (relevant_freqs st) locs (gather freqs locs);
     relevant_intensity := scatter (relevant_intensity st) locs (gather intensity locs);
     relevant_yerrs :=
       scatter (relevant_yerrs st) locs
         (map (fun x => NP.sqrt (NP.pow2 (window_noise freqs intensity rf shift)
                                 + NP.pow2 (x * 0.1))%np)
              (gather intensity locs)) |}.

(** Channel [k] lies in the window of a line recorded in [cov]. *)
Definition covered_channel (freqs restfreqs : list npfloat) (shift : npfloat)
    (cov : list nat) (k : nat) : Prop :=
  exists i rf,
    In i cov /\ nth_error restfreqs i = Some rf /\ In k (window_locs freqs rf shift).

(** What the accumulators hold at channel [k]: zeros while no recorded line
    covers it; otherwise the channel's frequency and intensity and the
    uncertainty computed in the window of a recorded line. *)
Definition channel_state (freqs intensity restfreqs : list npfloat) (shift : npfloat)
    (st : windows) (k : nat) : Prop :=
  (nth k (relevant_freqs st) NaN = Fin 0 /\
   nth k (relevant_intensity st) NaN = Fin 0 /\
   nth k (relevant_yerrs st) NaN = Fin 0 /\
   ~ covered_channel freqs restfreqs shift (covered_trans st) k)
  \/
  (exists i rf,
     In i (covered_trans st) /\ nth_error restfreqs i = Some rf /\
     In k (window_locs freqs rf shift) /\
     nth k (relevant_freqs st) NaN = nth k freqs NaN /\
     nth k (relevant_intensity st) NaN = nth k intensity NaN /\
     nth k (relevant_yerrs st) NaN
     = yerr_of (window_noise freqs intensity rf shift) (nth k intensity NaN)).

(** The invariant of [read_file]'s loop once the lines before [done] have been
    processed. *)
Definition loop_inv (freqs intensity int_sim restfreqs : list npfloat) (shift : npfloat)
    (block : bool) (done : nat) (st : windows) : Prop :=
  length (relevant_freqs st) = length freqs /\
  length (relevant_intensity st) = length freqs /\
  length (relevant_yerrs st) = length freqs /\
  (forall i, In i (covered_trans st) <->
             (i < done)%nat /\
             exists rf, nth_error restfreqs i = Some rf /\
                        accepted freqs intensity int_sim shift block i rf) /\
  (forall k, (k < length freqs)%nat ->
             channel_state freqs intensity restfreqs shift st k).

(** The uncertainty [y] of a channel of intensity [x] in a window of noise
    standard deviation [noise_std]: [nan] exactly when the noise estimate or
    the intensity is [nan]; otherwise [+inf] exactly when one of the two is
    infinite; otherwise a real number, not below a tenth of [|x|] and not
    below [|noise_std|]. *)
Definition valid_uncertainty (noise_std x y : npfloat) : Prop :=
  (y = NaN /\ (noise_std = NaN \/ x = NaN)) \/
  (y = PInf /\ noise_std <> NaN /\ x <> NaN /\
   (NP.isfinite noise_std = false \/ NP.isfinite x = false)) \/
  (exists sr xr yr : R,
     noise_std = Fin sr /\ x = Fin xr /\ y = Fin yr /\
     0.1 * Rabs xr <= yr /\ Rabs sr <= yr).

(** The uncertainty [y] returned for channel [k] of the spectrum comes from
    the noise estimate of the window of a recorded line that covers the
    channel. *)
Definition channel_uncertainty (freqs intensity restfreqs : list npfloat)
    (shift : npfloat) (cov : list nat) (k : nat) (y : npfloat) : Prop :=
  exists i rf,
    In i cov /\ nth_error restfreqs i = Some rf /\
    In k (window_locs freqs rf shift) /\
    valid_uncertainty (window_noise freqs intensity rf shift) (nth k intensity NaN) y.

(** ** Beam dilution on real numbers *)

(** The beam size and the dilution factor that [apply_beam] computes. *)
Definition beam_size (cm frequency dish_size : R) : R :=
  cm / (frequency * 1e6) * 206265 * 1.22 / dish_size.

Definition dilution (beam source_size : R) : R :=
  source_size * source_size / (beam * beam + source_size * source_size).

(** ** Real and positive values *)

(** [a] is a real number: neither [nan] nor an infinity. *)
Definition finite (a : npfloat) : Prop := exists x : R, a = Fin x.

(** [a] is a real number or [nan]: not an infinity. *)
Definition real_or_nan (a : npfloat) : Prop := finite a \/ a = NaN.

(** [a] is a real number above zero. *)
Definition positive (a : npfloat) : Prop := exists x : R, a = Fin x /\ 0 < x.

(** [a] is a real number not below zero. *)
Definition nonnegative (a : npfloat) : Prop := exists x : R, a = Fin x /\ 0 <= x.

(** An array with the real number [c] added to every entry. *)
Definition shifted (c : R) (a : list npfloat) : list npfloat :=
  map (fun x => (x + Fin c)%np) a.

(** ** Priors that [lnprior] can use *)

(** The entries of the priors that [lnprior] reads are usable as the means and
    the standard deviations of Gaussians: the means at the indices 0-3 and 8-13
    are real, the standard deviations at the indices 0-3 and 8 are real and
    positive, and so is the mean line width, from which the other five standard
    deviations are taken. *)
Definition usable_priors (s m : vec14) : Prop :=
  positive (v0 s) /\ positive (v1 s) /\ positive (v2 s) /\ positive (v3 s) /\
  positive (v8 s) /\
  finite (v0 m) /\ finite (v1 m) /\ finite (v2 m) /\ finite (v3 m) /\ finite (v8 m) /\
  finite (v9 m) /\ finite (v10 m) /\ finite (v11 m) /\ finite (v12 m) /\
  positive (v13 m).

(** The value of one Gaussian term on real numbers. *)
Definition gauss_term (x m s : R) : R :=
  ln (1 / (sqrt (2 * PI) * s)) - 0.5 * ((x - m) * (x - m)) / (s * s).

(** [theta] with its excitation temperature replaced. *)
Definition with_Tex (theta : vec14) (Tex : npfloat) : vec14 :=
  Vec14 (v0 theta) (v1 theta) (v2 theta) (v3 theta) (v4 theta) (v5 theta) (v6 theta)
        (v7 theta) Tex (v9 theta) (v10 theta) (v11 theta) (v12 theta) (v13 theta).

(** The 14 entries of a parameter vector, in the order of their indices. *)
Definition vec14_to_list (v : vec14) : list npfloat :=
  [v0 v; v1 v; v2 v; v3 v; v4 v; v5 v; v6 v; v7 v; v8 v; v9 v; v10 v; v11 v; v12 v; v13 v].

(** ** The order of what [read_file] returns, and overlapping windows *)

(** A list of indices in strictly increasing order. *)
Fixpoint increasing (l : list nat) : Prop :=
  match l with
  | [] => True
  | x :: rest => (forall y, In y rest -> (x < y)%nat) /\ increasing rest
  end.

(** Line [i], of rest frequency [rf], is the last of the recorded lines [cov]
    whose window holds channel [k]. *)
Definition last_cover (freqs restfreqs : list npfloat) (shift : npfloat)
    (cov : list nat) (k i : nat) (rf : npfloat) : Prop :=
  In i cov /\ nth_error restfreqs i = Some rf /\ In k (window_locs freqs rf shift) /\
  forall j rfj,
    In j cov -> nth_error restfreqs j = Some rfj ->
    In k (window_locs freqs rfj shift) -> (j <= i)%nat.

(** The uncertainty held at every covered channel is the one computed in the
    window of the last recorded line that covers it. *)
Definition last_wins (freqs intensity restfreqs : list npfloat) (shift : npfloat)
    (st : windows) : Prop :=
  forall k, (k < length freqs)%nat ->
    covered_channel freqs restfreqs shift (covered_trans st) k ->
    exists i rf,
      last_cover freqs restfreqs shift (covered_trans st) k i rf /\
      nth k (relevant_intensity st) NaN = nth k intensity NaN /\
      nth k (relevant_yerrs st) NaN
      = yerr_of (window_noise freqs intensity rf shift) (nth k intensity NaN).

(** ** Shapes in the forward model and in the likelihood *)

(** The four accumulators of [make_model] have [n] channels each. *)
Definition models_shape (n : nat) (acc : models) : Prop :=
  let '(model1, model2, model3, model4) := acc in
  length model1 = n /\ length model2 = n /\ length model3 = n /\ length model4 = n.

(** The Planck term of [make_model] on real numbers. *)
Definition planck_R (h k T nu : R) : R :=
  h * nu * 10 ^ 6 / k * (1 / (exp (h * nu * 10 ^ 6 / (k * T)) - 1)).

(** Both Planck terms of [make_model], at [Tex] and at the 2.7 K of the
    background, return on every channel of the grid. *)
Definition planck_defined (h k : R) (Tex : npfloat) (datagrid0 : list npfloat) : Prop :=
  Forall (fun nu => planck h k Tex nu <> None) datagrid0 /\
  Forall (fun nu => planck h k 2.7 nu <> None) datagrid0.

(** The grid has a channel on which a Planck term of [make_model] divides by
    zero: a channel of frequency zero, or a channel of real frequency while
    [Tex] is infinite. *)
Definition divides_by_zero (Tex : npfloat) (datagrid0 : list npfloat) : Prop :=
  Exists (fun nu => nu = Fin 0 \/ (finite nu /\ (Tex = PInf \/ Tex = NInf))) datagrid0.

(** Every line index of [ids] is within the three arrays of a simulation. *)
Definition sim_covers (sim : list npfloat * list npfloat * list npfloat) (ids : list nat)
    : Prop :=
  let '(freq_sim, int_sim, tau_sim) := sim in
  forall i, In i ids ->
    (i < length freq_sim)%nat /\ (i < length int_sim)%nat /\ (i < length tau_sim)%nat.

(** The three arrays of a simulation have [n] entries each. *)
Definition sim_shape (n : nat) (sim : list npfloat * list npfloat * list npfloat) : Prop :=
  let '(freq_sim, int_sim, tau_sim) := sim in
  length freq_sim = n /\ length int_sim = n /\ length tau_sim = n.

(** The terms that [lnlike] sums: [(data - model)**2*inv_sigma2 - log(inv_sigma2)]
    with [inv_sigma2 = 1.0/(yerrs**2)]. *)
Definition chi_terms (ints curr_model yerrs : list npfloat) : list npfloat :=
  map2 (fun r w => (r * w - NP.log w)%np)
       (map2 (fun d m => NP.pow2 (d - m)%np) ints curr_model)
       (map (fun y => (1 / NP.pow2 y)%np) yerrs).

(** The counters after the four simulator calls of one evaluation of [lnlike],
    with [n] calls of [make_model]. *)
Definition after_lnlike (c : calls) (n : nat) : calls :=
  {| predict_calls := 4 + predict_calls c; model_calls := n + model_calls c |}.

Section Simulations.

Variable MolCat : Type.
Variable mol_sim :
  npfloat -> npfloat -> npfloat -> npfloat -> MolCat ->
  list npfloat * list npfloat * list npfloat.

(** The four simulations that [lnlike] asks for, one per velocity component. *)
Definition component_sims (theta : vec14) (mol_cat : MolCat)
    : list (list npfloat * list npfloat * list npfloat) :=
  [mol_sim (v0 theta) (v4 theta) (v8 theta) (v13 theta) mol_cat;
   mol_sim (v1 theta) (v5 theta) (v8 theta) (v13 theta) mol_cat;
   mol_sim (v2 theta) (v6 theta) (v8 theta) (v13 theta) mol_cat;
   mol_sim (v3 theta) (v7 theta) (v8 theta) (v13 theta) mol_cat].

End Simulations.

(** * Inputs of the examples *)

(** The hard-coded [initial] (also [prior_means]) and [prior_stds] of a
    template run of [fit_multi_gaussian]. *)
Definition template_initial : vec14 :=
  Vec14 37 25 56 22 2.47e12 11.19e12 2.20e12 5.64e12 6.7
        5.624 5.790 5.910 6.033 0.117.

Definition template_prior_stds : vec14 :=
  Vec14 2.5 2.0 6.5 2.0 0.30e12 1.75e12 0.265e12 1.185e12 0.1
        0.0015 0.001 0.0035 0.002 0.002.

(** The template vector with a first source size of 250 arcseconds. *)
Definition oversized_theta : vec14 :=
  Vec14 250 25 56 22 2.47e12 11.19e12 2.20e12 5.64e12 6.7
        5.624 5.790 5.910 6.033 0.117.

(** A spectrum of three channels under two lines whose windows overlap: the
    window of the line at 300000 MHz holds the channels 0 and 1, the window of
    the line at 300000.5 MHz the channels 1 and 2. *)
Definition overlap_freqs : list npfloat := [Fin 299994; Fin 299994.5; Fin 299995].
Definition overlap_ints : list npfloat := [Fin 4; Fin 3; Fin 0].
Definition overlap_lines : list npfloat := [Fin 300000; Fin 300000.5].

(** A baseline of 26 channels at zero with one spike of 26 on channel 3. *)
Definition early_spike : list npfloat :=
  [Fin 0; Fin 0; Fin 0; Fin 26; Fin 0; Fin 0; Fin 0; Fin 0; Fin 0; Fin 0;
   Fin 0; Fin 0; Fin 0; Fin 0; Fin 0; Fin 0; Fin 0; Fin 0; Fin 0; Fin 0;
   Fin 0; Fin 0; Fin 0; Fin 0; Fin 0; Fin 0].

(** The same window with the channels 0 to 13 masked. *)
Definition early_spike_masked : list npfloat := repeat NaN 14 ++ repeat (Fin 0) 12.

(** A window of 17 channels, 0.04 MHz apart, flat at zero but for a spike of 17
    on channel 10. *)
Definition spike_grid : list npfloat :=
  [Fin 299993.80; Fin 299993.84; Fin 299993.88; Fin 299993.92; Fin 299993.96;
   Fin 299994.00; Fin 299994.04; Fin 299994.08; Fin 299994.12; Fin 299994.16;
   Fin 299994.20; Fin 299994.24; Fin 299994.28; Fin 299994.32; Fin 299994.36;
   Fin 299994.40; Fin 299994.44].

Definition late_spike : list npfloat :=
  [Fin 0; Fin 0; Fin 0; Fin 0; Fin 0; Fin 0; Fin 0; Fin 0; Fin 0; Fin 0;
   Fin 17; Fin 0; Fin 0; Fin 0; Fin 0; Fin 0; Fin 0].

(** ** Further inputs of the examples *)

(** The template means as an array, and percentiles one unit below and one
    unit above them. *)
Definition template_means_array : list npfloat := vec14_to_list template_initial.

Definition percentiles_below : list npfloat :=
  map (fun x => (x - 1)%np) template_means_array.

Definition percentiles_above : list npfloat :=
  map (fun x => (x + 1)%np) template_means_array.

(** * Properties *)

(** ** Deciding comparisons of reals *)

Lemma Rltb_true (x y : R) : x < y -> Rltb x y = true.
Proof. unfold Rltb; destruct (Rlt_dec x y); tauto. Qed.

Lemma Rltb_false (x y : R) : ~ x < y -> Rltb x y = false.
Proof. unfold Rltb; destruct (Rlt_dec x y); tauto. Qed.

Lemma Rltb_true_iff (x y : R) : Rltb x y = true <-> x < y.
Proof. unfold Rltb; destruct (Rlt_dec x y); split; intros; auto; discriminate. Qed.

Lemma Rltb_false_iff (x y : R) : Rltb x y = false <-> y <= x.
Proof.
  unfold Rltb; destruct (Rlt_dec x y); split; intros; try discriminate; try lra; auto.
Qed.

Lemma Reqb_true (x y : R) : x = y -> Reqb x y = true.
Proof. unfold Reqb; destruct (Req_dec_T x y); tauto. Qed.

Lemma Reqb_false (x y : R) : x <> y -> Reqb x y = false.
Proof. unfold Reqb; destruct (Req_dec_T x y); tauto. Qed.

(** Settles every comparison of two real expressions that [lra] can decide. *)
Ltac decide_R :=
  repeat match goal with
  | |- context [Rltb ?a ?b] =>
      first [ rewrite (Rltb_true a b) by lra | rewrite (Rltb_false a b) by lra ]
  | |- context [Reqb ?a ?b] =>
      first [ rewrite (Reqb_true a b) by lra | rewrite (Reqb_false a b) by lra ]
  end.

(** Unfolds the operations on [npfloat] and on arrays, leaving reals alone. *)
Ltac np_red :=
  cbn [NP.neg NP.add NP.sub NP.mul NP.div NP.pow2 NP.abs NP.ltb NP.gtb
       NP.isnan NP.isfinite NP.sum NP.max NP.max2 NP.sqrt NP.exp NP.log
       map fold_left filter negb andb orb length app nth nth_error
       zeros repeat map2 gather set_at scatter not_nan fst snd].

(** Unfolds the selections by a boolean mask; to be used once the mask is made
    of [true] and [false], since every undecided entry doubles the term. *)
Ltac np_select := cbn [where_from np_where compress].

Ltac np_step := np_red; unfold NP.scale_inf; decide_R.

Ltac np_eval := repeat (progress (repeat (progress np_step); np_select)).

(** ** Bounds *)

Lemma ltb_shift (a b : npfloat) (d : R) :
  (a <? b - d)%np = (a + d <? b)%np.
Proof.
  destruct a, b; cbn [NP.sub NP.add NP.neg NP.ltb]; try reflexivity.
  unfold Rltb; destruct (Rlt_dec x (x0 + - d)), (Rlt_dec (x + d) x0);
    try reflexivity; exfalso; lra.
Qed.

Lemma pow_10_16 : 10 ^ 16 = 1e16.
Proof. lra. Qed.

Lemma is_within_bounds_spec (theta : vec14) :
  is_within_bounds theta = true <-> satisfies_bounds theta.
Proof.
  destruct theta; unfold is_within_bounds, satisfies_bounds, in_open, np_lt;
    cbn [v0 v1 v2 v3 v4 v5 v6 v7 v8 v9 v10 v11 v12 v13].
  rewrite !andb_true_iff, !ltb_shift, pow_10_16. tauto.
Qed.

Lemma lnprior_out_of_bounds (theta prior_stds prior_means : vec14) :
  is_within_bounds theta = false -> lnprior theta prior_stds prior_means = NInf.
Proof.
  intros H. unfold lnprior. destruct theta, prior_stds, prior_means.
  rewrite H. reflexivity.
Qed.

(** ** The posterior never reaches the forward model outside the bounds *)

Section Posterior.

Variables cm ckm h k : R.
Variable MolCat : Type.
Variable mol_sim :
  npfloat -> npfloat -> npfloat -> npfloat -> MolCat ->
  list npfloat * list npfloat * list npfloat.

(** Every evaluation of the likelihood, finished or raised, has gone through
    the four calls of the line simulator. *)
Lemma lnlike_calls_simulator (theta : vec14) (dg : datagrid) (mol_cat : MolCat) (c : calls) :
  predict_calls (snd (lnlike cm ckm h k MolCat mol_sim theta dg mol_cat c))
  = (4 + predict_calls c)%nat.
Proof.
  destruct theta. unfold lnlike, predict_intensities, bind, tick_predict, tick_model, lift, ret.
  cbn.
  repeat match goal with
         | |- context [mol_sim ?a ?b ?c ?d ?e] =>
             let p := fresh "p" in
             destruct (mol_sim a b c d e) as [[? ?] ?] eqn:p
         end.
  repeat match goal with
         | |- context [match ?o with Some _ => _ | None => _ end] =>
             destruct o; cbn; try reflexivity
         end.
Qed.

Lemma lnprob_out_of_bounds (theta : vec14) (dg : datagrid) (mol_cat : MolCat)
    (prior_stds prior_means : vec14) (c : calls) :
  is_within_bounds theta = false ->
  lnprob cm ckm h k MolCat mol_sim theta dg mol_cat prior_stds prior_means c
  = (Some NInf, c).
Proof.
  intros H. unfold lnprob. rewrite (lnprior_out_of_bounds _ _ _ H). reflexivity.
Qed.

(** C1: a parameter vector that violates the domain constraint (a size outside
    (0, 200), a column density outside (0, 1e16), a velocity outside
    (previous + 0.05, previous + 0.3), [dV >= 0.3] or [Tex <= 2.7]) gets
    [-inf] from [lnprior], and [lnprob] returns [-inf] with the call counters
    untouched: neither the line simulator nor [make_model] has run, whereas an
    evaluation of [lnlike] always counts four simulator calls
    ([lnlike_calls_simulator]). *)
Theorem lnprob_out_of_bounds_skips_forward_model (theta : vec14) (dg : datagrid)
    (mol_cat : MolCat) (prior_stds prior_means : vec14) :
  ~ satisfies_bounds theta ->
  lnprior theta prior_stds prior_means = NInf /\
  forall c : calls,
    lnprob cm ckm h k MolCat mol_sim theta dg mol_cat prior_stds prior_means c
    = (Some NInf, c).
Proof.
  intros Hbad.
  assert (Hb : is_within_bounds theta = false).
  { destruct (is_within_bounds theta) eqn:E; [| reflexivity].
    exfalso. apply Hbad. apply is_within_bounds_spec. exact E. }
  split.
  - apply lnprior_out_of_bounds. exact Hb.
  - intros c. apply lnprob_out_of_bounds. exact Hb.
Qed.

End Posterior.

(** The witness: the template vector with its first source size at 250. *)
Lemma lnprob_out_of_bounds_witness :
  ~ satisfies_bounds oversized_theta /\
  (lnprior oversized_theta template_prior_stds template_initial = NInf /\
   forall c : calls,
     lnprob 29979245800 299792.458 6.626e-27 1.381e-16 unit
            (fun _ _ _ _ _ => ([], [], [])) oversized_theta (Datagrid [] [] [] []) tt
            template_prior_stds template_initial c
     = (Some NInf, c)).
Proof.
  assert (Hbad : ~ satisfies_bounds oversized_theta).
  { intros [[_ H] _]. unfold np_lt, oversized_theta in H. cbn [v0 NP.ltb] in H.
    rewrite Rltb_false in H by lra. discriminate. }
  split; [exact Hbad |].
  apply lnprob_out_of_bounds_skips_forward_model. exact Hbad.
Defined.

(** ** What the prior reads *)

(** C5: [lnprior] reads [prior_stds] only at the indices 0-3 and 8 and
    [prior_means] only at the indices 0-3 and 8-13: the standard deviations of
    the velocities and of the line width are recomputed from [prior_means[13]]
    and the column densities have no term.  Two calls that agree on [theta] and
    on those entries return the same value. *)
Theorem lnprior_ignores_unused_priors (theta s s' m m' : vec14) :
  same_used_stds s s' -> same_used_means m m' ->
  lnprior theta s m = lnprior theta s' m'.
Proof.
  unfold same_used_stds, same_used_means.
  destruct theta, s, s', m, m'; cbn [v0 v1 v2 v3 v4 v5 v6 v7 v8 v9 v10 v11 v12 v13].
  intros (-> & -> & -> & -> & ->) (-> & -> & -> & -> & -> & -> & -> & -> & -> & ->).
  reflexivity.
Qed.

(** The witness: the column-density and velocity entries of the standard
    deviations, and the column-density entries of the means, are replaced. *)
Lemma lnprior_ignores_unused_priors_witness :
  let s' := Vec14 2.5 2.0 6.5 2.0 1 2 3 4 0.1 5 6 7 8 9 in
  let m' := Vec14 37 25 56 22 1 NaN PInf 4 6.7 5.624 5.790 5.910 6.033 0.117 in
  same_used_stds template_prior_stds s' /\ same_used_means template_initial m' /\
  lnprior template_initial template_prior_stds template_initial
  = lnprior template_initial s' m'.
Proof.
  cbv zeta.
  assert (Hs : same_used_stds template_prior_stds
                 (Vec14 2.5 2.0 6.5 2.0 1 2 3 4 0.1 5 6 7 8 9)).
  { repeat split. }
  assert (Hm : same_used_means template_initial
                 (Vec14 37 25 56 22 1 NaN PInf 4 6.7 5.624 5.790 5.910 6.033 0.117)).
  { repeat split. }
  split; [exact Hs | split; [exact Hm |]].
  apply lnprior_ignores_unused_priors; [exact Hs | exact Hm].
Defined.

(** ** The line width has no lower bound *)

Lemma sqrt_2PI_pos : 0 < sqrt (2 * PI).
Proof. apply sqrt_lt_R0. pose proof PI_RGT_0. lra. Qed.

(** With a finite argument and mean and a positive finite standard deviation,
    a Gaussian term is finite. *)
Lemma log_gauss_finite (x m s : R) :
  0 < s -> exists r : R, log_gauss (Fin x) (Fin m) (Fin s) = Fin r.
Proof.
  intros Hs. pose proof sqrt_2PI_pos as Hq. pose proof PI_RGT_0 as Hpi.
  assert (Hd : 0 < sqrt (2 * PI) * s) by (apply Rmult_lt_0_compat; assumption).
  assert (Hi : 0 < 1 / (sqrt (2 * PI) * s)).
  { apply Rdiv_lt_0_compat; lra. }
  assert (Hss : s * s <> 0) by nra.
  unfold log_gauss. np_red.
  rewrite (Rltb_false (2 * PI) 0) by lra. np_red.
  rewrite (Reqb_false (sqrt (2 * PI) * s) 0) by lra. np_red.
  rewrite (Rltb_true 0 (1 / (sqrt (2 * PI) * s))) by exact Hi.
  rewrite (Reqb_false (s * s) 0) by exact Hss. np_red.
  eexists. reflexivity.
Qed.

Lemma add_finite (a b : npfloat) :
  (exists x, a = Fin x) -> (exists y, b = Fin y) -> exists z, (a + b)%np = Fin z.
Proof. intros [x ->] [y ->]. eexists. reflexivity. Qed.

(** The bounds check does not read the line width below 0.3: any smaller
    value, zero and the negatives included, passes where [theta] passes. *)
Lemma is_within_bounds_with_dV (theta : vec14) (dV : R) :
  is_within_bounds theta = true -> dV < 0.3 ->
  is_within_bounds (with_dV theta dV) = true.
Proof.
  destruct theta. unfold is_within_bounds, with_dV.
  cbn [v0 v1 v2 v3 v4 v5 v6 v7 v8 v9 v10 v11 v12 v13].
  rewrite !andb_true_iff. intros H Hd.
  cbn [NP.ltb]. rewrite (Rltb_true dV 0.3) by exact Hd. tauto.
Qed.

(** Within the bounds the prior is the sum of ten Gaussian terms: sizes, [Tex],
    velocities and line width, the last five with standard deviations taken
    from [prior_means[13]]. *)
Lemma lnprior_within_bounds (theta s m : vec14) :
  is_within_bounds theta = true ->
  lnprior theta s m
  = (log_gauss (v0 theta) (v0 m) (v0 s) + log_gauss (v1 theta) (v1 m) (v1 s)
     + log_gauss (v2 theta) (v2 m) (v2 s) + log_gauss (v3 theta) (v3 m) (v3 s)
     + log_gauss (v8 theta) (v8 m) (v8 s)
     + log_gauss (v9 theta) (v9 m) (v13 m * 0.8)
     + log_gauss (v10 theta) (v10 m) (v13 m * 0.8)
     + log_gauss (v11 theta) (v11 m) (v13 m * 0.8)
     + log_gauss (v12 theta) (v12 m) (v13 m * 0.8)
     + log_gauss (v13 theta) (v13 m) (v13 m * 0.3))%np.
Proof.
  intros H. destruct theta, s, m. unfold lnprior. rewrite H. reflexivity.
Qed.

Lemma template_initial_within_bounds : is_within_bounds template_initial = true.
Proof. unfold is_within_bounds, template_initial. np_eval. reflexivity. Qed.

(** C10: [is_within_bounds] puts no lower bound on the line width.  For every
    [dV <= 0], the template vector with that line width passes the bounds check
    (sizes, column densities, velocities and [Tex] being within their bounds),
    and [lnprior] returns a finite value for it under the template priors. *)
Theorem nonpositive_line_width_is_within_bounds (dV : R) :
  dV <= 0 ->
  is_within_bounds (with_dV template_initial dV) = true /\
  exists p : R,
    lnprior (with_dV template_initial dV) template_prior_stds template_initial = Fin p.
Proof.
  intros Hd.
  assert (Hb : is_within_bounds (with_dV template_initial dV) = true).
  { apply is_within_bounds_with_dV; [apply template_initial_within_bounds | lra]. }
  split; [exact Hb |].
  rewrite (lnprior_within_bounds _ _ _ Hb).
  unfold with_dV, template_initial, template_prior_stds.
  cbn [v0 v1 v2 v3 v4 v5 v6 v7 v8 v9 v10 v11 v12 v13 NP.mul].
  repeat match goal with
         | |- exists z, (_ + log_gauss _ _ _)%np = Fin z => apply add_finite
         end; apply log_gauss_finite; lra.
Qed.

(** The witness: a line width of -1 km/s. *)
Lemma nonpositive_line_width_witness :
  -1 <= 0 /\
  (is_within_bounds (with_dV template_initial (-1)) = true /\
   exists p : R,
     lnprior (with_dV template_initial (-1)) template_prior_stds template_initial = Fin p).
Proof.
  split; [lra |].
  apply (nonpositive_line_width_is_within_bounds (-1)). lra.
Defined.

(** ** Noise of a window without outliers *)

(** When the masking loops of the first cycle change nothing, the three cycles
    return the statistics of the whole window. *)
Lemma calc_noise_std_stable (window : list npfloat) (threshold : npfloat) :
  mask_around
    (mask_around window (low_outliers window (nanmean window) (nanstd window) threshold))
    (high_outliers window (nanmean window) (nanstd window) threshold) = window ->
  calc_noise_std window threshold = (nanmean window, nanstd window).
Proof.
  intros H. unfold calc_noise_std.
  assert (E : clip_cycle window threshold (window, nanmean window, nanstd window)
              = (window, nanmean window, nanstd window)).
  { unfold clip_cycle. rewrite H. reflexivity. }
  rewrite !E. reflexivity.
Qed.

Lemma nanmean_single (x : R) : nanmean [Fin x] = Fin x.
Proof.
  unfold nanmean. np_eval. cbn [INR]. np_eval. f_equal. lra.
Qed.

Lemma nanstd_single (x : R) : nanstd [Fin x] = Fin 0.
Proof.
  unfold nanstd. rewrite nanmean_single. np_eval. cbn [INR]. np_eval.
  f_equal. replace ((0 + (x + - x) * (x + - x)) / 1) with 0 by lra. apply sqrt_0.
Qed.

(** A window of one channel has a noise standard deviation of zero. *)
Lemma calc_noise_std_single (x threshold : R) :
  calc_noise_std [Fin x] (Fin threshold) = (Fin x, Fin 0).
Proof.
  rewrite calc_noise_std_stable; rewrite nanmean_single, nanstd_single; [reflexivity |].
  unfold low_outliers, high_outliers. np_eval. reflexivity.
Qed.

(** ** The slice written around an outlier *)

Lemma fill_from_empty (pos lo hi : nat) (v : npfloat) (a : list npfloat) :
  (hi <= lo)%nat -> fill_from pos lo hi v a = a.
Proof.
  intros H. revert pos. induction a as [| x a IH]; intros pos; cbn [fill_from];
    [reflexivity |].
  rewrite IH. f_equal.
  destruct (lo <=? pos)%nat eqn:E1, (pos <? hi)%nat eqn:E2; cbn; try reflexivity.
  apply Nat.leb_le in E1. apply Nat.ltb_lt in E2. lia.
Qed.

Lemma nth_fill_from (pos lo hi : nat) (v d : npfloat) (a : list npfloat) (j : nat) :
  (j < length a)%nat ->
  nth j (fill_from pos lo hi v a) d
  = if ((lo <=? pos + j) && (pos + j <? hi))%nat then v else nth j a d.
Proof.
  revert pos j. induction a as [| x a IH]; intros pos j Hj; cbn in Hj; [lia |].
  destruct j as [| j]; cbn [fill_from nth].
  - rewrite Nat.add_0_r. reflexivity.
  - rewrite IH by lia. replace (S pos + j)%nat with (pos + S j)%nat by lia. reflexivity.
Qed.

(** In a window of 20 channels or more, the slice [chan-10:chan+10] of an
    outlier among the first ten channels has a negative start, which counts
    from the end of the window: the slice is empty and nothing is masked. *)
Lemma set_slice_early_channel (noise : list npfloat) (chan : nat) (v : npfloat) :
  (20 <= length noise)%nat -> (chan < 10)%nat ->
  set_slice noise (Z.of_nat chan - 10) (Z.of_nat chan + 10) v = noise.
Proof.
  intros Hn Hc. unfold set_slice. apply fill_from_empty. unfold slice_index.
  destruct (Z.of_nat chan - 10 <? 0)%Z eqn:E1; [| apply Z.ltb_ge in E1; lia].
  destruct (Z.of_nat chan + 10 <? 0)%Z eqn:E2; [apply Z.ltb_lt in E2; lia |].
  lia.
Qed.

(** From channel 10 on, the slice masks the channels [chan-10] to [chan+9]:
    ten below the outlier, nine above. *)
Lemma set_slice_later_channel (noise : list npfloat) (chan j : nat) :
  (10 <= chan)%nat -> (j < length noise)%nat ->
  nth j (set_slice noise (Z.of_nat chan - 10) (Z.of_nat chan + 10) NaN) (Fin 0)
  = if ((chan - 10 <=? j) && (j <? chan + 10))%nat then NaN else nth j noise (Fin 0).
Proof.
  intros Hc Hj. unfold set_slice. rewrite nth_fill_from by exact Hj.
  cbn [Nat.add]. unfold slice_index.
  destruct (Z.of_nat chan - 10 <? 0)%Z eqn:E1; [apply Z.ltb_lt in E1; lia |].
  destruct (Z.of_nat chan + 10 <? 0)%Z eqn:E2; [apply Z.ltb_lt in E2; lia |].
  destruct (chan - 10 <=? j)%nat eqn:A1, (j <? chan + 10)%nat eqn:A2;
    destruct (Z.to_nat (Z.min (Z.of_nat chan - 10) (Z.of_nat (length noise))) <=? j)%nat eqn:B1;
    destruct (j <? Z.to_nat (Z.min (Z.of_nat chan + 10) (Z.of_nat (length noise))))%nat eqn:B2;
    cbn [andb]; try reflexivity; exfalso;
    repeat match goal with
           | H : (_ <=? _)%nat = true |- _ => apply Nat.leb_le in H
           | H : (_ <=? _)%nat = false |- _ => apply Nat.leb_gt in H
           | H : (_ <? _)%nat = true |- _ => apply Nat.ltb_lt in H
           | H : (_ <? _)%nat = false |- _ => apply Nat.ltb_ge in H
           end; lia.
Qed.

(** *** An outlier on channel 3 *)

Lemma early_spike_mean : nanmean early_spike = Fin 1.
Proof.
  unfold nanmean, early_spike. np_red. rewrite INR_IZR_INZ.
  change (Z.of_nat 26) with 26%Z. np_eval. f_equal. lra.
Qed.

Lemma early_spike_std : nanstd early_spike = Fin 5.
Proof.
  unfold nanstd. rewrite early_spike_mean. unfold early_spike. np_red.
  rewrite INR_IZR_INZ. change (Z.of_nat 26) with 26%Z. np_eval.
  match goal with |- Fin (sqrt ?e) = _ => replace e with (5 * 5) by lra end.
  rewrite sqrt_square by lra. reflexivity.
Qed.

Lemma early_spike_low_outliers :
  low_outliers early_spike (Fin 1) (Fin 5) default_threshold = [].
Proof. unfold low_outliers, early_spike, default_threshold. np_eval. reflexivity. Qed.

(** Channel 3 deviates from the mean by 25, above 3.5 times the standard
    deviation of 5: it is the one outlier. *)
Lemma early_spike_high_outliers :
  high_outliers early_spike (Fin 1) (Fin 5) default_threshold = [3%nat].
Proof. unfold high_outliers, early_spike, default_threshold. np_eval. reflexivity. Qed.

Lemma early_spike_masked_mean : nanmean early_spike_masked = Fin 0.
Proof.
  unfold nanmean, early_spike_masked. cbn [repeat app not_nan filter NP.isnan negb].
  np_red. rewrite INR_IZR_INZ. change (Z.of_nat 12) with 12%Z. np_eval. f_equal. lra.
Qed.

Lemma early_spike_masked_std : nanstd early_spike_masked = Fin 0.
Proof.
  unfold nanstd. rewrite early_spike_masked_mean. unfold early_spike_masked.
  cbn [repeat app not_nan filter NP.isnan negb].
  np_red. rewrite INR_IZR_INZ. change (Z.of_nat 12) with 12%Z. np_eval.
  match goal with |- Fin (sqrt ?e) = _ => replace e with 0 by lra end.
  rewrite sqrt_0. reflexivity.
Qed.

(** With the neighbourhood of channel 3 masked, the remainder is flat. *)
Lemma spec_calc_noise_std_early_spike :
  spec_calc_noise_std early_spike default_threshold = (Fin 0, Fin 0).
Proof.
  unfold spec_calc_noise_std. rewrite early_spike_mean, early_spike_std.
  assert (C1 : spec_clip_cycle early_spike default_threshold (early_spike, Fin 1, Fin 5)
               = (early_spike_masked, Fin 0, Fin 0)).
  { unfold spec_clip_cycle.
    rewrite early_spike_low_outliers, early_spike_high_outliers.
    cbn [spec_mask_around fold_left].
    change (fill_from 0 (3 - 10) (3 + 11) NaN early_spike) with early_spike_masked.
    rewrite early_spike_masked_mean, early_spike_masked_std. reflexivity. }
  assert (C2 : spec_clip_cycle early_spike default_threshold
                 (early_spike_masked, Fin 0, Fin 0)
               = (early_spike_masked, Fin 0, Fin 0)).
  { unfold spec_clip_cycle.
    assert (L : low_outliers early_spike (Fin 0) (Fin 0) default_threshold = []).
    { unfold low_outliers, early_spike, default_threshold. np_eval. reflexivity. }
    assert (H : high_outliers early_spike (Fin 0) (Fin 0) default_threshold = [3%nat]).
    { unfold high_outliers, early_spike, default_threshold. np_eval. reflexivity. }
    rewrite L, H. cbn [spec_mask_around fold_left].
    change (fill_from 0 (3 - 10) (3 + 11) NaN early_spike_masked) with early_spike_masked.
    rewrite early_spike_masked_mean, early_spike_masked_std. reflexivity. }
  rewrite C1, C2, C2. reflexivity.
Qed.

(** C3 does not hold on the code.  On a flat window of 26 channels with a spike
    on channel 3, the spike is flagged in each of the three cycles and is never
    masked: the slice [3-10:3+10] is empty, and [calc_noise_std] returns the
    statistics of the whole window, mean 1 and standard deviation 5, where the
    masking of ten channels on either side of channel 3 leaves a flat remainder
    of mean 0 and standard deviation 0. *)
Theorem calc_noise_std_early_outlier_unmasked :
  calc_noise_std early_spike default_threshold = (Fin 1, Fin 5) /\
  spec_calc_noise_std early_spike default_threshold = (Fin 0, Fin 0).
Proof.
  split; [| exact spec_calc_noise_std_early_spike].
  rewrite calc_noise_std_stable; rewrite early_spike_mean, early_spike_std;
    [reflexivity |].
  rewrite early_spike_low_outliers, early_spike_high_outliers.
  cbn [mask_around fold_left].
  apply set_slice_early_channel; cbn; lia.
Qed.

(** ** The velocity window *)

Lemma where_from_In (mask : list bool) (start k : nat) :
  In k (where_from start mask) <->
  (start <= k)%nat /\ nth_error mask (k - start) = Some true.
Proof.
  revert start. induction mask as [| b mask IH]; intros start; cbn [where_from].
  - split; [intros [] | intros [_ H]]. destruct (k - start)%nat; discriminate.
  - assert (Hrest : In k (where_from (S start) mask) <->
                    (start < k)%nat /\ nth_error (b :: mask) (k - start) = Some true).
    { rewrite IH. split; intros [Hle Hn]; (split; [lia |]).
      - replace (k - start)%nat with (S (k - S start)) by lia. exact Hn.
      - replace (k - start)%nat with (S (k - S start)) in Hn by lia. exact Hn. }
    destruct b; cbn [In]; rewrite Hrest.
    + split.
      * intros [<- | [Hlt Hn]]; [| split; [lia | exact Hn]].
        split; [lia |]. rewrite Nat.sub_diag. reflexivity.
      * intros [Hle Hn]. destruct (Nat.eq_dec start k) as [-> | Hne]; [left; reflexivity |].
        right. split; [lia | exact Hn].
    + split.
      * intros [Hlt Hn]. split; [lia | exact Hn].
      * intros [Hle Hn]. split; [| exact Hn].
        destruct (Nat.eq_dec start k) as [-> | Hne]; [| lia].
        rewrite Nat.sub_diag in Hn. discriminate.
Qed.

Lemma np_where_In (mask : list bool) (k : nat) :
  In k (np_where mask) <-> nth_error mask k = Some true.
Proof.
  unfold np_where. rewrite where_from_In, Nat.sub_0_r. split; [tauto | intros H; split; [lia | exact H]].
Qed.

Lemma window_locs_In (freqs : list npfloat) (rf shift : npfloat) (k : nat) :
  In k (window_locs freqs rf shift) <->
  exists f, nth_error freqs k = Some f /\ in_window (velocity rf shift f) = true.
Proof.
  unfold window_locs. rewrite np_where_In, map_map, nth_error_map.
  destruct (nth_error freqs k) as [f |]; cbn [option_map].
  - split.
    + intros H. exists f. split; [reflexivity | congruence].
    + intros (f' & Hf & Hw). congruence.
  - split; [discriminate | intros (f' & Hf & _); discriminate].
Qed.

Lemma in_window_bounds (vel : npfloat) :
  in_window vel = true <-> np_lt 5.3 vel /\ np_lt vel 6.3.
Proof.
  unfold in_window, np_lt, NP.gtb. rewrite andb_true_iff.
  replace (- 0.3 + 5.6)%np with (Fin 5.3) by (cbn; f_equal; lra).
  replace (0.3 + 6)%np with (Fin 6.3) by (cbn; f_equal; lra).
  tauto.
Qed.

(** C2, as the code has it: for a rest frequency [rf], the selected channels
    are exactly those whose velocity [(rf - f)/rf*300000 + shift] lies strictly
    between 5.3 and 6.3 km/s, that is, in the interval [5.6, 6.0] widened by
    (-0.3, +0.3). *)
Theorem window_locs_exactly_5_3_to_6_3 (freqs : list npfloat) (rf shift : npfloat) (k : nat) :
  In k (window_locs freqs rf shift) <->
  exists f, nth_error freqs k = Some f /\
            np_lt 5.3 (velocity rf shift f) /\ np_lt (velocity rf shift f) 6.3.
Proof.
  rewrite window_locs_In. split; intros (f & Hf & H); exists f; (split; [exact Hf |]);
    apply in_window_bounds; exact H.
Qed.

(** C2 fails as stated: with a rest frequency of 300000 MHz and no shift, the
    channel at 299993.5 MHz has a velocity of 6.5 km/s, inside the window
    (5.6 - 0.3, 6.3 + 0.3), and it is not selected. *)
Lemma window_upper_end_counterexample :
  spec_window (velocity 300000 0 299993.5) = true /\
  ~ In 0%nat (window_locs [Fin 299993.5] 300000 0).
Proof.
  split.
  - unfold spec_window, velocity. np_eval. reflexivity.
  - unfold window_locs, velocity, in_window. np_eval. intros [].
Qed.

(** ** Arrays: positions written and positions kept *)

Lemma set_at_length (k : nat) (v : npfloat) (a : list npfloat) :
  length (set_at k v a) = length a.
Proof.
  revert k. induction a as [| x a IH]; intros [| k]; cbn; auto.
Qed.

Lemma nth_set_at (k j : nat) (v d : npfloat) (a : list npfloat) :
  (k < length a)%nat ->
  nth j (set_at k v a) d = if (j =? k)%nat then v else nth j a d.
Proof.
  revert k j. induction a as [| x a IH]; intros k j Hk; cbn in Hk; [lia |].
  destruct k as [| k], j as [| j]; cbn; try reflexivity.
  apply IH. lia.
Qed.

Lemma scatter_length (a : list npfloat) (locs : list nat) (vals : list npfloat) :
  length (scatter a locs vals) = length a.
Proof.
  revert a vals. induction locs as [| k locs IH]; intros a [| v vals]; cbn; auto.
  rewrite IH. apply set_at_length.
Qed.

(** Writing [h k] at every position [k] of [locs]. *)
Lemma nth_scatter_map (h : nat -> npfloat) (locs : list nat) (a : list npfloat)
    (j : nat) (d : npfloat) :
  (forall k, In k locs -> (k < length a)%nat) ->
  nth j (scatter a locs (map h locs)) d
  = if existsb (Nat.eqb j) locs then h j else nth j a d.
Proof.
  revert a. induction locs as [| k locs IH]; intros a Hin; cbn [scatter map existsb].
  - reflexivity.
  - rewrite IH.
    + destruct (existsb (Nat.eqb j) locs) eqn:E.
      * rewrite orb_true_r. reflexivity.
      * rewrite orb_false_r. rewrite nth_set_at by (apply Hin; left; reflexivity).
        destruct (j =? k)%nat eqn:Ejk; [| reflexivity].
        apply Nat.eqb_eq in Ejk. subst j. reflexivity.
    + intros k' Hk'. rewrite set_at_length. apply Hin. right. exact Hk'.
Qed.

Lemma existsb_eqb_In (j : nat) (locs : list nat) :
  existsb (Nat.eqb j) locs = true <-> In j locs.
Proof.
  rewrite existsb_exists. split.
  - intros (x & Hx & E). apply Nat.eqb_eq in E. subst. exact Hx.
  - intros H. exists j. split; [exact H | apply Nat.eqb_refl].
Qed.

Lemma gather_as_map (a : list npfloat) (locs : list nat) :
  gather a locs = map (fun k => nth k a NaN) locs.
Proof. reflexivity. Qed.

Lemma window_locs_in_range (freqs : list npfloat) (rf shift : npfloat) (k : nat) :
  In k (window_locs freqs rf shift) -> (k < length freqs)%nat.
Proof.
  intros H. apply window_locs_In in H. destruct H as (f & Hf & _).
  apply nth_error_Some. congruence.
Qed.

(** [a[mask]] lists the entries of [a] at the positions where [mask] holds. *)
Lemma compress_where_from (mask : list bool) (a : list npfloat) (start : nat) :
  length mask = length a ->
  compress mask a = map (fun k => nth (k - start) a NaN) (where_from start mask).
Proof.
  revert a start. induction mask as [| b mask IH]; intros [| x a] start Hlen;
    cbn in Hlen; try discriminate; cbn [compress where_from]; [reflexivity |].
  assert (Htail : compress mask a
                  = map (fun k => nth (k - start) (x :: a) NaN) (where_from (S start) mask)).
  { rewrite (IH a (S start)) by lia. apply map_ext_in. intros k Hk.
    apply where_from_In in Hk. destruct Hk as [Hle _].
    replace (k - start)%nat with (S (k - S start)) by lia. reflexivity. }
  destruct b; cbn [map]; rewrite Htail; [| reflexivity].
  rewrite Nat.sub_diag. reflexivity.
Qed.

Lemma compress_gather (mask : list bool) (a : list npfloat) :
  length mask = length a -> compress mask a = gather a (np_where mask).
Proof.
  intros H. unfold np_where, gather. rewrite (compress_where_from mask a 0 H).
  apply map_ext. intros k. rewrite Nat.sub_0_r. reflexivity.
Qed.

(** ** One line of [read_file] *)

Lemma max_nonempty (a : list npfloat) : a <> [] -> exists top, NP.max a = Some top.
Proof. destruct a; [congruence | intros _; eexists; reflexivity]. Qed.

Lemma gather_nil_iff (a : list npfloat) (locs : list nat) : gather a locs = [] <-> locs = [].
Proof. unfold gather. destruct locs; cbn; split; congruence. Qed.

Lemma significant_test (int_sim : list npfloat) (i : nat) (sim_i peak : npfloat) :
  nth_error int_sim i = Some sim_i -> NP.max int_sim = Some peak ->
  (significant int_sim i <-> (sim_i >? thresh * peak)%np = true).
Proof.
  intros Hn Hm. unfold significant, np_lt, NP.gtb, thresh. split.
  - intros (s & p & Hs & Hp & H). congruence.
  - intros H. exists sim_i, peak. auto.
Qed.

(** The loop body either stores the window of an accepted line or leaves the
    accumulators as they are. *)
Lemma read_line_cases (freqs intensity int_sim : list npfloat) (shift : npfloat)
    (block : bool) (st st' : windows) (i : nat) (rf : npfloat) :
  read_line freqs intensity int_sim shift block st i rf = Some st' ->
  (accepted freqs intensity int_sim shift block i rf /\
   st' = store_window freqs intensity shift st i rf) \/
  (~ accepted freqs intensity int_sim shift block i rf /\ st' = st).
Proof.
  unfold read_line, accepted.
  destruct (nth_error int_sim i) as [sim_i |] eqn:Hn; [| discriminate].
  destruct (NP.max int_sim) as [peak |] eqn:Hm; [| discriminate].
  pose proof (significant_test int_sim i sim_i peak Hn Hm) as Hsig.
  destruct (sim_i >? thresh * peak)%np eqn:Hs.
  2:{ intros [= <-]. right. split; [| reflexivity]. intros [H _].
      apply Hsig in H. discriminate. }
  destruct (window_locs freqs rf shift) as [| k0 locs] eqn:Hl.
  { cbn. intros [= <-]. right. split; [| reflexivity]. intros (_ & H & _). congruence. }
  cbn [length Nat.eqb negb].
  destruct (calc_noise_std (gather intensity (k0 :: locs)) default_threshold)
    as [noise_mean noise_std] eqn:Hc.
  unfold is_interloper.
  destruct (NP.max (gather intensity (k0 :: locs))) as [top |] eqn:Ht; [| discriminate].
  rewrite Hc. cbn [snd].
  destruct block; cbn [andb].
  - destruct (top >? 6 * noise_std)%np eqn:Hi.
    + intros [= <-]. right. split; [| reflexivity]. intros (_ & _ & H).
      specialize (H eq_refl). discriminate.
    + intros [= <-]. left. split.
      * split; [apply Hsig; reflexivity | split; [discriminate | reflexivity]].
      * unfold store_window, window_noise. rewrite Hl, Hc. reflexivity.
  - intros [= <-]. left. split.
    + split; [apply Hsig; reflexivity | split; [discriminate | discriminate]].
    + unfold store_window, window_noise. rewrite Hl, Hc. reflexivity.
Qed.

(** The loop body raises only on a missing [int_sim[i]] or an empty [int_sim]. *)
Lemma read_line_defined (freqs intensity int_sim : list npfloat) (shift : npfloat)
    (block : bool) (st : windows) (i : nat) (rf : npfloat) :
  (i < length int_sim)%nat ->
  exists st', read_line freqs intensity int_sim shift block st i rf = Some st'.
Proof.
  intros Hi. unfold read_line.
  destruct (nth_error int_sim i) as [sim_i |] eqn:Hn.
  2:{ apply nth_error_None in Hn. lia. }
  destruct int_sim as [| x rest]; [cbn in Hi; lia |]. cbn [NP.max].
  destruct (sim_i >? thresh * fold_left NP.max2 rest x)%np; [| eexists; reflexivity].
  destruct (window_locs freqs rf shift) as [| k0 locs]; [eexists; reflexivity |].
  cbn [length Nat.eqb negb].
  destruct (calc_noise_std (gather intensity (k0 :: locs)) default_threshold).
  cbn [gather map NP.max].
  match goal with |- context [if ?b then _ else _] => destruct b end; eexists; reflexivity.
Qed.

Lemma read_line_accepted (freqs intensity int_sim : list npfloat) (shift : npfloat)
    (block : bool) (st : windows) (i : nat) (rf : npfloat) :
  accepted freqs intensity int_sim shift block i rf ->
  read_line freqs intensity int_sim shift block st i rf
  = Some (store_window freqs intensity shift st i rf).
Proof.
  intros Hacc.
  destruct (read_line_defined freqs intensity int_sim shift block st i rf) as [st' Hst'].
  { destruct Hacc as ((s & p & Hs & _) & _). apply nth_error_Some. congruence. }
  rewrite Hst'. apply read_line_cases in Hst'.
  destruct Hst' as [[_ ->] | [Hrej _]]; [reflexivity | contradiction].
Qed.

Lemma single_line_significant : significant [Fin 1] 0.
Proof. exists (Fin 1), (Fin 1). unfold np_lt. np_eval. repeat split. Qed.

(** ** The loop of [read_file] *)

Lemma store_window_nth (freqs intensity : list npfloat) (shift : npfloat)
    (st : windows) (i : nat) (rf : npfloat) (k : nat) :
  length (relevant_freqs st) = length freqs ->
  length (relevant_intensity st) = length freqs ->
  length (relevant_yerrs st) = length freqs ->
  let st' := store_window freqs intensity shift st i rf in
  let hit := existsb (Nat.eqb k) (window_locs freqs rf shift) in
  nth k (relevant_freqs st') NaN
  = (if hit then nth k freqs NaN else nth k (relevant_freqs st) NaN) /\
  nth k (relevant_intensity st') NaN
  = (if hit then nth k intensity NaN else nth k (relevant_intensity st) NaN) /\
  nth k (relevant_yerrs st') NaN
  = (if hit then yerr_of (window_noise freqs intensity rf shift) (nth k intensity NaN)
     else nth k (relevant_yerrs st) NaN).
Proof.
  intros H1 H2 H3. cbv zeta. unfold store_window. cbn [relevant_freqs relevant_intensity relevant_yerrs].
  rewrite !gather_as_map, map_map.
  assert (Hr : forall a : list npfloat, length a = length freqs ->
                 forall k', In k' (window_locs freqs rf shift) -> (k' < length a)%nat).
  { intros a Ha k' Hk'. rewrite Ha. eapply window_locs_in_range. exact Hk'. }
  rewrite (nth_scatter_map (fun k => nth k freqs NaN)) by (apply Hr; exact H1).
  rewrite (nth_scatter_map (fun k => nth k intensity NaN)) by (apply Hr; exact H2).
  rewrite (nth_scatter_map
             (fun k => NP.sqrt (NP.pow2 (window_noise freqs intensity rf shift)
                                + NP.pow2 (nth k intensity NaN * 0.1))%np))
    by (apply Hr; exact H3).
  repeat split.
Qed.

Lemma loop_inv_step (freqs intensity int_sim restfreqs : list npfloat) (shift : npfloat)
    (block : bool) (done : nat) (st st' : windows) (rf : npfloat) :
  nth_error restfreqs done = Some rf ->
  loop_inv freqs intensity int_sim restfreqs shift block done st ->
  read_line freqs intensity int_sim shift block st done rf = Some st' ->
  loop_inv freqs intensity int_sim restfreqs shift block (S done) st'.
Proof.
  intros Hrf (L1 & L2 & L3 & Hcov & Hch) Hstep.
  apply read_line_cases in Hstep. destruct Hstep as [[Hacc ->] | [Hrej ->]].
  - (* the window is stored *)
    unfold loop_inv. unfold store_window at 1 2 3 4.
    cbn [relevant_freqs relevant_intensity relevant_yerrs covered_trans].
    rewrite !scatter_length.
    split; [exact L1 | split; [exact L2 | split; [exact L3 | split]]].
    + intros i. split.
      * intros Hin. apply in_app_or in Hin. destruct Hin as [Hin | [<- | []]].
        -- apply Hcov in Hin. destruct Hin as [Hlt Hex]. split; [lia | exact Hex].
        -- split; [lia |]. exists rf. split; assumption.
      * intros [Hlt Hex]. apply in_or_app.
        destruct (Nat.eq_dec i done) as [-> | Hne]; [right; left; reflexivity |].
        left. apply Hcov. split; [lia | exact Hex].
    + intros k Hk.
      destruct (store_window_nth freqs intensity shift st done rf k L1 L2 L3)
        as (E1 & E2 & E3).
      unfold channel_state. rewrite E1, E2, E3.
      cbn [covered_trans store_window].
      destruct (existsb (Nat.eqb k) (window_locs freqs rf shift)) eqn:Ehit.
      * right. exists done, rf. apply existsb_eqb_In in Ehit.
        split; [apply in_or_app; right; left; reflexivity |].
        split; [exact Hrf | split; [exact Ehit |]].
        split; [reflexivity | split; reflexivity].
      * assert (Hout : ~ In k (window_locs freqs rf shift)).
        { intros Hin. apply existsb_eqb_In in Hin. congruence. }
        destruct (Hch k Hk) as [(Z1 & Z2 & Z3 & Hnc) | (j & rfj & Hj & Hnj & Hw & V)].
        -- left. split; [exact Z1 | split; [exact Z2 | split; [exact Z3 |]]].
           intros (j & rfj & Hj & Hnj & Hw). apply in_app_or in Hj.
           destruct Hj as [Hj | [<- | []]].
           ++ apply Hnc. exists j, rfj. auto.
           ++ rewrite Hrf in Hnj. injection Hnj as <-. contradiction.
        -- right. exists j, rfj.
           split; [apply in_or_app; left; exact Hj |].
           split; [exact Hnj | split; [exact Hw | exact V]].
  - (* the line is skipped *)
    unfold loop_inv.
    split; [exact L1 | split; [exact L2 | split; [exact L3 | split; [| exact Hch]]]].
    intros i. split.
    + intros Hin. apply Hcov in Hin. destruct Hin as [Hlt Hex]. split; [lia | exact Hex].
    + intros [Hlt Hex]. apply Hcov. split; [| exact Hex].
      destruct (Nat.eq_dec i done) as [-> | Hne]; [| lia].
      destruct Hex as (rf' & Hrf' & Hacc). rewrite Hrf in Hrf'. injection Hrf' as <-.
      contradiction.
Qed.

Lemma read_lines_inv (freqs intensity int_sim restfreqs : list npfloat) (shift : npfloat)
    (block : bool) (rest : list npfloat) (done : nat) (st st' : windows) :
  skipn done restfreqs = rest ->
  loop_inv freqs intensity int_sim restfreqs shift block done st ->
  read_lines freqs intensity int_sim shift block done rest st = Some st' ->
  loop_inv freqs intensity int_sim restfreqs shift block (length restfreqs) st'.
Proof.
  revert done st. induction rest as [| rf rest IH]; intros done st Hskip Hinv Hrun.
  - cbn in Hrun. injection Hrun as <-.
    assert (Hlen : (length restfreqs <= done)%nat).
    { apply (f_equal (@length npfloat)) in Hskip. rewrite length_skipn in Hskip.
      cbn in Hskip. lia. }
    destruct Hinv as (L1 & L2 & L3 & Hcov & Hch).
    split; [exact L1 | split; [exact L2 | split; [exact L3 | split; [| exact Hch]]]].
    intros i. split.
    + intros Hin. apply Hcov in Hin. destruct Hin as (_ & rf & Hrf & Hacc).
      split; [apply nth_error_Some; congruence | exists rf; split; assumption].
    + intros [_ Hex]. apply Hcov. split; [| exact Hex].
      destruct Hex as (rf & Hrf & _).
      assert (i < length restfreqs)%nat by (apply nth_error_Some; congruence). lia.
  - cbn [read_lines] in Hrun.
    destruct (read_line freqs intensity int_sim shift block st done rf) as [st1 |] eqn:Hstep;
      [| discriminate].
    assert (Hrf : nth_error restfreqs done = Some rf).
    { rewrite <- (firstn_skipn done restfreqs) at 1. rewrite Hskip.
      assert (Hd : (done < length restfreqs)%nat).
      { apply (f_equal (@length npfloat)) in Hskip. rewrite length_skipn in Hskip.
        cbn in Hskip. lia. }
      rewrite nth_error_app2 by (rewrite length_firstn; lia).
      rewrite length_firstn. replace (done - Nat.min done (length restfreqs))%nat with 0%nat by lia.
      reflexivity. }
    apply (IH (S done) st1).
    + replace (S done) with (1 + done)%nat by lia. rewrite <- skipn_skipn, Hskip. reflexivity.
    + eapply loop_inv_step; eassumption.
    + exact Hrun.
Qed.

Lemma nth_zeros (n k : nat) : (k < n)%nat -> nth k (zeros n) NaN = Fin 0.
Proof.
  unfold zeros. intros H. apply nth_repeat_lt. exact H.
Qed.

Lemma zeros_length (n : nat) : length (zeros n) = n.
Proof. apply repeat_length. Qed.

Lemma loop_inv_init (freqs intensity int_sim restfreqs : list npfloat) (shift : npfloat)
    (block : bool) :
  length freqs = length intensity ->
  loop_inv freqs intensity int_sim restfreqs shift block 0
    {| relevant_freqs := zeros (length freqs);
       relevant_intensity := zeros (length intensity);
       relevant_yerrs := zeros (length freqs);
       covered_trans := [] |}.
Proof.
  intros Hlen. unfold loop_inv.
  cbn [relevant_freqs relevant_intensity relevant_yerrs covered_trans].
  rewrite !zeros_length.
  split; [reflexivity | split; [symmetry; exact Hlen | split; [reflexivity | split]]].
  - intros i. split; [intros [] | intros [H _]; lia].
  - intros k Hk. left.
    cbn [relevant_freqs relevant_intensity relevant_yerrs covered_trans].
    rewrite !nth_zeros by lia.
    split; [reflexivity | split; [reflexivity | split; [reflexivity |]]].
    intros (i & rf & [] & _).
Qed.

(** A run of [read_file] that returns has gone through the loop with rows of
    one length, and returns the accumulators at the positions of positive
    stored frequency. *)
Lemma read_file_unfold (data0 data1 restfreqs int_sim : list npfloat) (shift : npfloat)
    (GHz block : bool) (fs ints ys : list npfloat) (cov : list nat) :
  read_file data0 data1 restfreqs int_sim shift GHz block = Some (fs, ints, ys, cov) ->
  let freqs := scaled_freqs data0 GHz in
  exists st,
    length freqs = length data1 /\
    loop_inv freqs data1 int_sim restfreqs shift block (length restfreqs) st /\
    cov = covered_trans st /\
    let kept := np_where (map (fun f => (f >? 0)%np) (relevant_freqs st)) in
    fs = gather (relevant_freqs st) kept /\
    ints = gather (relevant_intensity st) kept /\
    ys = gather (relevant_yerrs st) kept.
Proof.
  unfold read_file. cbv zeta.
  destruct (length (scaled_freqs data0 GHz) =? length data1)%nat eqn:Hlen;
    cbn [negb]; [| discriminate].
  apply Nat.eqb_eq in Hlen.
  destruct (read_lines (scaled_freqs data0 GHz) data1 int_sim shift block 0 restfreqs _)
    as [st |] eqn:Hrun; [| discriminate].
  intros [= <- <- <- <-]. exists st.
  assert (Hinv : loop_inv (scaled_freqs data0 GHz) data1 int_sim restfreqs shift block
                   (length restfreqs) st).
  { eapply read_lines_inv; [| | exact Hrun]; [reflexivity |].
    apply loop_inv_init. exact Hlen. }
  pose proof Hinv as (L1 & L2 & L3 & _).
  split; [exact Hlen |]. split; [exact Hinv |]. split; [reflexivity |].
  split; [| split]; apply compress_gather; rewrite length_map; congruence.
Qed.

Lemma Forall2_map_self {A B : Type} (P : A -> B -> Prop) (f : A -> B) (l : list A) :
  (forall x, In x l -> P x (f x)) -> Forall2 P l (map f l).
Proof.
  induction l as [| x l IH]; intros H; cbn; constructor.
  - apply H. left. reflexivity.
  - apply IH. intros y Hy. apply H. right. exact Hy.
Qed.

Lemma nth_error_nth_NaN (a : list npfloat) (k : nat) (x : npfloat) :
  nth_error a k = Some x -> nth k a NaN = x.
Proof. intros H. apply nth_error_nth. exact H. Qed.

(** What [read_file] returns.  [cov] lists the accepted lines; the three arrays
    hold, for the channels [kept] (those of positive frequency inside the
    window of an accepted line), the channel's frequency, its intensity, and
    the uncertainty computed in the window of one accepted line covering it. *)
Lemma read_file_output (data0 data1 restfreqs int_sim : list npfloat) (shift : npfloat)
    (GHz block : bool) (fs ints ys : list npfloat) (cov : list nat) :
  read_file data0 data1 restfreqs int_sim shift GHz block = Some (fs, ints, ys, cov) ->
  let freqs := scaled_freqs data0 GHz in
  exists kept : list nat,
    (forall i, In i cov <->
               exists rf, nth_error restfreqs i = Some rf /\
                          accepted freqs data1 int_sim shift block i rf) /\
    (forall k, In k kept <->
               covered_channel freqs restfreqs shift cov k /\ np_lt 0 (nth k freqs NaN)) /\
    fs = gather freqs kept /\
    ints = gather data1 kept /\
    Forall2 (fun k y =>
               exists i rf,
                 In i cov /\ nth_error restfreqs i = Some rf /\
                 In k (window_locs freqs rf shift) /\
                 y = yerr_of (window_noise freqs data1 rf shift) (nth k data1 NaN))
            kept ys.
Proof.
  intros Hrun. apply read_file_unfold in Hrun. cbv zeta in *.
  set (freqs := scaled_freqs data0 GHz) in *.
  destruct Hrun as (st & Hlen & Hinv & -> & -> & -> & ->).
  destruct Hinv as (L1 & L2 & L3 & Hcov & Hch).
  set (kept := np_where (map (fun f => (f >? 0)%np) (relevant_freqs st))).
  assert (Hkept : forall k, In k kept ->
            (k < length freqs)%nat /\ np_lt 0 (nth k (relevant_freqs st) NaN)).
  { intros k Hk. unfold kept in Hk. apply np_where_In in Hk.
    rewrite nth_error_map in Hk.
    destruct (nth_error (relevant_freqs st) k) as [x |] eqn:Hx; [| discriminate].
    cbn in Hk. injection Hk as Hk. split.
    - rewrite <- L1. apply nth_error_Some. congruence.
    - rewrite (nth_error_nth_NaN _ _ _ Hx). exact Hk. }
  assert (Hwritten : forall k, In k kept ->
            exists i rf,
              In i (covered_trans st) /\ nth_error restfreqs i = Some rf /\
              In k (window_locs freqs rf shift) /\
              nth k (relevant_freqs st) NaN = nth k freqs NaN /\
              nth k (relevant_intensity st) NaN = nth k data1 NaN /\
              nth k (relevant_yerrs st) NaN
              = yerr_of (window_noise freqs data1 rf shift) (nth k data1 NaN)).
  { intros k Hk. destruct (Hkept k Hk) as [Hlt Hpos].
    destruct (Hch k Hlt) as [(Z & _) | H]; [| exact H].
    rewrite Z in Hpos. unfold np_lt in Hpos. cbn in Hpos.
    rewrite Rltb_false in Hpos by lra. discriminate. }
  exists kept. split; [| split; [| split; [| split]]].
  - intros i. rewrite Hcov. split.
    + intros [_ H]. exact H.
    + intros (rf & Hrf & Hacc). split; [| exists rf; split; assumption].
      apply nth_error_Some. congruence.
  - intros k. split.
    + intros Hk. destruct (Hwritten k Hk) as (i & rf & Hi & Hrf & Hw & E & _).
      split; [exists i, rf; auto |].
      rewrite <- E. apply Hkept. exact Hk.
    + intros [(i & rf & Hi & Hrf & Hw) Hpos].
      assert (Hlt : (k < length freqs)%nat) by (eapply window_locs_in_range; exact Hw).
      destruct (Hch k Hlt) as [(_ & _ & _ & Hnc) | (j & rfj & _ & _ & _ & E & _)].
      * exfalso. apply Hnc. exists i, rf. auto.
      * unfold kept. apply np_where_In. rewrite nth_error_map.
        destruct (nth_error (relevant_freqs st) k) as [x |] eqn:Hx.
        -- cbn. f_equal. rewrite <- (nth_error_nth_NaN _ _ _ Hx), E. exact Hpos.
        -- apply nth_error_None in Hx. lia.
  - unfold gather. apply map_ext_in. intros k Hk.
    destruct (Hwritten k Hk) as (_ & _ & _ & _ & _ & E & _). exact E.
  - unfold gather. apply map_ext_in. intros k Hk.
    destruct (Hwritten k Hk) as (_ & _ & _ & _ & _ & _ & E & _). exact E.
  - unfold gather at 1. apply Forall2_map_self. intros k Hk.
    destruct (Hwritten k Hk) as (i & rf & Hi & Hrf & Hw & _ & _ & E).
    exists i, rf. auto.
Qed.

(** ** [read_file] returns *)

Lemma read_lines_defined (freqs intensity int_sim : list npfloat) (shift : npfloat)
    (block : bool) (rest : list npfloat) (i : nat) (st : windows) :
  (i + length rest <= length int_sim)%nat ->
  exists st', read_lines freqs intensity int_sim shift block i rest st = Some st'.
Proof.
  revert i st. induction rest as [| rf rest IH]; intros i st Hlen; cbn [read_lines].
  - eexists. reflexivity.
  - cbn [length] in Hlen.
    destruct (read_line_defined freqs intensity int_sim shift block st i rf) as [st1 ->];
      [lia |].
    apply IH. lia.
Qed.

(** On two rows of one length, with a simulated intensity for every rest
    frequency, [read_file] returns. *)
Lemma read_file_defined (data0 data1 restfreqs int_sim : list npfloat) (shift : npfloat)
    (GHz block : bool) :
  length data0 = length data1 -> (length restfreqs <= length int_sim)%nat ->
  exists fs ints ys cov,
    read_file data0 data1 restfreqs int_sim shift GHz block = Some (fs, ints, ys, cov).
Proof.
  intros Hlen Hsim. unfold read_file.
  assert (E : length (scaled_freqs data0 GHz) = length data1).
  { unfold scaled_freqs. destruct GHz; [rewrite length_map |]; exact Hlen. }
  rewrite E, Nat.eqb_refl. cbn [negb].
  match goal with
  | |- context [read_lines ?f ?i ?s ?sh ?b 0%nat ?r ?st] =>
      destruct (read_lines_defined f i s sh b r 0%nat st) as [st' ->]; [cbn; lia |]
  end.
  repeat eexists.
Qed.

(** ** A spectrum of one channel of zero intensity *)

Lemma window_locs_one_channel : window_locs [Fin 299994.5] 300000 0 = [0%nat].
Proof. unfold window_locs, velocity, in_window. np_eval. reflexivity. Qed.

Lemma read_line_one_channel (st : windows) :
  read_line [Fin 299994.5] [Fin 0] [Fin 1] 0 true st 0 300000
  = Some (store_window [Fin 299994.5] [Fin 0] 0 st 0%nat 300000).
Proof.
  unfold read_line, store_window, window_noise, thresh, default_threshold.
  rewrite window_locs_one_channel. np_eval. cbn [Nat.eqb]. np_eval.
  rewrite calc_noise_std_single. np_eval. reflexivity.
Qed.

(** The line at 300000 MHz is accepted and its channel is stored with an
    uncertainty of zero. *)
Lemma read_file_one_channel :
  read_file [Fin 299994.5] [Fin 0] [Fin 300000] [Fin 1] 0 false true
  = Some ([Fin 299994.5], [Fin 0], [Fin 0], [0%nat]).
Proof.
  unfold read_file. cbn [scaled_freqs length Nat.eqb negb read_lines zeros repeat].
  rewrite read_line_one_channel.
  unfold store_window, window_noise, default_threshold.
  rewrite window_locs_one_channel. np_eval.
  rewrite calc_noise_std_single.
  cbn [covered_trans relevant_yerrs relevant_freqs relevant_intensity]. np_eval.
  replace (sqrt (0 * 0 + 0 * 0.1 * (0 * 0.1))) with 0.
  2:{ replace (0 * 0 + 0 * 0.1 * (0 * 0.1)) with 0 by lra. symmetry. apply sqrt_0. }
  reflexivity.
Qed.

(** ** A window masked as a whole *)

Lemma spike_grid_window : window_locs spike_grid 300000 0 = seq 0 17.
Proof. unfold window_locs, velocity, in_window, spike_grid. np_eval. reflexivity. Qed.

Lemma late_spike_mean : nanmean late_spike = Fin 1.
Proof.
  unfold nanmean, late_spike. np_red. rewrite INR_IZR_INZ.
  change (Z.of_nat 17) with 17%Z. np_eval. f_equal. lra.
Qed.

Lemma late_spike_std : nanstd late_spike = Fin 4.
Proof.
  unfold nanstd. rewrite late_spike_mean. unfold late_spike. np_red.
  rewrite INR_IZR_INZ. change (Z.of_nat 17) with 17%Z. np_eval.
  match goal with |- Fin (sqrt ?e) = _ => replace e with (4 * 4) by lra end.
  rewrite sqrt_square by lra. reflexivity.
Qed.

Lemma not_nan_all_nan (n : nat) : not_nan (repeat NaN n) = [].
Proof. unfold not_nan. induction n; cbn; auto. Qed.

(** The statistics of a window without any unmasked channel are [nan]. *)
Lemma nanmean_all_nan (n : nat) : nanmean (repeat NaN n) = NaN.
Proof.
  unfold nanmean. rewrite not_nan_all_nan.
  cbn [length NP.sum fold_left INR NP.div]. rewrite Reqb_true by reflexivity.
  unfold NP.scale_inf. rewrite !Rltb_false by lra. reflexivity.
Qed.

Lemma nanstd_all_nan (n : nat) : nanstd (repeat NaN n) = NaN.
Proof.
  unfold nanstd. rewrite not_nan_all_nan.
  cbn [map length NP.sum fold_left INR NP.div]. rewrite Reqb_true by reflexivity.
  unfold NP.scale_inf. rewrite !Rltb_false by lra. reflexivity.
Qed.

(** The spike on channel 10 deviates by 16, above 3.5 times the standard
    deviation of 4; its slice [0:20] covers the 17 channels, and the statistics
    of the empty remainder are [nan] in all three cycles. *)
Lemma late_spike_noise : calc_noise_std late_spike default_threshold = (NaN, NaN).
Proof.
  unfold calc_noise_std. rewrite late_spike_mean, late_spike_std.
  assert (C1 : clip_cycle late_spike default_threshold (late_spike, Fin 1, Fin 4)
               = (repeat NaN 17, NaN, NaN)).
  { unfold clip_cycle.
    assert (L : low_outliers late_spike (Fin 1) (Fin 4) default_threshold = []).
    { unfold low_outliers, late_spike, default_threshold. np_eval. reflexivity. }
    assert (H : high_outliers late_spike (Fin 1) (Fin 4) default_threshold = [10%nat]).
    { unfold high_outliers, late_spike, default_threshold. np_eval. reflexivity. }
    rewrite L, H. cbn [mask_around fold_left].
    change (set_slice late_spike (Z.of_nat 10 - 10) (Z.of_nat 10 + 10) NaN)
      with (repeat NaN 17).
    rewrite nanmean_all_nan, nanstd_all_nan. reflexivity. }
  assert (C2 : clip_cycle late_spike default_threshold (repeat NaN 17, NaN, NaN)
               = (repeat NaN 17, NaN, NaN)).
  { unfold clip_cycle.
    assert (L : low_outliers late_spike NaN NaN default_threshold = []).
    { unfold low_outliers, late_spike, default_threshold. np_eval. reflexivity. }
    assert (H : high_outliers late_spike NaN NaN default_threshold = []).
    { unfold high_outliers, late_spike, default_threshold. np_eval. reflexivity. }
    rewrite L, H. cbn [mask_around fold_left].
    rewrite nanmean_all_nan, nanstd_all_nan. reflexivity. }
  rewrite C1, C2, C2. reflexivity.
Qed.

Lemma late_spike_gathered : gather late_spike (seq 0 17) = late_spike.
Proof. reflexivity. Qed.

(** A comparison with a [nan] noise level is false: the window is no
    interloper. *)
Lemma late_spike_not_interloper :
  is_interloper (gather late_spike (window_locs spike_grid 300000 0)) = false.
Proof.
  rewrite spike_grid_window, late_spike_gathered. unfold is_interloper.
  rewrite late_spike_noise. unfold late_spike. np_eval. reflexivity.
Qed.

Lemma read_file_late_spike :
  read_file spike_grid late_spike [Fin 300000] [Fin 1] 0 false true
  = Some (spike_grid, late_spike, repeat NaN 17, [0%nat]).
Proof.
  unfold read_file.
  cbn [scaled_freqs length Nat.eqb negb read_lines spike_grid late_spike].
  fold spike_grid. fold late_spike.
  rewrite read_line_accepted.
  2:{ split; [exact single_line_significant |].
      split; [rewrite spike_grid_window; discriminate |
              intros _; exact late_spike_not_interloper]. }
  unfold store_window, window_noise. rewrite spike_grid_window.
  cbn [covered_trans relevant_yerrs relevant_freqs relevant_intensity].
  rewrite late_spike_gathered, late_spike_noise. cbn [snd].
  unfold spike_grid, late_spike. cbn [seq]. np_eval. reflexivity.
Qed.

(** C4 fails as stated, on both counts.  A channel of intensity zero, alone in
    the window of a significant line, is returned with an uncertainty of zero;
    and a window of 17 channels that a spike on channel 10 gets masked as a
    whole is returned with uncertainties that are all [nan]. *)
Lemma uncertainty_not_positive_counterexample :
  (read_file [Fin 299994.5] [Fin 0] [Fin 300000] [Fin 1] 0 false true
   = Some ([Fin 299994.5], [Fin 0], [Fin 0], [0%nat]) /\
   ~ Forall (np_lt 0) [Fin 0]) /\
  (read_file spike_grid late_spike [Fin 300000] [Fin 1] 0 false true
   = Some (spike_grid, late_spike, repeat NaN 17, [0%nat]) /\
   ~ Forall (np_lt 0) (repeat NaN 17)).
Proof.
  split; (split; [first [exact read_file_one_channel | exact read_file_late_spike] |]).
  - intros H. inversion H as [| y l Hy _]; subst.
    unfold np_lt in Hy. cbn [NP.ltb] in Hy. rewrite Rltb_false in Hy by lra. discriminate.
  - intros H. inversion H as [| y l Hy _]; subst. discriminate.
Qed.

(** ** The returned arrays *)

Lemma yerr_of_valid (noise_std x : npfloat) :
  valid_uncertainty noise_std x (yerr_of noise_std x).
Proof.
  unfold valid_uncertainty, yerr_of.
  destruct x as [xr | | |], noise_std as [s | | |]; np_eval;
    try (left; split; [reflexivity | auto]; fail);
    try (right; left; repeat split; try discriminate; auto; fail).
  rewrite (Rltb_false (s * s + xr * 0.1 * (xr * 0.1)) 0) by nra.
  right. right. exists s, xr. eexists.
  split; [reflexivity | split; [reflexivity | split; [reflexivity |]]].
  split.
  - replace (0.1 * Rabs xr) with (Rabs (xr * 0.1)).
    2:{ rewrite Rabs_mult, (Rabs_pos_eq 0.1) by lra. lra. }
    rewrite <- (sqrt_Rsqr_abs (xr * 0.1)).
    apply sqrt_le_1_alt. unfold Rsqr. nra.
  - rewrite <- (sqrt_Rsqr_abs s).
    apply sqrt_le_1_alt. unfold Rsqr. nra.
Qed.

(** C4, as the code has it: the three arrays that [read_file] returns have one
    length, and the uncertainty of every returned channel comes from the
    intensity of the channel and the noise estimate of the window of an
    accepted line covering it.  It is [nan] exactly when that noise estimate
    or the intensity is [nan]; otherwise [+inf] exactly when one of the two is
    infinite; otherwise a real number not below a tenth of the absolute
    intensity of its channel: never negative, and positive wherever the
    intensity is not zero. *)
Theorem read_file_arrays_aligned (data0 data1 restfreqs int_sim : list npfloat)
    (shift : npfloat) (GHz block : bool) (fs ints ys : list npfloat) (cov : list nat) :
  read_file data0 data1 restfreqs int_sim shift GHz block = Some (fs, ints, ys, cov) ->
  length fs = length ints /\ length ints = length ys /\
  exists kept : list nat,
    fs = gather (scaled_freqs data0 GHz) kept /\
    ints = gather data1 kept /\
    Forall2 (channel_uncertainty (scaled_freqs data0 GHz) data1 restfreqs shift cov)
            kept ys.
Proof.
  intros Hrun. apply read_file_output in Hrun. cbv zeta in Hrun.
  destruct Hrun as (kept & _ & _ & -> & -> & Hys).
  assert (Hv : Forall2 (channel_uncertainty (scaled_freqs data0 GHz) data1 restfreqs
                          shift cov) kept ys).
  { eapply Forall2_impl; [| exact Hys]. cbn beta.
    intros k y (i & rf & Hi & Hrf & Hk & ->).
    exists i, rf. repeat split; try assumption. apply yerr_of_valid. }
  split; [| split].
  - unfold gather. rewrite !length_map. reflexivity.
  - unfold gather. rewrite length_map. eapply Forall2_length. exact Hv.
  - exists kept. repeat split. exact Hv.
Qed.

(** The witness: the spectrum of one channel. *)
Lemma read_file_arrays_aligned_witness :
  read_file [Fin 299994.5] [Fin 0] [Fin 300000] [Fin 1] 0 false true
  = Some ([Fin 299994.5], [Fin 0], [Fin 0], [0%nat]) /\
  (length [Fin 299994.5] = length [Fin 0] /\ length [Fin 0] = length [Fin 0] /\
   exists kept : list nat,
     [Fin 299994.5] = gather (scaled_freqs [Fin 299994.5] false) kept /\
     [Fin 0] = gather [Fin 0] kept /\
     Forall2 (channel_uncertainty (scaled_freqs [Fin 299994.5] false) [Fin 0]
                [Fin 300000] 0 [0%nat])
             kept [Fin 0]).
Proof.
  split; [exact read_file_one_channel |].
  exact (read_file_arrays_aligned _ _ _ _ _ _ _ _ _ _ _ read_file_one_channel).
Defined.

(** C7: an index is in the returned [covered_trans] only if [int_sim] at this
    index strictly exceeds 5% of [max(int_sim)]; for any other line the loop
    body leaves the accumulators as they are, and every returned channel lies
    in the window of a recorded, hence significant, line. *)
Theorem covered_lines_are_significant (data0 data1 restfreqs int_sim : list npfloat)
    (shift : npfloat) (GHz block : bool) (fs ints ys : list npfloat) (cov : list nat) :
  read_file data0 data1 restfreqs int_sim shift GHz block = Some (fs, ints, ys, cov) ->
  let freqs := scaled_freqs data0 GHz in
  (forall i, In i cov -> significant int_sim i) /\
  (forall i rf st st',
     ~ significant int_sim i ->
     read_line freqs data1 int_sim shift block st i rf = Some st' -> st' = st) /\
  (exists kept,
     fs = gather freqs kept /\ ints = gather data1 kept /\
     forall k, In k kept ->
       exists i rf, In i cov /\ significant int_sim i /\
                    nth_error restfreqs i = Some rf /\
                    In k (window_locs freqs rf shift)).
Proof.
  intros Hrun freqs. apply read_file_output in Hrun. cbv zeta in Hrun. fold freqs in Hrun.
  destruct Hrun as (kept & Hcov & Hkept & Hfs & Hints & _).
  assert (Hsig : forall i, In i cov -> significant int_sim i).
  { intros i Hi. apply Hcov in Hi. destruct Hi as (rf & _ & Hsig & _). exact Hsig. }
  split; [exact Hsig | split].
  - intros i rf st st' Hns Hstep. apply read_line_cases in Hstep.
    destruct Hstep as [[(Hs & _) _] | [_ E]]; [contradiction | exact E].
  - exists kept. split; [exact Hfs | split; [exact Hints |]].
    intros k Hk. apply Hkept in Hk. destruct Hk as [(i & rf & Hi & Hrf & Hw) _].
    exists i, rf. split; [exact Hi | split; [apply Hsig; exact Hi | split; assumption]].
Qed.

(** The witness: the spectrum of one channel, whose only line is recorded. *)
Lemma covered_lines_are_significant_witness :
  read_file [Fin 299994.5] [Fin 0] [Fin 300000] [Fin 1] 0 false true
  = Some ([Fin 299994.5], [Fin 0], [Fin 0], [0%nat]) /\
  (forall i, In i [0%nat] -> significant [Fin 1] i).
Proof.
  split; [exact read_file_one_channel |].
  exact (proj1 (covered_lines_are_significant _ _ _ _ _ _ _ _ _ _ _ read_file_one_channel)).
Defined.

(** ** Interlopers *)

Lemma read_line_blocked (freqs intensity int_sim : list npfloat) (shift : npfloat)
    (st : windows) (i : nat) (rf : npfloat) :
  significant int_sim i ->
  is_interloper (gather intensity (window_locs freqs rf shift)) = true ->
  read_line freqs intensity int_sim shift true st i rf = Some st.
Proof.
  intros Hsig Hint.
  destruct (read_line_defined freqs intensity int_sim shift true st i rf) as [st' Hst'].
  { destruct Hsig as (s & p & Hs & _). apply nth_error_Some. congruence. }
  rewrite Hst'. apply read_line_cases in Hst'.
  destruct Hst' as [[(_ & _ & Hno) _] | [_ ->]]; [| reflexivity].
  specialize (Hno eq_refl). congruence.
Qed.

Lemma read_line_unblocked (freqs intensity int_sim : list npfloat) (shift : npfloat)
    (st : windows) (i : nat) (rf : npfloat) :
  significant int_sim i ->
  window_locs freqs rf shift <> [] ->
  read_line freqs intensity int_sim shift false st i rf
  = Some (store_window freqs intensity shift st i rf).
Proof.
  intros Hsig Hne.
  destruct (read_line_defined freqs intensity int_sim shift false st i rf) as [st' Hst'].
  { destruct Hsig as (s & p & Hs & _). apply nth_error_Some. congruence. }
  rewrite Hst'. apply read_line_cases in Hst'.
  destruct Hst' as [[_ ->] | [Hrej _]]; [reflexivity |].
  exfalso. apply Hrej. split; [exact Hsig | split; [exact Hne | discriminate]].
Qed.

(** C6, as the code has it.  Take a significant line whose window has channels
    and a peak above 6 times its noise standard deviation.  With
    [block_interlopers=True] the loop body leaves the accumulators as they are:
    the index of the line is not in the returned [covered_trans], and a channel
    is returned only where the window of another, recorded line covers it.
    With [block_interlopers=False] the loop body stores the window: the index
    is in the returned [covered_trans] and every channel of the window with a
    positive frequency is returned. *)
Theorem interloper_window_blocked_or_stored (data0 data1 restfreqs int_sim : list npfloat)
    (shift : npfloat) (GHz : bool) (i : nat) (rf : npfloat) :
  let freqs := scaled_freqs data0 GHz in
  nth_error restfreqs i = Some rf ->
  significant int_sim i ->
  window_locs freqs rf shift <> [] ->
  is_interloper (gather data1 (window_locs freqs rf shift)) = true ->
  (forall st, read_line freqs data1 int_sim shift true st i rf = Some st) /\
  (forall fs ints ys cov,
     read_file data0 data1 restfreqs int_sim shift GHz true = Some (fs, ints, ys, cov) ->
     ~ In i cov /\
     exists kept,
       fs = gather freqs kept /\ ints = gather data1 kept /\ length ys = length kept /\
       forall k, In k kept ->
         exists j rfj, j <> i /\ In j cov /\ nth_error restfreqs j = Some rfj /\
                       In k (window_locs freqs rfj shift)) /\
  (forall st, read_line freqs data1 int_sim shift false st i rf
              = Some (store_window freqs data1 shift st i rf)) /\
  (forall fs ints ys cov,
     read_file data0 data1 restfreqs int_sim shift GHz false = Some (fs, ints, ys, cov) ->
     In i cov /\
     exists kept,
       fs = gather freqs kept /\ ints = gather data1 kept /\ length ys = length kept /\
       forall k, In k (window_locs freqs rf shift) -> np_lt 0 (nth k freqs NaN) ->
                 In k kept).
Proof.
  intros freqs Hrf Hsig Hne Hint.
  split; [| split; [| split]].
  - intros st. apply read_line_blocked; assumption.
  - intros fs ints ys cov Hrun. apply read_file_output in Hrun. cbv zeta in Hrun.
    fold freqs in Hrun. destruct Hrun as (kept & Hcov & Hkept & Hfs & Hints & Hys).
    assert (Hout : ~ In i cov).
    { intros Hi. apply Hcov in Hi. destruct Hi as (rf' & Hrf' & _ & _ & Hno).
      rewrite Hrf in Hrf'. injection Hrf' as <-. specialize (Hno eq_refl). congruence. }
    split; [exact Hout |]. exists kept.
    split; [exact Hfs | split; [exact Hints | split]].
    + symmetry. eapply Forall2_length. exact Hys.
    + intros k Hk. apply Hkept in Hk. destruct Hk as [(j & rfj & Hj & Hrfj & Hw) _].
      exists j, rfj. split; [| auto]. intros ->. contradiction.
  - intros st. apply read_line_unblocked; assumption.
  - intros fs ints ys cov Hrun. apply read_file_output in Hrun. cbv zeta in Hrun.
    fold freqs in Hrun. destruct Hrun as (kept & Hcov & Hkept & Hfs & Hints & Hys).
    assert (Hin : In i cov).
    { apply Hcov. exists rf. split; [exact Hrf |].
      split; [exact Hsig | split; [exact Hne | discriminate]]. }
    split; [exact Hin |]. exists kept.
    split; [exact Hfs | split; [exact Hints | split]].
    + symmetry. eapply Forall2_length. exact Hys.
    + intros k Hk Hpos. apply Hkept. split; [| exact Hpos].
      exists i, rf. auto.
Qed.

(** *** Two overlapping windows *)

Lemma INR_2 : INR 2 = 2.
Proof. cbn. lra. Qed.

(** The noise of a window of two channels: no channel is an outlier, and the
    standard deviation is half the difference of the two intensities. *)
Lemma calc_noise_std_pair (a b : R) :
  b <= a ->
  calc_noise_std [Fin a; Fin b] default_threshold
  = (Fin ((a + b) / 2), Fin ((a - b) / 2)).
Proof.
  intros Hab.
  assert (Hm : nanmean [Fin a; Fin b] = Fin ((a + b) / 2)).
  { unfold nanmean. np_red. rewrite INR_2. np_eval. f_equal. lra. }
  assert (Hs : nanstd [Fin a; Fin b] = Fin ((a - b) / 2)).
  { unfold nanstd. rewrite Hm. np_red. rewrite INR_2. np_eval.
    assert (E : (0 + (a + - ((a + b) / 2)) * (a + - ((a + b) / 2))
                 + (b + - ((a + b) / 2)) * (b + - ((a + b) / 2))) / 2
                = ((a - b) / 2) * ((a - b) / 2)) by lra.
    rewrite E. rewrite (Rltb_false _ 0) by nra. f_equal. apply sqrt_square. lra. }
  rewrite calc_noise_std_stable; rewrite Hm, Hs; [reflexivity |].
  unfold low_outliers, high_outliers, default_threshold. np_eval. reflexivity.
Qed.

Lemma overlap_window_0 : window_locs overlap_freqs 300000 0 = [0; 1]%nat.
Proof. unfold window_locs, velocity, in_window, overlap_freqs. np_eval. reflexivity. Qed.

Lemma overlap_window_1 : window_locs overlap_freqs 300000.5 0 = [1; 2]%nat.
Proof. unfold window_locs, velocity, in_window, overlap_freqs. np_eval. reflexivity. Qed.

Lemma overlap_significant_0 : significant [Fin 1; Fin 1] 0.
Proof. exists (Fin 1), (Fin 1). unfold np_lt. np_eval. repeat split. Qed.

Lemma overlap_significant_1 : significant [Fin 1; Fin 1] 1.
Proof. exists (Fin 1), (Fin 1). unfold np_lt. np_eval. repeat split. Qed.

(** The first window, of intensities 4 and 3, has a noise standard deviation of
    0.5 and a peak of 4 > 3: an interloper. *)
Lemma overlap_interloper_0 :
  is_interloper (gather overlap_ints (window_locs overlap_freqs 300000 0)) = true.
Proof.
  rewrite overlap_window_0. unfold overlap_ints, is_interloper. np_red.
  rewrite calc_noise_std_pair by lra. np_eval. reflexivity.
Qed.

(** The second window, of intensities 3 and 0, has a noise standard deviation
    of 1.5 and a peak of 3 < 9: no interloper. *)
Lemma overlap_interloper_1 :
  is_interloper (gather overlap_ints (window_locs overlap_freqs 300000.5 0)) = false.
Proof.
  rewrite overlap_window_1. unfold overlap_ints, is_interloper. np_red.
  rewrite calc_noise_std_pair by lra. np_eval. reflexivity.
Qed.

Lemma read_file_overlap :
  read_file overlap_freqs overlap_ints overlap_lines [Fin 1; Fin 1] 0 false true
  = Some ([Fin 299994.5; Fin 299995], [Fin 3; Fin 0], [Fin (sqrt 2.34); Fin 1.5],
          [1%nat]).
Proof.
  unfold read_file.
  cbn [scaled_freqs length Nat.eqb negb read_lines zeros repeat
       overlap_freqs overlap_ints overlap_lines].
  change [Fin 299994; Fin 299994.5; Fin 299995] with overlap_freqs.
  change [Fin 4; Fin 3; Fin 0] with overlap_ints.
  rewrite (read_line_blocked _ _ _ _ _ _ _ overlap_significant_0 overlap_interloper_0).
  rewrite read_line_accepted.
  2:{ split; [exact overlap_significant_1 |].
      split; [rewrite overlap_window_1; discriminate | intros _; exact overlap_interloper_1]. }
  unfold store_window, window_noise. rewrite overlap_window_1.
  cbn [covered_trans relevant_yerrs relevant_freqs relevant_intensity].
  change (gather overlap_ints [1%nat; 2%nat]) with [Fin 3; Fin 0].
  change (gather overlap_freqs [1%nat; 2%nat]) with [Fin 299994.5; Fin 299995].
  rewrite calc_noise_std_pair by lra. np_eval.
  replace (sqrt ((3 - 0) / 2 * ((3 - 0) / 2) + 3 * 0.1 * (3 * 0.1))) with (sqrt 2.34)
    by (f_equal; lra).
  replace (sqrt ((3 - 0) / 2 * ((3 - 0) / 2) + 0 * 0.1 * (0 * 0.1))) with 1.5.
  2:{ symmetry. apply sqrt_lem_1; lra. }
  reflexivity.
Qed.

(** A channel at frequency zero, brought into the window by the shift, is
    stored by the one line and then dropped by the mask [relevant_freqs > 0]. *)
Lemma read_file_zero_frequency :
  read_file [Fin 0] [Fin 1] [Fin 300000] [Fin 1] (-299994.5) false false
  = Some ([], [], [], [0%nat]).
Proof.
  assert (W : window_locs [Fin 0] 300000 (-299994.5) = [0%nat]).
  { unfold window_locs, velocity, in_window. np_eval. reflexivity. }
  unfold read_file. cbn [scaled_freqs length Nat.eqb negb read_lines zeros repeat].
  rewrite read_line_accepted.
  2:{ split; [exact single_line_significant |].
      split; [rewrite W; discriminate | discriminate]. }
  unfold store_window, window_noise, default_threshold. rewrite W.
  cbn [covered_trans relevant_yerrs relevant_freqs relevant_intensity]. np_eval.
  reflexivity.
Qed.

(** C6 fails as stated.  With [block_interlopers=True], the window of the line
    at 300000 MHz (channels 0 and 1) is an interloper, and its channel 1
    (299994.5 MHz, intensity 3) is in the returned arrays all the same, stored
    by the line at 300000.5 MHz whose window covers it too.  With
    [block_interlopers=False], a window made of one channel at frequency zero,
    of peak 1 above 6 times its noise of 0, is recorded and yet its channel is
    not returned. *)
Lemma blocked_window_channel_returned_counterexample :
  (is_interloper (gather overlap_ints (window_locs overlap_freqs 300000 0)) = true /\
   In 1%nat (window_locs overlap_freqs 300000 0) /\
   nth 1 overlap_freqs NaN = Fin 299994.5 /\
   read_file overlap_freqs overlap_ints overlap_lines [Fin 1; Fin 1] 0 false true
   = Some ([Fin 299994.5; Fin 299995], [Fin 3; Fin 0], [Fin (sqrt 2.34); Fin 1.5],
           [1%nat])) /\
  (is_interloper (gather [Fin 1] (window_locs [Fin 0] 300000 (-299994.5))) = true /\
   read_file [Fin 0] [Fin 1] [Fin 300000] [Fin 1] (-299994.5) false false
   = Some ([], [], [], [0%nat])).
Proof.
  split.
  - split; [exact overlap_interloper_0 |].
    split; [rewrite overlap_window_0; right; left; reflexivity |].
    split; [reflexivity | exact read_file_overlap].
  - split; [| exact read_file_zero_frequency].
    assert (W : window_locs [Fin 0] 300000 (-299994.5) = [0%nat]).
    { unfold window_locs, velocity, in_window. np_eval. reflexivity. }
    rewrite W. unfold is_interloper, default_threshold. np_red.
    rewrite calc_noise_std_single. np_eval. reflexivity.
Qed.

(** The witness: the first of the two overlapping windows. *)
Lemma interloper_window_witness :
  nth_error overlap_lines 0 = Some (Fin 300000) /\
  significant [Fin 1; Fin 1] 0 /\
  window_locs (scaled_freqs overlap_freqs false) 300000 0 <> [] /\
  is_interloper (gather overlap_ints (window_locs (scaled_freqs overlap_freqs false) 300000 0))
  = true /\
  forall st, read_line overlap_freqs overlap_ints [Fin 1; Fin 1] 0 true st 0 300000 = Some st.
Proof.
  assert (Hne : window_locs (scaled_freqs overlap_freqs false) 300000 0 <> []).
  { cbn [scaled_freqs]. rewrite overlap_window_0. discriminate. }
  split; [reflexivity |]. split; [exact overlap_significant_0 |].
  split; [exact Hne |]. split; [exact overlap_interloper_0 |].
  exact (proj1 (interloper_window_blocked_or_stored overlap_freqs overlap_ints overlap_lines
                  [Fin 1; Fin 1] 0 false 0 300000 eq_refl overlap_significant_0 Hne
                  overlap_interloper_0)).
Defined.

(** ** Beam dilution *)

Section Beam.

Variable cm : R.

Lemma beam_size_nonzero (f d : R) :
  cm <> 0 -> f <> 0 -> d <> 0 -> beam_size cm f d <> 0.
Proof.
  intros Hc Hf Hd. unfold beam_size.
  assert (Hf6 : f * 1e6 <> 0) by (intros E; apply Hf; lra).
  assert (Hx : cm / (f * 1e6) <> 0).
  { unfold Rdiv. apply Rmult_integral_contrapositive_currified;
      [exact Hc | apply Rinv_neq_0_compat; exact Hf6]. }
  assert (Hy : cm / (f * 1e6) * 206265 * 1.22 <> 0) by (intros E; apply Hx; lra).
  unfold Rdiv at 1. apply Rmult_integral_contrapositive_currified;
    [exact Hy | apply Rinv_neq_0_compat; exact Hd].
Qed.

(** On finite arguments, away from the zero divisors, [apply_beam] is the
    intensity times the dilution factor. *)
Lemma apply_beam_finite (f i s d : R) :
  f <> 0 -> d <> 0 -> beam_size cm f d <> 0 \/ s <> 0 ->
  apply_beam cm (Fin f) (Fin i) (Fin s) (Fin d)
  = Fin (i * dilution (beam_size cm f d) s).
Proof.
  intros Hf Hd Hbs. unfold apply_beam.
  assert (Hf6 : f * 1e6 <> 0) by (intros E; apply Hf; lra).
  np_red. rewrite (Reqb_false (f * 1e6) 0) by exact Hf6.
  np_red. rewrite (Reqb_false d 0) by exact Hd.
  np_red. fold (beam_size cm f d).
  rewrite Reqb_false; [reflexivity |].
  destruct Hbs as [Hb | Hs]; nra.
Qed.

Lemma dilution_monotone (b s1 s2 : R) :
  b <> 0 -> 0 <= s1 <= s2 -> dilution b s1 <= dilution b s2.
Proof.
  intros Hb [H1 H2]. unfold dilution.
  assert (Hb2 : 0 < b * b) by nra.
  assert (P1 : 0 < b * b + s1 * s1) by nra.
  assert (P2 : 0 < b * b + s2 * s2) by nra.
  apply Rminus_le.
  replace (s1 * s1 / (b * b + s1 * s1) - s2 * s2 / (b * b + s2 * s2))
    with (- ((b * b) * (s2 * s2 - s1 * s1)
             / ((b * b + s1 * s1) * (b * b + s2 * s2)))) by (field; lra).
  assert (0 <= (b * b) * (s2 * s2 - s1 * s1)
               / ((b * b + s1 * s1) * (b * b + s2 * s2))).
  { assert (Hsq : s1 * s1 <= s2 * s2) by (apply Rmult_le_compat; lra).
    apply Rmult_le_pos.
    - apply Rmult_le_pos; lra.
    - apply Rlt_le, Rinv_0_lt_compat, Rmult_lt_0_compat; assumption. }
  lra.
Qed.

Lemma dilution_near_one (b s : R) :
  0 < s -> Rabs (dilution b s - 1) <= b * b / (s * s).
Proof.
  intros Hs. unfold dilution.
  assert (Hs2 : 0 < s * s) by nra.
  assert (Hb2 : 0 <= b * b) by nra.
  replace (s * s / (b * b + s * s) - 1) with (- (b * b / (b * b + s * s)))
    by (field; lra).
  rewrite Rabs_Ropp, Rabs_pos_eq.
  - apply Rmult_le_compat_l; [exact Hb2 |].
    apply Rinv_le_contravar; lra.
  - apply Rmult_le_pos; [exact Hb2 |]. apply Rlt_le, Rinv_0_lt_compat. lra.
Qed.

(** C8, as the code has it: for a frequency and a dish size that are not zero,
    the output of [apply_beam] does not decrease when a non-negative
    [source_size] grows, provided the intensity is not negative; and for any
    intensity the output tends to the undiluted intensity as [source_size]
    tends to infinity. *)
Theorem apply_beam_monotone_and_saturating (f i d : R) :
  cm <> 0 -> f <> 0 -> d <> 0 ->
  (0 <= i ->
   forall s1 s2 : R, 0 <= s1 <= s2 ->
     exists y1 y2 : R,
       apply_beam cm (Fin f) (Fin i) (Fin s1) (Fin d) = Fin y1 /\
       apply_beam cm (Fin f) (Fin i) (Fin s2) (Fin d) = Fin y2 /\
       y1 <= y2) /\
  (forall eps : R, 0 < eps ->
     exists bound : R, forall s : R, bound <= s ->
       exists y : R,
         apply_beam cm (Fin f) (Fin i) (Fin s) (Fin d) = Fin y /\
         Rabs (y - i) < eps).
Proof.
  intros Hc Hf Hd.
  pose proof (beam_size_nonzero f d Hc Hf Hd) as Hb.
  set (b := beam_size cm f d) in *.
  split.
  - intros Hi s1 s2 Hs.
    exists (i * dilution b s1), (i * dilution b s2).
    split; [apply apply_beam_finite; auto | split; [apply apply_beam_finite; auto |]].
    apply Rmult_le_compat_l; [exact Hi | apply dilution_monotone; assumption].
  - intros eps Heps.
    exists (Rabs i * (b * b) / eps + 1). intros s Hs.
    exists (i * dilution b s). split; [apply apply_beam_finite; auto |].
    assert (Hq : 0 <= Rabs i * (b * b) / eps).
    { apply Rmult_le_pos; [| apply Rlt_le, Rinv_0_lt_compat; exact Heps].
      apply Rmult_le_pos; [apply Rabs_pos | nra]. }
    assert (Hs1 : 1 <= s) by lra.
    assert (Hs0 : 0 < s) by lra.
    assert (Hss : s <= s * s) by nra.
    replace (i * dilution b s - i) with (i * (dilution b s - 1)) by ring.
    rewrite Rabs_mult.
    apply Rle_lt_trans with (Rabs i * (b * b / (s * s))).
    { apply Rmult_le_compat_l; [apply Rabs_pos | apply dilution_near_one; exact Hs0]. }
    assert (Hlt : Rabs i * (b * b) / eps < s * s) by lra.
    assert (Hss0 : 0 < s * s) by nra.
    apply (Rmult_lt_reg_r (s * s)); [exact Hss0 |].
    replace (Rabs i * (b * b / (s * s)) * (s * s)) with (Rabs i * (b * b)) by (field; lra).
    apply (Rmult_lt_compat_r eps) in Hlt; [| exact Heps].
    replace (Rabs i * (b * b) / eps * eps) with (Rabs i * (b * b)) in Hlt by (field; lra).
    lra.
Qed.

End Beam.

Lemma dilution_strictly_monotone (b s1 s2 : R) :
  b <> 0 -> 0 <= s1 < s2 -> dilution b s1 < dilution b s2.
Proof.
  intros Hb [H1 H2]. unfold dilution.
  assert (Hb2 : 0 < b * b) by nra.
  assert (P1 : 0 < b * b + s1 * s1) by nra.
  assert (P2 : 0 < b * b + s2 * s2) by nra.
  assert (Hsq : s1 * s1 < s2 * s2) by nra.
  apply Rminus_lt.
  replace (s1 * s1 / (b * b + s1 * s1) - s2 * s2 / (b * b + s2 * s2))
    with (- ((b * b) * (s2 * s2 - s1 * s1)
             / ((b * b + s1 * s1) * (b * b + s2 * s2)))) by (field; lra).
  assert (0 < (b * b) * (s2 * s2 - s1 * s1)
              / ((b * b + s1 * s1) * (b * b + s2 * s2))).
  { apply Rmult_lt_0_compat.
    - apply Rmult_lt_0_compat; lra.
    - apply Rinv_0_lt_compat, Rmult_lt_0_compat; assumption. }
  lra.
Qed.

(** The witness: a line at 20000 MHz seen with a dish of 100 m. *)
Lemma apply_beam_monotone_witness :
  29979245800 <> 0 /\ 20000 <> 0 /\ 100 <> 0 /\ 0 <= 1 /\ 0 <= 10 <= 20 /\
  exists y1 y2 : R,
    apply_beam 29979245800 (Fin 20000) (Fin 1) (Fin 10) (Fin 100) = Fin y1 /\
    apply_beam 29979245800 (Fin 20000) (Fin 1) (Fin 20) (Fin 100) = Fin y2 /\
    y1 <= y2.
Proof.
  assert (Hc : 29979245800 <> 0) by lra.
  assert (Hf : 20000 <> 0) by lra.
  assert (Hd : 100 <> 0) by lra.
  assert (Hi : 0 <= 1) by lra.
  assert (Hs : 0 <= 10 <= 20) by lra.
  split; [exact Hc |]. split; [exact Hf |]. split; [exact Hd |].
  split; [exact Hi |]. split; [exact Hs |].
  exact (proj1 (apply_beam_monotone_and_saturating 29979245800 20000 1 100 Hc Hf Hd)
           Hi 10 20 Hs).
Defined.

(** C8 fails as stated.  At 20000 MHz with a dish of 100 m, an intensity of -1
    gives a smaller output for a source size of 20 than for a source size of
    10; and with an intensity of 1, the larger of the two source sizes -20 and
    -10 gives the smaller output. *)
Lemma apply_beam_not_monotone_counterexample :
  (apply_beam 29979245800 (Fin 20000) (Fin (-1)) (Fin 20) (Fin 100)
   <? apply_beam 29979245800 (Fin 20000) (Fin (-1)) (Fin 10) (Fin 100))%np = true /\
  (apply_beam 29979245800 (Fin 20000) (Fin 1) (Fin (-10)) (Fin 100)
   <? apply_beam 29979245800 (Fin 20000) (Fin 1) (Fin (-20)) (Fin 100))%np = true.
Proof.
  assert (Hb : beam_size 29979245800 20000 100 <> 0)
    by (apply beam_size_nonzero; lra).
  pose proof (dilution_strictly_monotone (beam_size 29979245800 20000 100) 10 20 Hb) as H.
  assert (H' : 0 <= 10 < 20) by lra. specialize (H H').
  rewrite !apply_beam_finite by (try lra; left; exact Hb).
  cbn [NP.ltb]. split; apply Rltb_true.
  - lra.
  - assert (E1 : dilution (beam_size 29979245800 20000 100) (-10)
               = dilution (beam_size 29979245800 20000 100) 10)
      by (unfold dilution; f_equal; lra).
    assert (E2 : dilution (beam_size 29979245800 20000 100) (-20)
               = dilution (beam_size 29979245800 20000 100) 20)
      by (unfold dilution; f_equal; lra).
    rewrite E1, E2. lra.
Qed.

(** ** The forward model without emission *)

Section ZeroModel.

Variables cm ckm h k : R.
Hypothesis cm_nonzero : cm <> 0.
Hypothesis h_nonzero : h <> 0.
Hypothesis k_nonzero : k <> 0.

(** Inside the mask [|vel - 5.8| < dV*10] a real velocity meets a positive
    line width, so a zero amplitude contributes exactly zero. *)
Lemma zero_amplitude_term (vlsr dV x : R) :
  lt_fastmath (NP.abs (Fin x - 5.8)) (Fin dV * 10)%np = true ->
  (0 * profile (Fin vlsr) (Fin dV) (Fin x))%np = Fin 0.
Proof.
  intros H.
  cbn [NP.sub NP.add NP.neg NP.abs NP.mul NP.ltb lt_fastmath] in H.
  apply Rltb_true_iff in H.
  pose proof (Rabs_pos (x + - (5.8))) as Hp.
  assert (Hd : 0 < dV) by lra.
  unfold profile. np_eval. f_equal. lra.
Qed.

Lemma add_where_zeros (vel : list npfloat) (maskf : npfloat -> bool)
    (f : npfloat -> npfloat) :
  (forall v, In v vel -> maskf v = true -> f v = Fin 0) ->
  add_where (zeros (length vel)) (map maskf vel) vel f = zeros (length vel).
Proof.
  intros Hf. induction vel as [| v vel IH]; cbn [length zeros repeat map add_where];
    [reflexivity |].
  fold (zeros (length vel)). rewrite IH.
  2:{ intros w Hw. apply Hf. right. exact Hw. }
  f_equal.
  destruct (maskf v) eqn:E; [| reflexivity].
  rewrite (Hf v (or_introl eq_refl) E). cbn. f_equal. lra.
Qed.

(** The velocities of a grid of real frequencies relative to a real line
    frequency other than zero are real. *)
Lemma vel_grid_real (f1 : R) (datagrid0 : list npfloat) (v : npfloat) :
  f1 <> 0 ->
  Forall (fun nu => exists x : R, nu = Fin x /\ x <> 0) datagrid0 ->
  In v (map (fun d0 => ((Fin f1 - d0) / Fin f1 * ckm)%np) datagrid0) ->
  exists x : R, v = Fin x.
Proof.
  intros Hf Hgrid Hv. apply in_map_iff in Hv. destruct Hv as (d0 & <- & Hd).
  rewrite Forall_forall in Hgrid. destruct (Hgrid d0 Hd) as (x & -> & _).
  np_red. rewrite (Reqb_false f1 0) by exact Hf. np_red. eexists. reflexivity.
Qed.

Lemma add_line_zero_amplitudes (freqs1 ints1 ints2 ints3 ints4 datagrid0 : list npfloat)
    (vlsr1 vlsr2 vlsr3 vlsr4 dV : R) (i : nat) :
  Forall (fun nu => exists x : R, nu = Fin x /\ x <> 0) datagrid0 ->
  Forall (fun f => exists x : R, f = Fin x /\ x <> 0) freqs1 ->
  (i < length freqs1)%nat ->
  nth_error ints1 i = Some (Fin 0) -> nth_error ints2 i = Some (Fin 0) ->
  nth_error ints3 i = Some (Fin 0) -> nth_error ints4 i = Some (Fin 0) ->
  let z := zeros (length datagrid0) in
  add_line ckm freqs1 ints1 ints2 ints3 ints4 datagrid0 vlsr1 vlsr2 vlsr3 vlsr4 dV
           (z, z, z, z) i
  = Some (z, z, z, z).
Proof.
  intros Hgrid Hlines Hi H1 H2 H3 H4 z. unfold add_line.
  destruct (nth_error freqs1 i) as [f1 |] eqn:Hf.
  2:{ apply nth_error_None in Hf. lia. }
  rewrite Forall_forall in Hlines.
  destruct (Hlines f1 (nth_error_In _ _ Hf)) as (x1 & -> & Hx1).
  rewrite H1, H2, H3, H4.
  set (vel := map (fun d0 => ((Fin x1 - d0) / Fin x1 * ckm)%np) datagrid0).
  assert (Hz : z = zeros (length vel)) by (unfold z, vel; rewrite length_map; reflexivity).
  rewrite Hz.
  rewrite !(add_where_zeros vel (fun v => lt_fastmath (NP.abs (v - 5.8)) (dV * 10)%np));
    [reflexivity | | | |]; intros v Hin Hv;
    destruct (vel_grid_real x1 datagrid0 v Hx1 Hgrid Hin) as [x ->];
    apply zero_amplitude_term; exact Hv.
Qed.

Lemma add_lines_zero_amplitudes (freqs1 ints1 ints2 ints3 ints4 datagrid0 : list npfloat)
    (vlsr1 vlsr2 vlsr3 vlsr4 dV : R) (lines : list nat) :
  Forall (fun nu => exists x : R, nu = Fin x /\ x <> 0) datagrid0 ->
  Forall (fun f => exists x : R, f = Fin x /\ x <> 0) freqs1 ->
  (forall i, In i lines ->
     (i < length freqs1)%nat /\
     nth_error ints1 i = Some (Fin 0) /\ nth_error ints2 i = Some (Fin 0) /\
     nth_error ints3 i = Some (Fin 0) /\ nth_error ints4 i = Some (Fin 0)) ->
  let z := zeros (length datagrid0) in
  add_lines ckm freqs1 ints1 ints2 ints3 ints4 datagrid0 vlsr1 vlsr2 vlsr3 vlsr4 dV
            lines (z, z, z, z)
  = Some (z, z, z, z).
Proof.
  intros Hgrid Hlines H z. induction lines as [| i lines IH]; cbn [add_lines];
    [reflexivity |].
  destruct (H i (or_introl eq_refl)) as (Hi & H1 & H2 & H3 & H4).
  unfold z. rewrite add_line_zero_amplitudes by assumption. cbv zeta.
  apply IH. intros j Hj. apply H. right. exact Hj.
Qed.

(** The Planck term is a real number, and its power does not divide by zero,
    at every finite temperature, zero included, and every finite frequency
    other than zero. *)
Lemma planck_finite (T nu : R) :
  nu <> 0 -> exists x : R, planck h k (Fin T) (Fin nu) = Some (Fin x).
Proof.
  intros Hnu.
  assert (HX : h * nu * 10 ^ 6 <> 0).
  { assert (h * nu <> 0) by (apply Rmult_integral_contrapositive_currified; assumption).
    intros E. apply H. lra. }
  unfold planck, power_minus_1. np_red. rewrite (Reqb_false k 0) by exact k_nonzero.
  destruct (Req_dec_T T 0) as [-> | HT].
  - rewrite (Reqb_true (k * 0) 0) by lra. unfold NP.scale_inf.
    destruct (Rlt_dec 0 (h * nu * 10 ^ 6)) as [Hpos | Hneg].
    + rewrite (Rltb_true _ _ Hpos). np_red. eexists. reflexivity.
    + rewrite (Rltb_false _ _ Hneg), (Rltb_true (h * nu * 10 ^ 6) 0) by lra.
      np_eval. eexists. reflexivity.
  - assert (HkT : k * T <> 0)
      by (apply Rmult_integral_contrapositive_currified; assumption).
    rewrite (Reqb_false (k * T) 0) by exact HkT. np_red.
    assert (Hy : h * nu * 10 ^ 6 / (k * T) <> 0).
    { unfold Rdiv. apply Rmult_integral_contrapositive_currified;
        [exact HX | apply Rinv_neq_0_compat; exact HkT]. }
    assert (He : exp (h * nu * 10 ^ 6 / (k * T)) + - (1) <> 0).
    { intros E. apply Hy. apply exp_inv. rewrite exp_0. lra. }
    rewrite (Reqb_false _ 0 He). np_red. rewrite ?(Reqb_false _ 0 He).
    eexists. reflexivity.
Qed.

(** On such a grid the array of Planck terms is an array of real numbers. *)
Lemma planck_array_finite (T : R) (datagrid0 : list npfloat) :
  Forall (fun nu => exists x : R, nu = Fin x /\ x <> 0) datagrid0 ->
  exists J, map_raise (planck h k (Fin T)) datagrid0 = Some J /\
            Forall2 (fun _ j => exists x : R, j = Fin x) datagrid0 J.
Proof.
  induction 1 as [| nu rest (x & -> & Hx) _ (J & EJ & HJ)]; cbn [map_raise].
  - exists []. split; [reflexivity | constructor].
  - destruct (planck_finite T x Hx) as [p ->]. rewrite EJ.
    exists (Fin p :: J). split; [reflexivity |].
    constructor; [exists p; reflexivity | exact HJ].
Qed.

Lemma diluted_zeros (datagrid0 J_T J_Tbg : list npfloat) (ss : R) :
  Forall (fun nu => exists x : R, nu = Fin x /\ x <> 0) datagrid0 ->
  Forall2 (fun _ j => exists x : R, j = Fin x) datagrid0 J_T ->
  Forall2 (fun _ j => exists x : R, j = Fin x) datagrid0 J_Tbg ->
  diluted cm datagrid0 J_T J_Tbg (zeros (length datagrid0)) (Fin ss)
  = zeros (length datagrid0).
Proof.
  unfold diluted. intros Hgrid. revert J_T J_Tbg.
  induction Hgrid as [| nu rest (x & -> & Hx) _ IH]; intros J_T J_Tbg HT Hbg;
    cbn [length zeros repeat map2]; [reflexivity |].
  inversion HT as [| ? jT ? J_T' [p1 ->] HT']; subst.
  inversion Hbg as [| ? jb ? J_Tbg' [p2 ->] Hbg']; subst.
  cbn [map2]. fold (zeros (length rest)). rewrite (IH _ _ HT' Hbg'). f_equal.
  np_red. rewrite apply_beam_finite.
  - f_equal. rewrite Ropp_0, exp_0. lra.
  - exact Hx.
  - lra.
  - left. apply beam_size_nonzero; [exact cm_nonzero | exact Hx | lra].
Qed.

Lemma map2_add_zeros (n : nat) : map2 NP.add (zeros n) (zeros n) = zeros n.
Proof.
  induction n as [| n IH]; cbn [zeros repeat map2]; [reflexivity |].
  fold (zeros n). rewrite IH. f_equal. cbn. f_equal. lra.
Qed.

Lemma make_model_no_emission
    (freqs1 freqs2 freqs3 freqs4 ints1 ints2 ints3 ints4 datagrid0 datagrid1 : list npfloat)
    (ss1 ss2 ss3 ss4 vlsr1 vlsr2 vlsr3 vlsr4 dV Tex : R) :
  Forall (fun nu => exists x : R, nu = Fin x /\ x <> 0) datagrid0 ->
  Forall (fun f => exists x : R, f = Fin x /\ x <> 0) freqs1 ->
  length datagrid0 = length datagrid1 ->
  (forall i, (i < length freqs1)%nat ->
     nth_error ints1 i = Some (Fin 0) /\ nth_error ints2 i = Some (Fin 0) /\
     nth_error ints3 i = Some (Fin 0) /\ nth_error ints4 i = Some (Fin 0)) ->
  make_model cm ckm h k freqs1 freqs2 freqs3 freqs4 ints1 ints2 ints3 ints4
             ss1 ss2 ss3 ss4 datagrid0 datagrid1 vlsr1 vlsr2 vlsr3 vlsr4 dV Tex
  = Some (zeros (length datagrid1)).
Proof.
  intros Hgrid Hlines Hlen Hints. unfold make_model.
  rewrite <- Hlen, Nat.eqb_refl. cbn [negb].
  rewrite add_lines_zero_amplitudes; try assumption.
  - cbv zeta.
    destruct (planck_array_finite Tex datagrid0 Hgrid) as (J_T & -> & HT).
    destruct (planck_array_finite 2.7 datagrid0 Hgrid) as (J_Tbg & -> & Hbg).
    rewrite !diluted_zeros by assumption.
    rewrite !map2_add_zeros. reflexivity.
  - intros i Hi. apply in_seq in Hi.
    assert (Hlt : (i < length freqs1)%nat) by lia.
    split; [exact Hlt | apply Hints; exact Hlt].
Qed.

(** ** Where the forward model divides by zero *)

Lemma map_raise_raises {A B : Type} (f : A -> option B) (a : list A) :
  Exists (fun x => f x = None) a -> map_raise f a = None.
Proof.
  induction 1 as [x a Hx | x a _ IH]; cbn [map_raise].
  - rewrite Hx. reflexivity.
  - rewrite IH. destruct (f x); reflexivity.
Qed.

(** At a frequency of zero the exponent of the background term is zero. *)
Lemma planck_zero_frequency : planck h k 2.7 (Fin 0) = None.
Proof.
  pose proof k_nonzero as Hk. unfold planck, power_minus_1. np_red.
  rewrite (Reqb_false (k * 2.7) 0) by lra. np_red.
  rewrite Reqb_true; [reflexivity |].
  replace (h * 0 * 10 ^ 6 / (k * 2.7)) with 0 by (unfold Rdiv; ring).
  rewrite exp_0. lra.
Qed.

(** [make_model] raises when one of the two Planck terms divides by zero on a
    channel. *)
Lemma make_model_raises
    (freqs1 freqs2 freqs3 freqs4 ints1 ints2 ints3 ints4 : list npfloat)
    (ss1 ss2 ss3 ss4 : npfloat) (datagrid0 datagrid1 : list npfloat)
    (vlsr1 vlsr2 vlsr3 vlsr4 dV Tex : npfloat) :
  Exists (fun nu => planck h k Tex nu = None) datagrid0 \/
  Exists (fun nu => planck h k 2.7 nu = None) datagrid0 ->
  make_model cm ckm h k freqs1 freqs2 freqs3 freqs4 ints1 ints2 ints3 ints4
             ss1 ss2 ss3 ss4 datagrid0 datagrid1 vlsr1 vlsr2 vlsr3 vlsr4 dV Tex
  = None.
Proof.
  intros Hraise. unfold make_model.
  destruct (negb (length datagrid0 =? length datagrid1)%nat); [reflexivity |].
  destruct (add_lines _ _ _ _ _ _ _ _ _ _ _ _ _) as [[[[m1 m2] m3] m4] |];
    [| reflexivity].
  destruct Hraise as [H | H]; rewrite (map_raise_raises _ _ H); [reflexivity |].
  destruct (map_raise (planck h k Tex) datagrid0); reflexivity.
Qed.

Lemma nth_error_zeros (n i : nat) : (i < n)%nat -> nth_error (zeros n) i = Some (Fin 0).
Proof.
  intros H. unfold zeros. rewrite nth_error_repeat by exact H. reflexivity.
Qed.

(** C9, as the code has it: on a grid of finite frequencies other than zero,
    with finite line frequencies other than zero, finite parameters and
    constants [cm], [h], [k] other than zero, [make_model] returns the
    all-zero array when the amplitudes [ints1] to [ints4] are zero for every
    line, and also when there is no line at all, in which case it returns
    without raising whatever the amplitude arrays hold. *)
Theorem make_model_zero_without_emission
    (freqs1 freqs2 freqs3 freqs4 ints1 ints2 ints3 ints4 datagrid0 datagrid1 : list npfloat)
    (ss1 ss2 ss3 ss4 vlsr1 vlsr2 vlsr3 vlsr4 dV Tex : R) :
  Forall (fun nu => exists x : R, nu = Fin x /\ x <> 0) datagrid0 ->
  Forall (fun f => exists x : R, f = Fin x /\ x <> 0) freqs1 ->
  length datagrid0 = length datagrid1 ->
  (ints1 = zeros (length freqs1) /\ ints2 = zeros (length freqs1) /\
   ints3 = zeros (length freqs1) /\ ints4 = zeros (length freqs1)) \/ freqs1 = [] ->
  make_model cm ckm h k freqs1 freqs2 freqs3 freqs4 ints1 ints2 ints3 ints4
             ss1 ss2 ss3 ss4 datagrid0 datagrid1 vlsr1 vlsr2 vlsr3 vlsr4 dV Tex
  = Some (zeros (length datagrid1)).
Proof.
  intros Hgrid Hlines Hlen Hcase. apply make_model_no_emission; try assumption.
  intros i Hi. destruct Hcase as [(-> & -> & -> & ->) | ->].
  - rewrite nth_error_zeros by exact Hi. auto.
  - cbn in Hi. lia.
Qed.

End ZeroModel.

(** The witness: one line at 20000 MHz with zero amplitudes on a grid of two
    channels. *)
Lemma make_model_zero_witness :
  29979245800 <> 0 /\ 6.626e-27 <> 0 /\ 1.381e-16 <> 0 /\
  make_model 29979245800 299792.458 6.626e-27 1.381e-16
             [Fin 20000] [Fin 20000] [Fin 20000] [Fin 20000]
             [Fin 0] [Fin 0] [Fin 0] [Fin 0] 37 25 56 22
             [Fin 19999.6; Fin 19999.7] [Fin 0.01; Fin 0.02]
             5.624 5.790 5.910 6.033 0.117 6.7
  = Some [Fin 0; Fin 0].
Proof.
  assert (Hc : 29979245800 <> 0) by lra.
  assert (Hh : 6.626e-27 <> 0) by lra.
  assert (Hk : 1.381e-16 <> 0) by lra.
  split; [exact Hc |]. split; [exact Hh |]. split; [exact Hk |].
  apply (make_model_zero_without_emission 29979245800 299792.458 6.626e-27 1.381e-16
           Hc Hh Hk [Fin 20000] [Fin 20000] [Fin 20000] [Fin 20000]
           [Fin 0] [Fin 0] [Fin 0] [Fin 0] [Fin 19999.6; Fin 19999.7]
           [Fin 0.01; Fin 0.02] 37 25 56 22 5.624 5.790 5.910 6.033 0.117 6.7).
  - repeat constructor; eexists; (split; [reflexivity | lra]).
  - repeat constructor; eexists; (split; [reflexivity | lra]).
  - reflexivity.
  - left. repeat split.
Defined.

(** C9 fails as stated on a grid that has a channel of frequency zero: the
    Planck term of the background divides by zero on that channel and
    [make_model] raises, with zero amplitudes and also without any line. *)
Lemma make_model_zero_frequency_counterexample :
  make_model 29979245800 299792.458 6.626e-27 1.381e-16
             [Fin 20000] [Fin 20000] [Fin 20000] [Fin 20000]
             [Fin 0] [Fin 0] [Fin 0] [Fin 0] 37 25 56 22
             [Fin 19999.6; Fin 0] [Fin 0.01; Fin 0.02]
             5.624 5.790 5.910 6.033 0.117 6.7
  = None /\
  make_model 29979245800 299792.458 6.626e-27 1.381e-16
             [] [] [] [] [] [] [] [] 37 25 56 22
             [Fin 19999.6; Fin 0] [Fin 0.01; Fin 0.02]
             5.624 5.790 5.910 6.033 0.117 6.7
  = None.
Proof.
  assert (Hk : 1.381e-16 <> 0) by lra.
  split; apply make_model_raises; right; apply Exists_cons_tl, Exists_cons_hd;
    apply planck_zero_frequency; exact Hk.
Qed.

(** * Further properties *)

(** ** Special values and the bounds *)

Lemma between_finite (lo hi : R) (a : npfloat) :
  (lo <? a)%np = true -> (a <? hi)%np = true -> exists x, a = Fin x /\ lo < x < hi.
Proof.
  destruct a; cbn [NP.ltb]; try discriminate.
  rewrite !Rltb_true_iff. intros H1 H2. exists x. split; [reflexivity | lra].
Qed.

Lemma step_finite (a b : npfloat) :
  (a <? b - 0.05)%np = true -> (b <? a + 0.3)%np = true ->
  exists x y, a = Fin x /\ b = Fin y /\ x + 0.05 < y < x + 0.3.
Proof.
  destruct a, b; cbn [NP.ltb NP.sub NP.add NP.neg]; try discriminate.
  rewrite !Rltb_true_iff. intros H1 H2. exists x, x0. repeat split; try reflexivity; lra.
Qed.

Lemma within_bounds_reals (theta : vec14) :
  is_within_bounds theta = true ->
  (exists s1 s2 s3 s4 : R,
     v0 theta = Fin s1 /\ v1 theta = Fin s2 /\ v2 theta = Fin s3 /\ v3 theta = Fin s4 /\
     0 < s1 < 200 /\ 0 < s2 < 200 /\ 0 < s3 < 200 /\ 0 < s4 < 200) /\
  (exists n1 n2 n3 n4 : R,
     v4 theta = Fin n1 /\ v5 theta = Fin n2 /\ v6 theta = Fin n3 /\ v7 theta = Fin n4 /\
     0 < n1 < 1e16 /\ 0 < n2 < 1e16 /\ 0 < n3 < 1e16 /\ 0 < n4 < 1e16) /\
  (exists u1 u2 u3 u4 : R,
     v9 theta = Fin u1 /\ v10 theta = Fin u2 /\ v11 theta = Fin u3 /\ v12 theta = Fin u4 /\
     u1 + 0.05 < u2 < u1 + 0.3 /\ u2 + 0.05 < u3 < u2 + 0.3 /\
     u3 + 0.05 < u4 < u3 + 0.3) /\
  np_lt 2.7 (v8 theta) /\ np_lt (v13 theta) 0.3.
Proof.
  destruct theta as [t0 t1 t2 t3 t4 t5 t6 t7 t8 t9 t10 t11 t12 t13];
    unfold is_within_bounds, np_lt;
    cbn [v0 v1 v2 v3 v4 v5 v6 v7 v8 v9 v10 v11 v12 v13].
  rewrite !andb_true_iff, pow_10_16.
  intros H; decompose [and] H; clear H.
  repeat match goal with
  | H1 : (Fin ?lo <? ?a)%np = true, H2 : (?a <? Fin ?hi)%np = true |- _ =>
      destruct (between_finite lo hi a H1 H2) as (? & -> & ?); clear H1 H2
  end.
  match goal with
  | H1 : (?a <? ?b - Fin 0.05)%np = true, H2 : (?b <? ?a + Fin 0.3)%np = true,
    H3 : (?b <? ?c - Fin 0.05)%np = true, H4 : (?c <? ?b + Fin 0.3)%np = true,
    H5 : (?c <? ?d - Fin 0.05)%np = true, H6 : (?d <? ?c + Fin 0.3)%np = true |- _ =>
      destruct (step_finite a b H1 H2) as (u1 & u2 & -> & -> & ?);
      destruct (step_finite _ c H3 H4) as (u2' & u3 & E2 & -> & ?);
      destruct (step_finite _ d H5 H6) as (u3' & u4 & E3 & -> & ?);
      injection E2 as <-; injection E3 as <-
  end.
  split; [| split; [| split; [| split]]].
  - do 4 eexists. repeat split; try reflexivity; lra.
  - do 4 eexists. repeat split; try reflexivity; lra.
  - exists u1, u2, u3, u4. repeat split; try reflexivity; lra.
  - assumption.
  - assumption.
Qed.

(** X1: a parameter vector that passes [is_within_bounds] has real source
    sizes, column densities and velocities (no [nan], no infinity), and its
    four velocities span more than 0.15 and less than 0.9 km/s.  [Tex] is
    real or [+inf] and [dV] is real or [-inf], and these two infinities do
    pass: putting [Tex = +inf] or [dV = -inf] into a passing vector gives a
    passing vector. *)
Theorem within_bounds_excludes_special_values (theta : vec14) :
  is_within_bounds theta = true ->
  Forall finite [v0 theta; v1 theta; v2 theta; v3 theta; v4 theta; v5 theta; v6 theta;
                 v7 theta; v9 theta; v10 theta; v11 theta; v12 theta] /\
  (exists u1 u4 : R, v9 theta = Fin u1 /\ v12 theta = Fin u4 /\ 0.15 < u4 - u1 < 0.9) /\
  (finite (v8 theta) \/ v8 theta = PInf) /\
  (finite (v13 theta) \/ v13 theta = NInf) /\
  is_within_bounds (with_Tex theta PInf) = true /\
  is_within_bounds (with_dV theta NInf) = true.
Proof.
  intros Hb.
  destruct (within_bounds_reals theta Hb)
    as ((s1 & s2 & s3 & s4 & E0 & E1 & E2 & E3 & _) &
        (n1 & n2 & n3 & n4 & E4 & E5 & E6 & E7 & _) &
        (u1 & u2 & u3 & u4 & E9 & E10 & E11 & E12 & H12 & H23 & H34) & Htex & HdV).
  split; [| split; [| split; [| split; [| split]]]].
  - rewrite E0, E1, E2, E3, E4, E5, E6, E7, E9, E10, E11, E12.
    repeat constructor; eexists; reflexivity.
  - exists u1, u4. split; [exact E9 | split; [exact E12 | lra]].
  - unfold np_lt in Htex. destruct (v8 theta) as [x | | |]; try discriminate.
    + left. exists x. reflexivity.
    + right. reflexivity.
  - unfold np_lt in HdV. destruct (v13 theta) as [x | | |]; try discriminate.
    + left. exists x. reflexivity.
    + right. reflexivity.
  - revert Hb. destruct theta as [t0 t1 t2 t3 t4 t5 t6 t7 t8 t9 t10 t11 t12 t13];
      unfold is_within_bounds, with_Tex;
      cbn [v0 v1 v2 v3 v4 v5 v6 v7 v8 v9 v10 v11 v12 v13].
    rewrite !andb_true_iff. cbn [NP.ltb]. tauto.
  - revert Hb. destruct theta as [t0 t1 t2 t3 t4 t5 t6 t7 t8 t9 t10 t11 t12 t13];
      unfold is_within_bounds, with_dV;
      cbn [v0 v1 v2 v3 v4 v5 v6 v7 v8 v9 v10 v11 v12 v13].
    rewrite !andb_true_iff. cbn [NP.ltb]. tauto.
Qed.

(** The witness: the template vector. *)
Lemma within_bounds_excludes_special_values_witness :
  is_within_bounds template_initial = true /\
  exists u1 u4 : R,
    v9 template_initial = Fin u1 /\ v12 template_initial = Fin u4 /\ 0.15 < u4 - u1 < 0.9.
Proof.
  split; [exact template_initial_within_bounds |].
  exact (proj1 (proj2 (within_bounds_excludes_special_values
                         template_initial template_initial_within_bounds))).
Defined.

(** ** When the prior is a number *)

Lemma add_finite_iff (a b : npfloat) : finite (a + b)%np <-> finite a /\ finite b.
Proof.
  unfold finite. split.
  - destruct a, b; cbn [NP.add]; intros [z E]; try discriminate;
      split; eexists; reflexivity.
  - intros [[x ->] [y ->]]. eexists; reflexivity.
Qed.

Lemma neg_finite_iff (a : npfloat) : finite (- a)%np <-> finite a.
Proof.
  unfold finite. split; destruct a; cbn [NP.neg]; intros [z E]; try discriminate;
    eexists; reflexivity.
Qed.

Lemma sub_finite_iff (a b : npfloat) : finite (a - b)%np <-> finite a /\ finite b.
Proof. unfold NP.sub. rewrite add_finite_iff, neg_finite_iff. tauto. Qed.

Lemma positive_finite (a : npfloat) : positive a -> finite a.
Proof. intros (x & -> & _). exists x. reflexivity. Qed.

(** The normalisation [np.log(1.0/(np.sqrt(2*np.pi)*s))] is a number exactly
    for a positive real [s]: it is [nan] for a negative one, [+inf] at zero and
    [-inf] at an infinite one. *)
Lemma log_norm_cases (s : npfloat) :
  (forall sr, s = Fin sr -> 0 < sr ->
     NP.log (1 / (NP.sqrt (2 * PI) * s))%np = Fin (ln (1 / (sqrt (2 * PI) * sr)))) /\
  (forall sr, s = Fin sr -> sr < 0 -> NP.log (1 / (NP.sqrt (2 * PI) * s))%np = NaN) /\
  (s = Fin 0 -> NP.log (1 / (NP.sqrt (2 * PI) * s))%np = PInf) /\
  (s = PInf \/ s = NInf -> NP.log (1 / (NP.sqrt (2 * PI) * s))%np = NInf) /\
  (s = NaN -> NP.log (1 / (NP.sqrt (2 * PI) * s))%np = NaN).
Proof.
  pose proof sqrt_2PI_pos as Hq. pose proof PI_RGT_0 as Hpi.
  repeat split.
  - intros sr -> Hs.
    assert (Hd : 0 < sqrt (2 * PI) * sr) by (apply Rmult_lt_0_compat; assumption).
    assert (Hi : 0 < 1 / (sqrt (2 * PI) * sr)) by (apply Rdiv_lt_0_compat; lra).
    np_red. rewrite (Rltb_false (2 * PI) 0) by lra. np_red.
    rewrite (Reqb_false (sqrt (2 * PI) * sr) 0) by lra. np_red.
    rewrite (Rltb_true 0 (1 / (sqrt (2 * PI) * sr))) by exact Hi. reflexivity.
  - intros sr -> Hs.
    assert (Hd : sqrt (2 * PI) * sr < 0).
    { replace (sqrt (2 * PI) * sr) with (- (sqrt (2 * PI) * - sr)) by lra.
      assert (0 < sqrt (2 * PI) * - sr) by (apply Rmult_lt_0_compat; lra). lra. }
    assert (Hi : 1 / (sqrt (2 * PI) * sr) < 0).
    { unfold Rdiv. rewrite Rmult_1_l. apply Rinv_lt_0_compat. exact Hd. }
    np_red. rewrite (Rltb_false (2 * PI) 0) by lra. np_red.
    rewrite (Reqb_false (sqrt (2 * PI) * sr) 0) by lra. np_red.
    rewrite (Rltb_false 0 (1 / (sqrt (2 * PI) * sr))) by lra.
    rewrite (Rltb_true (1 / (sqrt (2 * PI) * sr)) 0) by exact Hi. reflexivity.
  - intros ->.
    np_red. rewrite (Rltb_false (2 * PI) 0) by lra. np_red.
    rewrite (Reqb_true (sqrt (2 * PI) * 0) 0) by lra.
    unfold NP.scale_inf. rewrite (Rltb_true 0 1) by lra. reflexivity.
  - intros [-> | ->].
    + np_red. rewrite (Rltb_false (2 * PI) 0) by lra. np_red.
      unfold NP.scale_inf. rewrite (Rltb_true 0 (sqrt (2 * PI))) by exact Hq. np_red.
      rewrite (Rltb_false 0 0) by lra. reflexivity.
    + np_red. rewrite (Rltb_false (2 * PI) 0) by lra. np_red.
      unfold NP.scale_inf. rewrite (Rltb_true 0 (sqrt (2 * PI))) by exact Hq. np_red.
      rewrite (Rltb_false 0 0) by lra. reflexivity.
  - intros ->. np_red. rewrite (Rltb_false (2 * PI) 0) by lra. reflexivity.
Qed.

Lemma log_norm_finite_iff (s : npfloat) :
  finite (NP.log (1 / (NP.sqrt (2 * PI) * s))%np) <-> positive s.
Proof.
  destruct (log_norm_cases s) as (Hpos & Hneg & Hzero & Hinf & Hnan).
  split.
  - intros [z E]. destruct s as [sr | | |].
    + destruct (Rtotal_order sr 0) as [Hlt | [-> | Hgt]].
      * rewrite (Hneg sr eq_refl Hlt) in E. discriminate.
      * rewrite (Hzero eq_refl) in E. discriminate.
      * exists sr. split; [reflexivity | lra].
    + rewrite Hinf in E by (left; reflexivity). discriminate.
    + rewrite Hinf in E by (right; reflexivity). discriminate.
    + rewrite (Hnan eq_refl) in E. discriminate.
  - intros (sr & -> & Hs). eexists. apply (Hpos sr eq_refl Hs).
Qed.

(** The quadratic part [0.5*(x-m)**2/s**2] over a positive real [s]. *)
Lemma quad_value (x m s : R) :
  0 < s ->
  (0.5 * NP.pow2 (Fin x - Fin m) / NP.pow2 (Fin s))%np
  = Fin (0.5 * ((x - m) * (x - m)) / (s * s)).
Proof.
  intros Hs. assert (Hss : s * s <> 0) by nra.
  np_red. rewrite (Reqb_false (s * s) 0) by exact Hss.
  f_equal.
Qed.

Lemma quad_finite (x m : npfloat) (s : R) :
  0 < s -> finite (0.5 * NP.pow2 (x - m) / NP.pow2 (Fin s))%np -> finite x /\ finite m.
Proof.
  intros Hs. assert (Hss : s * s <> 0) by nra. assert (Hss' : ~ s * s < 0) by nra.
  intros [z E].
  apply sub_finite_iff.
  destruct (x - m)%np as [d | | |]; [eexists; reflexivity | exfalso ..];
    revert E; np_red; unfold NP.scale_inf;
    rewrite ?(Rltb_true 0 0.5) by lra; np_red;
    rewrite ?(Rltb_false (s * s) 0) by exact Hss'; discriminate.
Qed.

Lemma log_gauss_value (x m s : R) :
  0 < s -> log_gauss (Fin x) (Fin m) (Fin s) = Fin (gauss_term x m s).
Proof.
  intros Hs. unfold log_gauss, gauss_term.
  destruct (log_norm_cases (Fin s)) as (Hpos & _).
  rewrite (Hpos s eq_refl Hs), (quad_value x m s Hs). reflexivity.
Qed.

(** Over a positive real standard deviation a Gaussian term is a number,
    [-inf] or [nan]: never [+inf]. *)
Lemma log_gauss_not_pinf (x m : npfloat) (s : R) :
  0 < s -> log_gauss x m (Fin s) <> PInf.
Proof.
  intros Hs. assert (Hss : s * s <> 0) by nra. assert (Hss' : ~ s * s < 0) by nra.
  unfold log_gauss.
  destruct (log_norm_cases (Fin s)) as (Hpos & _). rewrite (Hpos s eq_refl Hs).
  destruct (x - m)%np as [d | | |]; np_red; unfold NP.scale_inf;
    rewrite ?(Rltb_true 0 0.5) by lra; np_red;
    rewrite ?(Reqb_false (s * s) 0) by exact Hss;
    rewrite ?(Rltb_false (s * s) 0) by exact Hss'; np_red; discriminate.
Qed.

Lemma add_not_pinf (a b : npfloat) : a <> PInf -> b <> PInf -> (a + b)%np <> PInf.
Proof. destruct a, b; cbn [NP.add]; intros Ha Hb; congruence. Qed.

Lemma log_gauss_finite_iff (x m s : npfloat) :
  finite (log_gauss x m s) <-> finite x /\ finite m /\ positive s.
Proof.
  split.
  - unfold log_gauss. intros H. apply sub_finite_iff in H. destruct H as [H1 H2].
    apply log_norm_finite_iff in H1. destruct H1 as (sr & -> & Hs).
    destruct (quad_finite x m sr Hs H2) as [Hx Hm].
    split; [exact Hx | split; [exact Hm |]]. exists sr. split; [reflexivity | exact Hs].
  - intros ([xr ->] & [mr ->] & (sr & -> & Hs)).
    eexists. apply log_gauss_value. exact Hs.
Qed.

Lemma positive_scaled (a : npfloat) (c : R) :
  0 < c -> (positive (a * c)%np <-> positive a).
Proof.
  intros Hc. unfold positive. split.
  - destruct a as [x | | |]; cbn [NP.mul]; unfold NP.scale_inf;
      rewrite ?(Rltb_true 0 c) by exact Hc; intros (y & E & Hy); try discriminate.
    injection E as <-. exists x. split; [reflexivity |]. nra.
  - intros (x & -> & Hx). exists (x * c). split; [reflexivity |].
    apply Rmult_lt_0_compat; assumption.
Qed.

(** Within the bounds, [lnprior] is finite exactly when all it reads is usable. *)
Lemma lnprior_finite_usable (theta s m : vec14) :
  is_within_bounds theta = true ->
  (finite (lnprior theta s m) <->
   finite (v8 theta) /\ finite (v13 theta) /\ usable_priors s m).
Proof.
  intros Hb. rewrite (lnprior_within_bounds theta s m Hb).
  destruct (within_bounds_reals theta Hb)
    as ((s1 & s2 & s3 & s4 & E0 & E1 & E2 & E3 & _) & _ &
        (u1 & u2 & u3 & u4 & E9 & E10 & E11 & E12 & _) & _).
  rewrite !add_finite_iff, !log_gauss_finite_iff.
  rewrite (positive_scaled (v13 m) 0.8) by lra.
  rewrite (positive_scaled (v13 m) 0.3) by lra.
  rewrite E0, E1, E2, E3, E9, E10, E11, E12.
  unfold usable_priors.
  assert (F : forall x : R, finite (Fin x)) by (intros x; exists x; reflexivity).
  pose proof (positive_finite (v13 m)).
  split; intros H'; decompose [and] H'; repeat split; auto.
Qed.

Lemma gauss_term_le_peak (x m s : R) : 0 < s -> gauss_term x m s <= gauss_term m m s.
Proof.
  intros Hs. unfold gauss_term.
  assert (H0 : 0 <= 0.5 * ((x - m) * (x - m)) / (s * s)).
  { apply Rmult_le_pos;
      [| left; apply Rinv_0_lt_compat; apply Rmult_lt_0_compat; assumption].
    pose proof (Rle_0_sqr (x - m)) as Hsq. unfold Rsqr in Hsq. lra. }
  replace (0.5 * ((m - m) * (m - m)) / (s * s)) with 0; [lra |].
  replace ((m - m) * (m - m)) with 0 by ring. unfold Rdiv. ring.
Qed.

Section PosteriorCost.

Variables cm ckm h k : R.
Variable MolCat : Type.
Variable mol_sim :
  npfloat -> npfloat -> npfloat -> npfloat -> MolCat ->
  list npfloat * list npfloat * list npfloat.

Lemma lnprob_not_finite (theta : vec14) (dg : datagrid) (mol_cat : MolCat)
    (s m : vec14) (c : calls) :
  ~ finite (lnprior theta s m) ->
  lnprob cm ckm h k MolCat mol_sim theta dg mol_cat s m c = (Some NInf, c).
Proof.
  intros H. unfold lnprob.
  destruct (lnprior theta s m) as [x | | |]; try reflexivity.
  exfalso. apply H. exists x. reflexivity.
Qed.

Lemma lnprob_finite_prior (theta : vec14) (dg : datagrid) (mol_cat : MolCat)
    (s m : vec14) (c : calls) (lp : R) :
  lnprior theta s m = Fin lp ->
  lnprob cm ckm h k MolCat mol_sim theta dg mol_cat s m c
  = (match fst (lnlike cm ckm h k MolCat mol_sim theta dg mol_cat c) with
     | Some ll => Some (Fin lp + ll)%np
     | None => None
     end,
     snd (lnlike cm ckm h k MolCat mol_sim theta dg mol_cat c)).
Proof.
  intros E. unfold lnprob. rewrite E. cbn [NP.isfinite negb]. unfold bind, ret.
  destruct (lnlike cm ckm h k MolCat mol_sim theta dg mol_cat c) as [[ll |] c'];
    reflexivity.
Qed.

(** X2: [lnprob] reaches the forward model exactly when the prior is a real
    number, which is the case exactly when [theta] is within the bounds with a
    real [Tex] and a real [dV] and every entry of the priors that [lnprior]
    reads is usable (real means; real, positive standard deviations at the
    indices 0-3 and 8; a real, positive mean line width).  Then an evaluation
    makes the four simulator calls; otherwise it returns [-inf] with no call
    made: so it does for a standard deviation that is zero, negative, infinite
    or [nan], whatever [theta] is. *)
Theorem lnprob_reaches_simulator_iff (theta : vec14) (dg : datagrid) (mol_cat : MolCat)
    (s m : vec14) (c : calls) :
  (finite (lnprior theta s m) <->
   is_within_bounds theta = true /\ finite (v8 theta) /\ finite (v13 theta) /\
   usable_priors s m) /\
  (finite (lnprior theta s m) <->
   predict_calls (snd (lnprob cm ckm h k MolCat mol_sim theta dg mol_cat s m c))
   = (4 + predict_calls c)%nat) /\
  (~ finite (lnprior theta s m) <->
   lnprob cm ckm h k MolCat mol_sim theta dg mol_cat s m c = (Some NInf, c)).
Proof.
  assert (Hrun : finite (lnprior theta s m) ->
                 predict_calls
                   (snd (lnprob cm ckm h k MolCat mol_sim theta dg mol_cat s m c))
                 = (4 + predict_calls c)%nat).
  { intros [lp E]. rewrite (lnprob_finite_prior theta dg mol_cat s m c lp E).
    cbn [snd]. apply lnlike_calls_simulator. }
  split; [| split].
  - split.
    + intros Hf. destruct (is_within_bounds theta) eqn:Hb.
      * split; [reflexivity |]. apply (lnprior_finite_usable theta s m Hb). exact Hf.
      * rewrite (lnprior_out_of_bounds theta s m Hb) in Hf. destruct Hf as [z E].
        discriminate.
    + intros (Hb & H). apply (lnprior_finite_usable theta s m Hb). exact H.
  - split; [exact Hrun |].
    intros Hc. destruct (lnprior theta s m) as [x | | |] eqn:E;
      [exists x; reflexivity | exfalso ..];
      rewrite lnprob_not_finite in Hc
        by (rewrite E; intros [z Ez]; discriminate);
      cbn [snd] in Hc; lia.
  - split; [apply lnprob_not_finite |].
    intros E Hf. apply Hrun in Hf. rewrite E in Hf. cbn [snd] in Hf. lia.
Qed.

End PosteriorCost.

(** The value of the prior where it is a number. *)
Lemma lnprior_value (theta s m : vec14) (x0 x1 x2 x3 x8 x9 x10 x11 x12 x13 : R)
    (s0 s1 s2 s3 s8 m0 m1 m2 m3 m8 m9 m10 m11 m12 m13 : R) :
  is_within_bounds theta = true ->
  v0 theta = Fin x0 -> v1 theta = Fin x1 -> v2 theta = Fin x2 -> v3 theta = Fin x3 ->
  v8 theta = Fin x8 -> v9 theta = Fin x9 -> v10 theta = Fin x10 ->
  v11 theta = Fin x11 -> v12 theta = Fin x12 -> v13 theta = Fin x13 ->
  v0 s = Fin s0 -> v1 s = Fin s1 -> v2 s = Fin s2 -> v3 s = Fin s3 -> v8 s = Fin s8 ->
  v0 m = Fin m0 -> v1 m = Fin m1 -> v2 m = Fin m2 -> v3 m = Fin m3 -> v8 m = Fin m8 ->
  v9 m = Fin m9 -> v10 m = Fin m10 -> v11 m = Fin m11 -> v12 m = Fin m12 ->
  v13 m = Fin m13 ->
  0 < s0 -> 0 < s1 -> 0 < s2 -> 0 < s3 -> 0 < s8 -> 0 < m13 ->
  lnprior theta s m
  = Fin (gauss_term x0 m0 s0 + gauss_term x1 m1 s1 + gauss_term x2 m2 s2
         + gauss_term x3 m3 s3 + gauss_term x8 m8 s8
         + gauss_term x9 m9 (m13 * 0.8) + gauss_term x10 m10 (m13 * 0.8)
         + gauss_term x11 m11 (m13 * 0.8) + gauss_term x12 m12 (m13 * 0.8)
         + gauss_term x13 m13 (m13 * 0.3)).
Proof.
  intros Hb. intros.
  rewrite (lnprior_within_bounds theta s m Hb).
  repeat match goal with E : _ = Fin _ |- _ => rewrite E; clear E end.
  cbn [NP.mul].
  rewrite !log_gauss_value by lra. reflexivity.
Qed.

(** X3: the prior peaks at the prior means.  With usable priors whose means lie
    within the bounds, [lnprior] is a real number at the means, and at no
    [theta] within the bounds is it larger. *)
Theorem lnprior_peaks_at_means (theta s m : vec14) :
  usable_priors s m -> is_within_bounds m = true ->
  is_within_bounds theta = true ->
  exists top : R,
    lnprior m s m = Fin top /\
    ((lnprior m s m <? lnprior theta s m)%np = false) /\
    (forall p : R, lnprior theta s m = Fin p -> p <= top).
Proof.
  unfold usable_priors.
  intros ((s0 & Es0 & Hs0) & (s1 & Es1 & Hs1) & (s2 & Es2 & Hs2) & (s3 & Es3 & Hs3) &
          (s8 & Es8 & Hs8) & [m0 Em0] & [m1 Em1] & [m2 Em2] & [m3 Em3] & [m8 Em8] &
          [m9 Em9] & [m10 Em10] & [m11 Em11] & [m12 Em12] & (m13 & Em13 & Hm13)) Hbm Hb.
  pose proof (lnprior_value m s m m0 m1 m2 m3 m8 m9 m10 m11 m12 m13
                s0 s1 s2 s3 s8 m0 m1 m2 m3 m8 m9 m10 m11 m12 m13 Hbm
                Em0 Em1 Em2 Em3 Em8 Em9 Em10 Em11 Em12 Em13 Es0 Es1 Es2 Es3 Es8
                Em0 Em1 Em2 Em3 Em8 Em9 Em10 Em11 Em12 Em13
                Hs0 Hs1 Hs2 Hs3 Hs8 Hm13) as Etop.
  eexists. split; [exact Etop |].
  assert (Hle : forall p : R, lnprior theta s m = Fin p ->
                  p <= gauss_term m0 m0 s0 + gauss_term m1 m1 s1 + gauss_term m2 m2 s2
                       + gauss_term m3 m3 s3 + gauss_term m8 m8 s8
                       + gauss_term m9 m9 (m13 * 0.8) + gauss_term m10 m10 (m13 * 0.8)
                       + gauss_term m11 m11 (m13 * 0.8) + gauss_term m12 m12 (m13 * 0.8)
                       + gauss_term m13 m13 (m13 * 0.3)).
  { intros p Ep.
    assert (Hf : finite (lnprior theta s m)) by (exists p; exact Ep).
    apply (lnprior_finite_usable theta s m Hb) in Hf.
    destruct Hf as ([x8 Ex8] & [x13 Ex13] & _).
    destruct (within_bounds_reals theta Hb)
      as ((x0 & x1 & x2 & x3 & Ex0 & Ex1 & Ex2 & Ex3 & _) & _ &
          (x9 & x10 & x11 & x12 & Ex9 & Ex10 & Ex11 & Ex12 & _) & _).
    rewrite (lnprior_value theta s m x0 x1 x2 x3 x8 x9 x10 x11 x12 x13
               s0 s1 s2 s3 s8 m0 m1 m2 m3 m8 m9 m10 m11 m12 m13 Hb
               Ex0 Ex1 Ex2 Ex3 Ex8 Ex9 Ex10 Ex11 Ex12 Ex13 Es0 Es1 Es2 Es3 Es8
               Em0 Em1 Em2 Em3 Em8 Em9 Em10 Em11 Em12 Em13
               Hs0 Hs1 Hs2 Hs3 Hs8 Hm13) in Ep.
    injection Ep as <-.
    pose proof (gauss_term_le_peak x0 m0 s0 Hs0).
    pose proof (gauss_term_le_peak x1 m1 s1 Hs1).
    pose proof (gauss_term_le_peak x2 m2 s2 Hs2).
    pose proof (gauss_term_le_peak x3 m3 s3 Hs3).
    pose proof (gauss_term_le_peak x8 m8 s8 Hs8).
    assert (Hw8 : 0 < m13 * 0.8) by lra. assert (Hw3 : 0 < m13 * 0.3) by lra.
    pose proof (gauss_term_le_peak x9 m9 _ Hw8).
    pose proof (gauss_term_le_peak x10 m10 _ Hw8).
    pose proof (gauss_term_le_peak x11 m11 _ Hw8).
    pose proof (gauss_term_le_peak x12 m12 _ Hw8).
    pose proof (gauss_term_le_peak x13 m13 _ Hw3).
    lra. }
  split; [| exact Hle].
  rewrite Etop.
  destruct (lnprior theta s m) as [p | | |] eqn:Ep; cbn [NP.ltb]; try reflexivity.
  - apply Rltb_false. specialize (Hle p eq_refl). lra.
  - exfalso.
    rewrite (lnprior_within_bounds theta s m Hb) in Ep.
    rewrite Es0, Es1, Es2, Es3, Es8, Em13 in Ep. cbn [NP.mul] in Ep.
    revert Ep.
    match goal with |- ?a = PInf -> False => change (a <> PInf) end.
    repeat match goal with
           | |- (_ + log_gauss _ _ _)%np <> PInf => apply add_not_pinf
           end; apply log_gauss_not_pinf; lra.
Qed.

Lemma template_priors_usable : usable_priors template_prior_stds template_initial.
Proof.
  unfold usable_priors, positive, finite, template_prior_stds, template_initial.
  cbn [v0 v1 v2 v3 v4 v5 v6 v7 v8 v9 v10 v11 v12 v13].
  repeat split; eexists; try split; try reflexivity; lra.
Qed.

(** The witness: the template priors, and the template vector with a line
    width of 0.2 km/s. *)
Lemma lnprior_peaks_at_means_witness :
  usable_priors template_prior_stds template_initial /\
  is_within_bounds template_initial = true /\
  is_within_bounds (with_dV template_initial 0.2) = true /\
  exists top : R,
    lnprior template_initial template_prior_stds template_initial = Fin top /\
    ((lnprior template_initial template_prior_stds template_initial
      <? lnprior (with_dV template_initial 0.2) template_prior_stds template_initial)%np
     = false) /\
    (forall p : R,
       lnprior (with_dV template_initial 0.2) template_prior_stds template_initial = Fin p ->
       p <= top).
Proof.
  assert (Hb : is_within_bounds (with_dV template_initial 0.2) = true).
  { apply is_within_bounds_with_dV; [apply template_initial_within_bounds | lra]. }
  split; [exact template_priors_usable |].
  split; [exact template_initial_within_bounds |].
  split; [exact Hb |].
  exact (lnprior_peaks_at_means (with_dV template_initial 0.2) template_prior_stds
           template_initial template_priors_usable template_initial_within_bounds Hb).
Defined.

(** ** Priors taken from the percentiles of a chain *)

Lemma list_to_vec14_inv (a : list npfloat) (v : vec14) :
  list_to_vec14 a = Some v -> a = vec14_to_list v.
Proof.
  unfold list_to_vec14.
  do 14 (destruct a as [| ? a]; [discriminate |]).
  destruct a; [| discriminate].
  intros E. injection E as <-. reflexivity.
Qed.

Lemma nth_error_map2 {A B C : Type} (f : A -> B -> C) (a : list A) (b : list B)
    (j : nat) (x : A) (y : B) :
  nth_error a j = Some x -> nth_error b j = Some y ->
  nth_error (map2 f a b) j = Some (f x y).
Proof.
  revert b j. induction a as [| x0 a IH]; intros [| y0 b] [| j]; cbn; try discriminate.
  - intros E1 E2. injection E1 as ->. injection E2 as ->. reflexivity.
  - apply IH.
Qed.

(** Entry [j] of the standard deviations computed from the percentiles. *)
Lemma percentile_priors_entry (means p16 p84 : list npfloat) (s m : vec14) (j : nat)
    (a b c : npfloat) :
  percentile_priors means p16 p84 = Some (s, m) ->
  nth_error p16 j = Some a -> nth_error p84 j = Some b -> nth_error means j = Some c ->
  nth j (vec14_to_list s) NaN = NP.abs ((a + b - 2 * c) / 2)%np /\
  nth j (vec14_to_list m) NaN = c.
Proof.
  unfold percentile_priors, zip_same. intros H Ha Hb Hc.
  destruct (length p16 =? length p84)%nat; [| discriminate].
  destruct (length (map2 NP.add p16 p84) =? _)%nat; [| discriminate].
  destruct (list_to_vec14 means) as [m' |] eqn:Em; [| discriminate].
  destruct (list_to_vec14 _) as [s' |] eqn:Es in H; [| discriminate].
  injection H as <- <-.
  apply list_to_vec14_inv in Em, Es. rewrite <- Em, <- Es.
  split.
  - apply nth_error_nth_NaN.
    rewrite !nth_error_map.
    rewrite (nth_error_map2 NP.sub _ _ j (a + b)%np (2 * c)%np).
    + reflexivity.
    + apply nth_error_map2; assumption.
    + rewrite nth_error_map, Hc. reflexivity.
  - apply nth_error_nth_NaN. exact Hc.
Qed.

Lemma not_positive_zero : ~ positive (Fin 0).
Proof. intros (x & E & Hx). injection E as <-. lra. Qed.

Section PercentilePriors.

Variables cm ckm h k : R.
Variable MolCat : Type.
Variable mol_sim :
  npfloat -> npfloat -> npfloat -> npfloat -> MolCat ->
  list npfloat * list npfloat * list npfloat.

(** X4: the standard deviation that [fit_multi_gaussian] derives from the
    percentiles of an earlier chain is, at each index, the distance between
    the mean and the midpoint of the 16th and 84th percentiles,
    [|(p16 + p84)/2 - mean|]: it measures the skew of the chain, not its
    width.  Where the two percentiles lie at equal distances below and above
    the mean, it is zero; when this happens at one of the indices that
    [lnprior] reads (0-3 and 8), [lnprob] returns [-inf] at every [theta],
    without a call of the forward model. *)
Theorem symmetric_percentiles_give_zero_std (means p16 p84 : list npfloat) (s m : vec14)
    (j : nat) (a b c : R) :
  percentile_priors means p16 p84 = Some (s, m) ->
  nth_error p16 j = Some (Fin a) -> nth_error p84 j = Some (Fin b) ->
  nth_error means j = Some (Fin c) ->
  nth j (vec14_to_list s) NaN = Fin (Rabs ((a + b) / 2 - c)) /\
  (c - a = b - c ->
   nth j (vec14_to_list s) NaN = Fin 0 /\
   (In j [0; 1; 2; 3; 8]%nat ->
    forall (theta : vec14) (dg : datagrid) (mol_cat : MolCat) (cnt : calls),
      lnprob cm ckm h k MolCat mol_sim theta dg mol_cat s m cnt = (Some NInf, cnt))).
Proof.
  intros H Ha Hb Hc.
  destruct (percentile_priors_entry means p16 p84 s m j a b c H Ha Hb Hc) as [Es _].
  assert (Ev : nth j (vec14_to_list s) NaN = Fin (Rabs ((a + b) / 2 - c))).
  { rewrite Es. cbn [NP.add NP.sub NP.mul NP.neg NP.div NP.abs].
    rewrite (Reqb_false 2 0) by lra. cbn [NP.abs]. do 2 f_equal. lra. }
  split; [exact Ev |].
  intros Hsym.
  assert (E0 : nth j (vec14_to_list s) NaN = Fin 0).
  { rewrite Ev. f_equal. replace ((a + b) / 2 - c) with 0 by lra. apply Rabs_R0. }
  split; [exact E0 |].
  intros Hj theta dg mol_cat cnt.
  apply lnprob_not_finite. intros Hf.
  assert (Hu : usable_priors s m).
  { destruct (is_within_bounds theta) eqn:Hbd.
    - apply (lnprior_finite_usable theta s m Hbd). exact Hf.
    - rewrite (lnprior_out_of_bounds theta s m Hbd) in Hf. destruct Hf as [z Ez].
      discriminate. }
  destruct Hu as (P0 & P1 & P2 & P3 & P8 & _).
  cbn [In] in Hj.
  destruct Hj as [<- | [<- | [<- | [<- | [<- | []]]]]]; cbn [nth vec14_to_list] in E0;
    rewrite E0 in *; eapply not_positive_zero; eassumption.
Qed.

End PercentilePriors.

(** The witness: percentiles one unit below and one unit above the template
    means. *)
Lemma symmetric_percentiles_witness :
  exists s m : vec14,
    percentile_priors template_means_array percentiles_below percentiles_above
    = Some (s, m) /\
    nth 0 (vec14_to_list s) NaN = Fin 0 /\
    forall (theta : vec14) (cnt : calls),
      lnprob 29979245800 299792.458 6.626e-27 1.381e-16 unit
             (fun _ _ _ _ _ => ([], [], [])) theta (Datagrid [] [] [] []) tt s m cnt
      = (Some NInf, cnt).
Proof.
  eexists. eexists.
  assert (E : percentile_priors template_means_array percentiles_below percentiles_above
              = Some (_, _)) by reflexivity.
  split; [exact E |].
  pose proof (symmetric_percentiles_give_zero_std
                29979245800 299792.458 6.626e-27 1.381e-16 unit
                (fun _ _ _ _ _ => ([], [], []))
                template_means_array percentiles_below percentiles_above _ _
                0%nat (37 - 1) (37 + 1) 37 E) as W.
  cbn [nth_error template_means_array percentiles_below percentiles_above
       vec14_to_list template_initial map v0 NP.sub NP.add NP.neg] in W.
  specialize (W ltac:(f_equal; f_equal; lra) ltac:(f_equal; f_equal; lra) eq_refl).
  destruct W as [_ W]. specialize (W ltac:(lra)). destruct W as [W0 W].
  split; [exact W0 |].
  intros theta cnt. apply W. left. reflexivity.
Defined.

(** ** Shapes in the forward model *)

Lemma map2_length {A B C : Type} (f : A -> B -> C) (a : list A) (b : list B) :
  length a = length b -> length (map2 f a b) = length a.
Proof.
  revert b. induction a as [| x a IH]; intros [| y b]; cbn; try discriminate;
    [reflexivity |].
  intros E. f_equal. apply IH. lia.
Qed.

Lemma add_where_length (model : list npfloat) (mask : list bool) (vel : list npfloat)
    (f : npfloat -> npfloat) :
  length model = length vel -> length mask = length vel ->
  length (add_where model mask vel f) = length vel.
Proof.
  revert mask vel. induction model as [| m model IH]; intros [| b mask] [| v vel];
    cbn; try discriminate; try reflexivity.
  intros E1 E2. f_equal. apply IH; lia.
Qed.


Lemma add_where_nonnegative (model vel : list npfloat) (maskf : npfloat -> bool)
    (f : npfloat -> npfloat) :
  (forall v, In v vel -> maskf v = true -> nonnegative (f v)) ->
  Forall nonnegative model ->
  Forall nonnegative (add_where model (map maskf vel) vel f).
Proof.
  intros Hf Hm. revert vel Hf. induction Hm as [| m model (x & -> & Hx) _ IH];
    intros [| v vel] Hf; cbn [map add_where]; try constructor.
  - destruct (maskf v) eqn:E.
    + destruct (Hf v (or_introl eq_refl) E) as (y & -> & Hy).
      exists (x + y). split; [reflexivity | lra].
    + exists x. split; [reflexivity | exact Hx].
  - apply IH. intros w Hw. apply Hf. right. exact Hw.
Qed.

(** ** Element-wise operations that can raise *)

Lemma map_raise_defined {A B : Type} (f : A -> option B) (a : list A) :
  Forall (fun x => f x <> None) a ->
  exists ys, map_raise f a = Some ys /\ Forall2 (fun x y => f x = Some y) a ys.
Proof.
  induction 1 as [| x a Hx _ (ys & E & H2)]; cbn [map_raise].
  - exists []. split; [reflexivity | constructor].
  - destruct (f x) as [y |] eqn:Ex; [| contradiction]. rewrite E.
    exists (y :: ys). split; [reflexivity | constructor; assumption].
Qed.

Lemma Forall2_same_length {A B : Type} (P : A -> B -> Prop) (a : list A) (b : list B) :
  Forall2 P a b -> length b = length a.
Proof. intros H. symmetry. eapply Forall2_length. exact H. Qed.

Section ForwardModel.

Variables cm ckm h k : R.

(** One pass of the loop of [make_model] keeps a property [P] of the
    accumulators that every line keeps. *)
Lemma add_lines_invariant (P : models -> Prop)
    (freqs1 ints1 ints2 ints3 ints4 datagrid0 : list npfloat)
    (vlsr1 vlsr2 vlsr3 vlsr4 dV : npfloat) (lines : list nat) (acc : models) :
  (forall i acc0, In i lines -> P acc0 ->
     exists acc1,
       add_line ckm freqs1 ints1 ints2 ints3 ints4 datagrid0
                vlsr1 vlsr2 vlsr3 vlsr4 dV acc0 i = Some acc1 /\ P acc1) ->
  P acc ->
  exists acc',
    add_lines ckm freqs1 ints1 ints2 ints3 ints4 datagrid0
              vlsr1 vlsr2 vlsr3 vlsr4 dV lines acc = Some acc' /\ P acc'.
Proof.
  revert acc. induction lines as [| i lines IH]; intros acc Hstep Hacc; cbn [add_lines].
  - exists acc. split; [reflexivity | exact Hacc].
  - destruct (Hstep i acc (or_introl eq_refl) Hacc) as (acc1 & E1 & H1).
    rewrite E1. apply IH; [| exact H1].
    intros j acc0 Hj. apply Hstep. right. exact Hj.
Qed.

Lemma nth_error_Forall {A : Type} (P : A -> Prop) (a : list A) (i : nat) (x : A) :
  Forall P a -> nth_error a i = Some x -> P x.
Proof.
  intros H E. rewrite Forall_forall in H. apply H. eapply nth_error_In. exact E.
Qed.

Lemma nth_error_in_range {A : Type} (a : list A) (i : nat) :
  (i < length a)%nat -> exists x, nth_error a i = Some x.
Proof.
  intros H. destruct (nth_error a i) as [x |] eqn:E; [exists x; reflexivity |].
  apply nth_error_None in E. lia.
Qed.

(** A line whose index is within the five arrays it reads adds to the four
    accumulators and keeps their shape. *)
Lemma add_line_returns (freqs1 ints1 ints2 ints3 ints4 datagrid0 : list npfloat)
    (vlsr1 vlsr2 vlsr3 vlsr4 dV : npfloat) (acc : models) (i : nat) :
  (i < length freqs1)%nat -> (i < length ints1)%nat -> (i < length ints2)%nat ->
  (i < length ints3)%nat -> (i < length ints4)%nat ->
  models_shape (length datagrid0) acc ->
  exists f1 a1 a2 a3 a4,
    nth_error freqs1 i = Some f1 /\ nth_error ints1 i = Some a1 /\
    nth_error ints2 i = Some a2 /\ nth_error ints3 i = Some a3 /\
    nth_error ints4 i = Some a4 /\
    let vel_grid := map (fun d0 => ((f1 - d0) / f1 * ckm)%np) datagrid0 in
    let maskf := fun v => lt_fastmath (NP.abs (v - 5.8)) (dV * 10)%np in
    let '(model1, model2, model3, model4) := acc in
    let acc' :=
      (add_where model1 (map maskf vel_grid) vel_grid (fun v => (a1 * profile vlsr1 dV v)%np),
       add_where model2 (map maskf vel_grid) vel_grid (fun v => (a2 * profile vlsr2 dV v)%np),
       add_where model3 (map maskf vel_grid) vel_grid (fun v => (a3 * profile vlsr3 dV v)%np),
       add_where model4 (map maskf vel_grid) vel_grid (fun v => (a4 * profile vlsr4 dV v)%np)) in
    add_line ckm freqs1 ints1 ints2 ints3 ints4 datagrid0
             vlsr1 vlsr2 vlsr3 vlsr4 dV acc i = Some acc' /\
    models_shape (length datagrid0) acc'.
Proof.
  intros H0 H1 H2 H3 H4 Hs.
  destruct (nth_error_in_range freqs1 i H0) as [f1 E0].
  destruct (nth_error_in_range ints1 i H1) as [a1 E1].
  destruct (nth_error_in_range ints2 i H2) as [a2 E2].
  destruct (nth_error_in_range ints3 i H3) as [a3 E3].
  destruct (nth_error_in_range ints4 i H4) as [a4 E4].
  exists f1, a1, a2, a3, a4. repeat (split; [assumption |]).
  destruct acc as [[[model1 model2] model3] model4]. cbv zeta.
  unfold add_line. rewrite E0, E1, E2, E3, E4.
  split; [reflexivity |].
  destruct Hs as (L1 & L2 & L3 & L4). unfold models_shape.
  rewrite !add_where_length; rewrite ?length_map; auto.
Qed.

Lemma diluted_length (datagrid0 J_T J_Tbg model : list npfloat) (ss : npfloat) :
  length J_T = length datagrid0 -> length J_Tbg = length datagrid0 ->
  length model = length datagrid0 ->
  length (diluted cm datagrid0 J_T J_Tbg model ss) = length datagrid0.
Proof.
  intros LT Lbg Lm. unfold diluted.
  assert (LJ : length (map2 NP.sub J_T J_Tbg) = length datagrid0)
    by (rewrite map2_length; congruence).
  rewrite map2_length; [reflexivity |].
  rewrite map2_length; congruence.
Qed.

Lemma zeros_shape (n : nat) : models_shape n (zeros n, zeros n, zeros n, zeros n).
Proof. unfold models_shape. rewrite zeros_length. auto. Qed.

Lemma four_models_length (datagrid0 datagrid1 d1 d2 d3 d4 : list npfloat) :
  length datagrid0 = length datagrid1 ->
  length d1 = length datagrid0 -> length d2 = length datagrid0 ->
  length d3 = length datagrid0 -> length d4 = length datagrid0 ->
  length (map2 NP.add (map2 NP.add (map2 NP.add d1 d2) d3) d4) = length datagrid1.
Proof.
  intros Hlen E1 E2 E3 E4.
  assert (E12 : length (map2 NP.add d1 d2) = length datagrid0)
    by (rewrite map2_length; congruence).
  assert (E123 : length (map2 NP.add (map2 NP.add d1 d2) d3) = length datagrid0)
    by (rewrite map2_length; congruence).
  rewrite map2_length; congruence.
Qed.

(** What [make_model] returns once its loop and its two Planck terms have
    returned. *)
Lemma make_model_after_loop
    (freqs1 freqs2 freqs3 freqs4 ints1 ints2 ints3 ints4 : list npfloat)
    (ss1 ss2 ss3 ss4 : npfloat) (datagrid0 datagrid1 : list npfloat)
    (vlsr1 vlsr2 vlsr3 vlsr4 dV Tex : npfloat)
    (model1 model2 model3 model4 J_T J_Tbg : list npfloat) :
  length datagrid0 = length datagrid1 ->
  add_lines ckm freqs1 ints1 ints2 ints3 ints4 datagrid0 vlsr1 vlsr2 vlsr3 vlsr4 dV
            (seq 0 (length freqs1))
            (zeros (length datagrid0), zeros (length datagrid0),
             zeros (length datagrid0), zeros (length datagrid0))
  = Some (model1, model2, model3, model4) ->
  map_raise (planck h k Tex) datagrid0 = Some J_T ->
  map_raise (planck h k 2.7) datagrid0 = Some J_Tbg ->
  make_model cm ckm h k freqs1 freqs2 freqs3 freqs4 ints1 ints2 ints3 ints4
             ss1 ss2 ss3 ss4 datagrid0 datagrid1 vlsr1 vlsr2 vlsr3 vlsr4 dV Tex
  = Some (map2 NP.add
            (map2 NP.add
               (map2 NP.add (diluted cm datagrid0 J_T J_Tbg model1 ss1)
                            (diluted cm datagrid0 J_T J_Tbg model2 ss2))
               (diluted cm datagrid0 J_T J_Tbg model3 ss3))
            (diluted cm datagrid0 J_T J_Tbg model4 ss4)).
Proof.
  intros Hlen Hloop HT Hbg. unfold make_model.
  rewrite <- Hlen, Nat.eqb_refl. cbn [negb]. rewrite Hloop, HT, Hbg. reflexivity.
Qed.

(** The loop of [make_model] returns when each amplitude array has an entry
    for every line, and keeps the shape of the accumulators. *)
Lemma add_lines_return (freqs1 ints1 ints2 ints3 ints4 datagrid0 : list npfloat)
    (vlsr1 vlsr2 vlsr3 vlsr4 dV : npfloat) :
  (length freqs1 <= length ints1)%nat -> (length freqs1 <= length ints2)%nat ->
  (length freqs1 <= length ints3)%nat -> (length freqs1 <= length ints4)%nat ->
  exists acc,
    add_lines ckm freqs1 ints1 ints2 ints3 ints4 datagrid0 vlsr1 vlsr2 vlsr3 vlsr4 dV
              (seq 0 (length freqs1))
              (zeros (length datagrid0), zeros (length datagrid0),
               zeros (length datagrid0), zeros (length datagrid0))
    = Some acc /\
    models_shape (length datagrid0) acc.
Proof.
  intros H1 H2 H3 H4.
  apply (add_lines_invariant (models_shape (length datagrid0))).
  - intros i acc0 Hi Hacc. apply in_seq in Hi.
    destruct (add_line_returns freqs1 ints1 ints2 ints3 ints4 datagrid0
                vlsr1 vlsr2 vlsr3 vlsr4 dV acc0 i)
      as (f1 & a1 & a2 & a3 & a4 & _ & _ & _ & _ & _ & Hret); try lia; [exact Hacc |].
    destruct acc0 as [[[m1 m2] m3] m4]. cbv zeta in Hret.
    eexists. exact Hret.
  - apply zeros_shape.
Qed.

(** [make_model] returns one value per channel when neither Planck term
    divides by zero on a channel. *)
Lemma make_model_returns
    (freqs1 freqs2 freqs3 freqs4 ints1 ints2 ints3 ints4 : list npfloat)
    (ss1 ss2 ss3 ss4 : npfloat) (datagrid0 datagrid1 : list npfloat)
    (vlsr1 vlsr2 vlsr3 vlsr4 dV Tex : npfloat) :
  length datagrid0 = length datagrid1 ->
  (length freqs1 <= length ints1)%nat -> (length freqs1 <= length ints2)%nat ->
  (length freqs1 <= length ints3)%nat -> (length freqs1 <= length ints4)%nat ->
  planck_defined h k Tex datagrid0 ->
  exists curr_model,
    make_model cm ckm h k freqs1 freqs2 freqs3 freqs4 ints1 ints2 ints3 ints4
               ss1 ss2 ss3 ss4 datagrid0 datagrid1 vlsr1 vlsr2 vlsr3 vlsr4 dV Tex
    = Some curr_model /\
    length curr_model = length datagrid1.
Proof.
  intros Hlen H1 H2 H3 H4 [HT Hbg].
  destruct (add_lines_return freqs1 ints1 ints2 ints3 ints4 datagrid0
              vlsr1 vlsr2 vlsr3 vlsr4 dV H1 H2 H3 H4)
    as ([[[model1 model2] model3] model4] & Hloop & (L1 & L2 & L3 & L4)).
  destruct (map_raise_defined _ _ HT) as (J_T & ET & FT).
  destruct (map_raise_defined _ _ Hbg) as (J_Tbg & Ebg & Fbg).
  apply Forall2_same_length in FT. apply Forall2_same_length in Fbg.
  eexists. split.
  - apply (make_model_after_loop _ _ _ _ _ _ _ _ _ _ _ _ _ _ _ _ _ _ _ _
             model1 model2 model3 model4 J_T J_Tbg); assumption.
  - apply (four_models_length datagrid0); [exact Hlen | | | |];
      apply diluted_length; congruence.
Qed.

(** ** Where the Planck term divides by zero *)

(** At an infinite temperature the exponent is zero for every real
    frequency. *)
Lemma planck_infinite_temperature (T : npfloat) (x : R) :
  k <> 0 -> T = PInf \/ T = NInf -> planck h k T (Fin x) = None.
Proof.
  intros Hk HT. unfold planck, power_minus_1.
  assert (E : ((h * Fin x * 10 ^ 6) / (k * T))%np = Fin 0).
  { destruct HT as [-> | ->]; cbn [NP.mul]; unfold NP.scale_inf;
      destruct (Rlt_dec 0 k) as [Hp | Hn];
      rewrite ?(Rltb_true _ _ Hp), ?(Rltb_false _ _ Hn);
      try reflexivity;
      rewrite (Rltb_true k 0) by lra; reflexivity. }
  rewrite E. cbn [NP.exp NP.sub NP.add NP.neg].
  rewrite Reqb_true; [reflexivity |]. rewrite exp_0. lra.
Qed.

(** Everywhere else the Planck term returns. *)
Lemma planck_returns (T nu : npfloat) :
  h <> 0 -> k <> 0 ->
  nu <> Fin 0 -> (finite nu -> T <> PInf /\ T <> NInf) ->
  planck h k T nu <> None.
Proof.
  intros Hh Hk Hnu HT. unfold planck.
  assert (Hdef : forall e : npfloat, e <> Fin 0 -> power_minus_1 (NP.exp e - 1)%np <> None).
  { intros e He. unfold power_minus_1.
    destruct e as [y | | |]; cbn [NP.exp NP.sub NP.add NP.neg]; try discriminate.
    - rewrite Reqb_false; [discriminate |].
      intros E. apply He. f_equal. apply exp_inv. rewrite exp_0. lra.
    - rewrite Reqb_false by lra. discriminate. }
  assert (He : ((h * nu * 10 ^ 6) / (k * T))%np <> Fin 0).
  { destruct nu as [x | | |].
    - assert (Hx : x <> 0) by (intros ->; apply Hnu; reflexivity).
      assert (HX : h * x * 10 ^ 6 <> 0).
      { assert (h * x <> 0)
          by (apply Rmult_integral_contrapositive_currified; assumption).
        intros E. apply H. lra. }
      destruct (HT ltac:(exists x; reflexivity)) as [Hp Hn].
      destruct T as [t | | |]; try contradiction; cbn [NP.mul NP.div]; [| discriminate].
      destruct (Req_dec_T (k * t) 0) as [Z | NZ].
      + rewrite (Reqb_true _ _ Z). unfold NP.scale_inf.
        destruct (Rltb 0 (h * x * 10 ^ 6)); [discriminate |].
        destruct (Rltb (h * x * 10 ^ 6) 0); discriminate.
      + rewrite (Reqb_false _ _ NZ). intros E. injection E as E.
        apply (Rmult_integral_contrapositive_currified _ _ HX (Rinv_neq_0_compat _ NZ)).
        exact E.
    - assert (E : (h * PInf * 10 ^ 6)%np = PInf \/ (h * PInf * 10 ^ 6)%np = NInf).
      { cbn [NP.mul]. unfold NP.scale_inf.
        destruct (Rlt_dec 0 h) as [Hp | Hn];
          rewrite ?(Rltb_true _ _ Hp), ?(Rltb_false _ _ Hn).
        - left. cbn [NP.mul]. unfold NP.scale_inf.
          rewrite (Rltb_true 0 (10 ^ 6)) by lra. reflexivity.
        - rewrite (Rltb_true h 0) by lra. right. cbn [NP.mul]. unfold NP.scale_inf.
          rewrite (Rltb_true 0 (10 ^ 6)) by lra. reflexivity. }
      destruct E as [-> | ->]; destruct (k * T)%np as [y | | |]; cbn [NP.div];
        try discriminate; destruct (Rltb y 0); discriminate.
    - assert (E : (h * NInf * 10 ^ 6)%np = PInf \/ (h * NInf * 10 ^ 6)%np = NInf).
      { cbn [NP.mul]. unfold NP.scale_inf.
        destruct (Rlt_dec 0 h) as [Hp | Hn];
          rewrite ?(Rltb_true _ _ Hp), ?(Rltb_false _ _ Hn).
        - right. cbn [NP.mul]. unfold NP.scale_inf.
          rewrite (Rltb_true 0 (10 ^ 6)) by lra. reflexivity.
        - rewrite (Rltb_true h 0) by lra. left. cbn [NP.mul]. unfold NP.scale_inf.
          rewrite (Rltb_true 0 (10 ^ 6)) by lra. reflexivity. }
      destruct E as [-> | ->]; destruct (k * T)%np as [y | | |]; cbn [NP.div];
        try discriminate; destruct (Rltb y 0); discriminate.
    - cbn [NP.mul NP.div]. discriminate. }
  specialize (Hdef _ He).
  destruct (power_minus_1 _); [discriminate | contradiction].
Qed.

(** Without a channel on which [make_model] divides by zero, both Planck
    terms return on every channel. *)
Lemma no_division_by_zero (Tex : npfloat) (datagrid0 : list npfloat) :
  h <> 0 -> k <> 0 ->
  ~ divides_by_zero Tex datagrid0 -> planck_defined h k Tex datagrid0.
Proof.
  intros Hh Hk Hno. unfold divides_by_zero in Hno.
  apply Forall_Exists_neg in Hno.
  split; eapply Forall_impl; try exact Hno; cbn beta; intros nu Hnu;
    apply planck_returns; try assumption.
  - intros ->. apply Hnu. left. reflexivity.
  - intros Hfin. split; intros ->; apply Hnu; right; split; auto.
  - intros ->. apply Hnu. left. reflexivity.
  - intros _. split; discriminate.
Qed.

Lemma division_by_zero (Tex : npfloat) (datagrid0 : list npfloat) :
  k <> 0 ->
  divides_by_zero Tex datagrid0 ->
  Exists (fun nu => planck h k Tex nu = None) datagrid0 \/
  Exists (fun nu => planck h k 2.7 nu = None) datagrid0.
Proof.
  intros Hk Hdiv. unfold divides_by_zero in Hdiv.
  induction Hdiv as [nu rest [-> | ([x ->] & HT)] | nu rest _ [IH | IH]].
  - right. left. apply planck_zero_frequency. exact Hk.
  - left. left. apply planck_infinite_temperature; assumption.
  - left. right. exact IH.
  - right. right. exact IH.
Qed.

(** X5: [make_model] returns one value per channel, or divides by zero.
    With [h] and [k] other than zero, when the two rows of the grid have one
    length and each amplitude array has an entry for every line of [freqs1]:
    if the grid has a channel of frequency zero, or a channel of real
    frequency while [Tex] is infinite, [make_model] raises (the
    [ZeroDivisionError] of the power [-1] in a Planck term); otherwise it
    returns an array of the length of the grid, whatever the values are,
    [nan] and infinities included. *)
Theorem make_model_one_value_per_channel
    (freqs1 freqs2 freqs3 freqs4 ints1 ints2 ints3 ints4 : list npfloat)
    (ss1 ss2 ss3 ss4 : npfloat) (datagrid0 datagrid1 : list npfloat)
    (vlsr1 vlsr2 vlsr3 vlsr4 dV Tex : npfloat) :
  h <> 0 -> k <> 0 ->
  length datagrid0 = length datagrid1 ->
  (length freqs1 <= length ints1)%nat -> (length freqs1 <= length ints2)%nat ->
  (length freqs1 <= length ints3)%nat -> (length freqs1 <= length ints4)%nat ->
  (divides_by_zero Tex datagrid0 ->
   make_model cm ckm h k freqs1 freqs2 freqs3 freqs4 ints1 ints2 ints3 ints4
              ss1 ss2 ss3 ss4 datagrid0 datagrid1 vlsr1 vlsr2 vlsr3 vlsr4 dV Tex
   = None) /\
  (~ divides_by_zero Tex datagrid0 ->
   exists curr_model,
     make_model cm ckm h k freqs1 freqs2 freqs3 freqs4 ints1 ints2 ints3 ints4
                ss1 ss2 ss3 ss4 datagrid0 datagrid1 vlsr1 vlsr2 vlsr3 vlsr4 dV Tex
     = Some curr_model /\
     length curr_model = length datagrid1).
Proof.
  intros Hh Hk Hlen H1 H2 H3 H4. split.
  - intros Hdiv. apply make_model_raises. apply division_by_zero; assumption.
  - intros Hno. apply make_model_returns; try assumption.
    apply no_division_by_zero; assumption.
Qed.

(** ** A line width that is not positive *)



(** ** The beam never amplifies *)

Lemma dilution_range (b s : R) : b <> 0 -> 0 <= dilution b s < 1.
Proof.
  intros Hb. unfold dilution.
  assert (Hb2 : 0 < b * b) by nra.
  assert (Hs2 : 0 <= s * s) by nra.
  assert (HD : 0 < b * b + s * s) by lra.
  split.
  - apply Rmult_le_pos; [exact Hs2 | apply Rlt_le, Rinv_0_lt_compat; exact HD].
  - apply (Rmult_lt_reg_r (b * b + s * s)); [exact HD |].
    unfold Rdiv. rewrite Rmult_assoc, Rinv_l, Rmult_1_r, Rmult_1_l by lra. lra.
Qed.

Lemma dilution_even (b s : R) : dilution b (- s) = dilution b s.
Proof. unfold dilution. f_equal; [| f_equal]; ring. Qed.

Lemma dilution_zero (b : R) : dilution b 0 = 0.
Proof. unfold dilution, Rdiv. ring. Qed.

(** X7: the beam correction attenuates.  For a frequency and a dish size
    other than zero, [apply_beam] returns a real number that is not above the
    intensity in absolute value, and is strictly below it unless the intensity
    is zero; it has the sign of the intensity; it is the same for the source
    sizes [s] and [-s]; and it is zero for a source of size zero. *)
Theorem apply_beam_attenuates (f i s d : R) :
  cm <> 0 -> f <> 0 -> d <> 0 ->
  exists y : R,
    apply_beam cm (Fin f) (Fin i) (Fin s) (Fin d) = Fin y /\
    Rabs y <= Rabs i /\
    (i <> 0 -> Rabs y < Rabs i) /\
    (0 <= i -> 0 <= y <= i) /\
    (i <= 0 -> i <= y <= 0) /\
    apply_beam cm (Fin f) (Fin i) (Fin (- s)) (Fin d) = Fin y /\
    (s = 0 -> y = 0).
Proof.
  intros Hc Hf Hd.
  pose proof (beam_size_nonzero cm f d Hc Hf Hd) as Hb.
  pose proof (dilution_range (beam_size cm f d) s Hb) as [Hd0 Hd1].
  set (q := dilution (beam_size cm f d) s) in *.
  exists (i * q).
  split; [apply apply_beam_finite; auto |].
  assert (Habs : Rabs (i * q) = Rabs i * q).
  { rewrite Rabs_mult. f_equal. apply Rabs_pos_eq. exact Hd0. }
  split; [| split; [| split; [| split; [| split]]]].
  - rewrite Habs. pose proof (Rabs_pos i). nra.
  - intros Hi. rewrite Habs. pose proof (Rabs_pos_lt i Hi). nra.
  - intros Hi. nra.
  - intros Hi. nra.
  - rewrite apply_beam_finite by auto. rewrite dilution_even. reflexivity.
  - intros ->. unfold q. rewrite dilution_zero. ring.
Qed.

(** ** The model is an emission *)

Lemma planck_value (T nu : R) :
  0 < h -> 0 < k -> 0 < T -> 0 < nu ->
  planck h k (Fin T) (Fin nu) = Some (Fin (planck_R h k T nu)).
Proof.
  intros Hh Hk HT Hnu.
  assert (Ha : 0 < h * nu * 10 ^ 6).
  { apply Rmult_lt_0_compat; [apply Rmult_lt_0_compat; assumption | lra]. }
  assert (HkT : 0 < k * T) by (apply Rmult_lt_0_compat; assumption).
  assert (Hx : 0 < h * nu * 10 ^ 6 / (k * T)).
  { apply Rdiv_lt_0_compat; assumption. }
  assert (He : 1 < exp (h * nu * 10 ^ 6 / (k * T))).
  { rewrite <- exp_0. apply exp_increasing. exact Hx. }
  unfold planck, planck_R, power_minus_1.
  cbn [NP.mul NP.div NP.exp NP.sub NP.add NP.neg].
  rewrite (Reqb_false k 0) by lra.
  rewrite (Reqb_false (k * T) 0) by lra.
  cbn [NP.mul NP.div NP.exp NP.sub NP.add NP.neg].
  rewrite (Reqb_false (exp (h * nu * 10 ^ 6 / (k * T)) + - (1)) 0) by lra.
  cbn [NP.mul NP.div].
  rewrite ?(Reqb_false (exp (h * nu * 10 ^ 6 / (k * T)) + - (1)) 0) by lra.
  reflexivity.
Qed.

(** The array of Planck terms on a grid of positive real frequencies. *)
Lemma planck_array_value (T : R) (datagrid0 : list npfloat) :
  0 < h -> 0 < k -> 0 < T -> Forall positive datagrid0 ->
  exists J,
    map_raise (planck h k (Fin T)) datagrid0 = Some J /\
    Forall2 (fun nu j => exists x : R, nu = Fin x /\ j = Fin (planck_R h k T x))
            datagrid0 J.
Proof.
  intros Hh Hk HT. induction 1 as [| nu rest (x & -> & Hx) _ (J & EJ & HJ)];
    cbn [map_raise].
  - exists []. split; [reflexivity | constructor].
  - rewrite (planck_value T x Hh Hk HT Hx), EJ.
    eexists. split; [reflexivity |].
    constructor; [exists x; split; reflexivity | exact HJ].
Qed.

Lemma planck_R_monotone (T1 T2 nu : R) :
  0 < h -> 0 < k -> 0 < nu -> 0 < T1 <= T2 ->
  planck_R h k T1 nu <= planck_R h k T2 nu.
Proof.
  intros Hh Hk Hnu [HT1 HT12]. unfold planck_R.
  set (a := h * nu * 10 ^ 6).
  assert (Ha : 0 < a).
  { unfold a. apply Rmult_lt_0_compat; [apply Rmult_lt_0_compat; assumption | lra]. }
  assert (HkT1 : 0 < k * T1) by (apply Rmult_lt_0_compat; lra).
  assert (HkT2 : 0 < k * T2) by (apply Rmult_lt_0_compat; lra).
  assert (HkT : k * T1 <= k * T2) by (apply Rmult_le_compat_l; lra).
  assert (Hx2 : 0 < a / (k * T2)) by (apply Rdiv_lt_0_compat; assumption).
  assert (Hx : a / (k * T2) <= a / (k * T1)).
  { unfold Rdiv. apply Rmult_le_compat_l; [lra |]. apply Rinv_le_contravar; assumption. }
  assert (He2 : 1 < exp (a / (k * T2))).
  { rewrite <- exp_0. apply exp_increasing. exact Hx2. }
  assert (He : exp (a / (k * T2)) <= exp (a / (k * T1))).
  { destruct Hx as [Hlt | Heq]; [left; apply exp_increasing; exact Hlt |].
    right. rewrite Heq. reflexivity. }
  assert (Hak : 0 < a / k) by (apply Rdiv_lt_0_compat; assumption).
  apply Rmult_le_compat_l; [lra |].
  unfold Rdiv. rewrite !Rmult_1_l. apply Rinv_le_contravar; lra.
Qed.

(** [diluted]: an emission above the background. *)
Lemma diluted_nonnegative (datagrid0 J_T J_Tbg model : list npfloat) (Tex ss : R) :
  cm <> 0 -> 0 < h -> 0 < k -> 2.7 <= Tex ->
  Forall2 (fun nu j => exists x : R, nu = Fin x /\ j = Fin (planck_R h k Tex x))
          datagrid0 J_T ->
  Forall2 (fun nu j => exists x : R, nu = Fin x /\ j = Fin (planck_R h k 2.7 x))
          datagrid0 J_Tbg ->
  Forall positive datagrid0 -> Forall nonnegative model ->
  Forall nonnegative (diluted cm datagrid0 J_T J_Tbg model (Fin ss)).
Proof.
  intros Hc Hh Hk HT FT. revert J_Tbg model.
  unfold diluted.
  induction FT as [| nu jT rest J_T' (x & -> & ->) _ IH];
    intros J_Tbg model Fbg Hgrid Hmodel; cbn [map2]; [constructor |].
  inversion Fbg as [| ? jb ? J_Tbg' (x' & Ex & ->) Fbg']; subst.
  injection Ex as <-.
  inversion Hgrid as [| ? ? (x0 & Ex0 & Hx) Hgrid']; subst.
  injection Ex0 as <-.
  destruct Hmodel as [| m model (y & -> & Hy) Hmodel]; cbn [map2]; constructor.
  - pose proof (planck_R_monotone 2.7 Tex x Hh Hk Hx ltac:(lra)) as Hmono.
    assert (Hexp : exp (- y) <= 1).
    { rewrite <- exp_0. destruct Hy as [Hlt | <-].
      - left. apply exp_increasing. lra.
      - right. f_equal. lra. }
    np_red. rewrite apply_beam_finite;
      [| lra | lra | left; apply beam_size_nonzero; lra].
    eexists. split; [reflexivity |].
    pose proof (dilution_range (beam_size cm x 100) ss
                  ltac:(apply beam_size_nonzero; lra)) as [Hq _].
    apply Rmult_le_pos; [| exact Hq].
    apply Rmult_le_pos; lra.
  - apply IH; assumption.
Qed.

Lemma map2_add_nonnegative (a b : list npfloat) :
  Forall nonnegative a -> Forall nonnegative b -> Forall nonnegative (map2 NP.add a b).
Proof.
  intros Ha. revert b. induction Ha as [| x a (xr & -> & Hx) _ IH]; intros b Hb;
    cbn [map2]; [constructor |].
  destruct Hb as [| y b (yr & -> & Hy) Hb]; constructor.
  - exists (xr + yr). split; [reflexivity | lra].
  - apply IH. exact Hb.
Qed.

Lemma zeros_nonnegative (n : nat) : Forall nonnegative (zeros n).
Proof.
  induction n as [| n IH]; cbn [zeros repeat]; constructor; [| exact IH].
  exists 0. split; [reflexivity | lra].
Qed.

(** Inside the mask the term of a line with a non-negative amplitude is a
    non-negative real number. *)
Lemma line_term_nonnegative (a vlsr dV x : R) :
  0 <= a ->
  lt_fastmath (NP.abs (Fin x - 5.8)) (Fin dV * 10)%np = true ->
  nonnegative (Fin a * profile (Fin vlsr) (Fin dV) (Fin x))%np.
Proof.
  intros Ha H.
  cbn [NP.sub NP.add NP.neg NP.abs NP.mul NP.ltb lt_fastmath] in H.
  apply Rltb_true_iff in H.
  pose proof (Rabs_pos (x + - (5.8))) as Hp.
  assert (Hd : 0 < dV) by lra.
  unfold profile. np_eval.
  eexists. split; [reflexivity |].
  apply Rmult_le_pos; [exact Ha | left; apply exp_pos].
Qed.

(** With non-negative amplitudes above the background, no channel of the model
    is negative. *)
Lemma make_model_nonnegative
    (freqs1 freqs2 freqs3 freqs4 ints1 ints2 ints3 ints4 datagrid0 datagrid1 : list npfloat)
    (ss1 ss2 ss3 ss4 vlsr1 vlsr2 vlsr3 vlsr4 dV Tex : R) :
  cm <> 0 -> 0 < h -> 0 < k ->
  Forall positive datagrid0 -> Forall positive freqs1 ->
  length datagrid0 = length datagrid1 ->
  (length freqs1 <= length ints1)%nat -> (length freqs1 <= length ints2)%nat ->
  (length freqs1 <= length ints3)%nat -> (length freqs1 <= length ints4)%nat ->
  Forall nonnegative ints1 -> Forall nonnegative ints2 ->
  Forall nonnegative ints3 -> Forall nonnegative ints4 ->
  2.7 <= Tex ->
  exists curr_model,
    make_model cm ckm h k freqs1 freqs2 freqs3 freqs4 ints1 ints2 ints3 ints4
               ss1 ss2 ss3 ss4 datagrid0 datagrid1 vlsr1 vlsr2 vlsr3 vlsr4 dV Tex
    = Some curr_model /\
    length curr_model = length datagrid1 /\
    Forall nonnegative curr_model.
Proof.
  intros Hc Hh Hk Hgrid Hlines Hlen H1 H2 H3 H4 N1 N2 N3 N4 HT.
  assert (Hgrid0 : Forall (fun nu => exists x : R, nu = Fin x /\ x <> 0) datagrid0).
  { eapply Forall_impl; [| exact Hgrid]. intros nu (x & -> & Hx). exists x. split; [reflexivity | lra]. }
  set (z := zeros (length datagrid0)).
  destruct (add_lines_invariant
              (fun acc => models_shape (length datagrid0) acc /\
                          let '(m1, m2, m3, m4) := acc in
                          Forall nonnegative m1 /\ Forall nonnegative m2 /\
                          Forall nonnegative m3 /\ Forall nonnegative m4)
              freqs1 ints1 ints2 ints3 ints4 datagrid0 vlsr1 vlsr2 vlsr3 vlsr4 dV
              (seq 0 (length freqs1)) (z, z, z, z))
    as ([[[model1 model2] model3] model4] & Hloop & (L1 & L2 & L3 & L4) &
        (P1 & P2 & P3 & P4)).
  - intros i acc0 Hi [Hshape Hpos]. apply in_seq in Hi.
    destruct (add_line_returns freqs1 ints1 ints2 ints3 ints4 datagrid0
                vlsr1 vlsr2 vlsr3 vlsr4 dV acc0 i)
      as (f1 & a1 & a2 & a3 & a4 & E0 & E1 & E2 & E3 & E4 & Hret); try lia;
      [exact Hshape |].
    destruct (nth_error_Forall _ _ _ _ Hlines E0) as (x1 & -> & Hx1).
    destruct acc0 as [[[m1 m2] m3] m4]. cbv zeta in Hret.
    destruct Hret as [Hret Hshape']. destruct Hpos as (Q1 & Q2 & Q3 & Q4).
    destruct (nth_error_Forall _ _ _ _ N1 E1) as (r1 & -> & Hr1).
    destruct (nth_error_Forall _ _ _ _ N2 E2) as (r2 & -> & Hr2).
    destruct (nth_error_Forall _ _ _ _ N3 E3) as (r3 & -> & Hr3).
    destruct (nth_error_Forall _ _ _ _ N4 E4) as (r4 & -> & Hr4).
    eexists. split; [exact Hret |]. split; [exact Hshape' |].
    repeat split; apply add_where_nonnegative; try assumption;
      intros v Hin Hv;
      destruct (vel_grid_real ckm x1 datagrid0 v ltac:(lra) Hgrid0 Hin) as [x ->];
      apply line_term_nonnegative; assumption.
  - split; [apply zeros_shape |]. repeat split; apply zeros_nonnegative.
  - destruct (planck_array_value Tex datagrid0 Hh Hk ltac:(lra) Hgrid) as (J_T & ET & FT).
    destruct (planck_array_value 2.7 datagrid0 Hh Hk ltac:(lra) Hgrid)
      as (J_Tbg & Ebg & Fbg).
    pose proof (Forall2_same_length _ _ _ FT) as LT.
    pose proof (Forall2_same_length _ _ _ Fbg) as Lbg.
    eexists. split; [| split].
    + apply (make_model_after_loop _ _ _ _ _ _ _ _ _ _ _ _ _ _ _ _ _ _ _ _
               model1 model2 model3 model4 J_T J_Tbg); assumption.
    + apply (four_models_length datagrid0); [exact Hlen | | | |];
        apply diluted_length; congruence.
    + repeat apply map2_add_nonnegative;
        apply (diluted_nonnegative datagrid0 J_T J_Tbg _ Tex); assumption.
Qed.

(** X8: the model is an emission, never an absorption.  With [h], [k]
    positive and [cm] other than zero, on a grid of positive real frequencies,
    with positive real line frequencies, real parameters, amplitudes that are
    real and not negative and an excitation temperature not below the 2.7 K of
    the background, [make_model] returns an array of real numbers none of
    which is negative. *)
Theorem make_model_never_negative
    (freqs1 freqs2 freqs3 freqs4 ints1 ints2 ints3 ints4 datagrid0 datagrid1 : list npfloat)
    (ss1 ss2 ss3 ss4 vlsr1 vlsr2 vlsr3 vlsr4 dV Tex : R) :
  cm <> 0 -> 0 < h -> 0 < k ->
  Forall positive datagrid0 -> Forall positive freqs1 ->
  length datagrid0 = length datagrid1 ->
  (length freqs1 <= length ints1)%nat -> (length freqs1 <= length ints2)%nat ->
  (length freqs1 <= length ints3)%nat -> (length freqs1 <= length ints4)%nat ->
  Forall nonnegative ints1 -> Forall nonnegative ints2 ->
  Forall nonnegative ints3 -> Forall nonnegative ints4 ->
  2.7 <= Tex ->
  exists curr_model,
    make_model cm ckm h k freqs1 freqs2 freqs3 freqs4 ints1 ints2 ints3 ints4
               ss1 ss2 ss3 ss4 datagrid0 datagrid1 vlsr1 vlsr2 vlsr3 vlsr4 dV Tex
    = Some curr_model /\
    length curr_model = length datagrid1 /\
    Forall nonnegative curr_model.
Proof. apply make_model_nonnegative. Qed.

End ForwardModel.

(** The witness of X5: one line whose amplitudes are 1, [nan], [+inf] and 0,
    on a grid of two channels, one of them at zero frequency. *)
Lemma make_model_one_value_per_channel_witness :
  make_model 29979245800 299792.458 6.626e-27 1.381e-16
             [Fin 20000] [Fin 20000] [Fin 20000] [Fin 20000]
             [Fin 1] [NaN] [PInf] [Fin 0] 37 25 56 22
             [Fin 19999.6; Fin 0] [Fin 0.01; Fin 0.02]
             5.624 5.790 5.910 6.033 0.117 6.7
  = None.
Proof.
  apply (proj1 (make_model_one_value_per_channel
                  29979245800 299792.458 6.626e-27 1.381e-16
                  [Fin 20000] [Fin 20000] [Fin 20000] [Fin 20000]
                  [Fin 1] [NaN] [PInf] [Fin 0] 37 25 56 22
                  [Fin 19999.6; Fin 0] [Fin 0.01; Fin 0.02]
                  5.624 5.790 5.910 6.033 0.117 6.7
                  ltac:(lra) ltac:(lra) eq_refl (le_n 1) (le_n 1) (le_n 1) (le_n 1))).
  unfold divides_by_zero. right. left. left. reflexivity.
Defined.


(** The witness of X7: a line at 20000 MHz seen with a dish of 100 m. *)
Lemma apply_beam_attenuates_witness :
  exists y : R,
    apply_beam 29979245800 (Fin 20000) (Fin 1) (Fin 10) (Fin 100) = Fin y /\
    Rabs y <= Rabs 1.
Proof.
  destruct (apply_beam_attenuates 29979245800 20000 1 10 100
              ltac:(lra) ltac:(lra) ltac:(lra)) as (y & E & Hy & _).
  exists y. split; [exact E | exact Hy].
Defined.

(** The witness of X8: one line of amplitude 1 in every component. *)
Lemma make_model_never_negative_witness :
  exists curr_model,
    make_model 29979245800 299792.458 6.626e-27 1.381e-16
               [Fin 20000] [Fin 20000] [Fin 20000] [Fin 20000]
               [Fin 1] [Fin 1] [Fin 1] [Fin 1] 37 25 56 22
               [Fin 19999.6; Fin 19999.7] [Fin 0.01; Fin 0.02]
               5.624 5.790 5.910 6.033 0.117 6.7
    = Some curr_model /\
    length curr_model = 2%nat /\
    Forall nonnegative curr_model.
Proof.
  apply (make_model_never_negative 29979245800 299792.458 6.626e-27 1.381e-16
           [Fin 20000] [Fin 20000] [Fin 20000] [Fin 20000]
           [Fin 1] [Fin 1] [Fin 1] [Fin 1]
           [Fin 19999.6; Fin 19999.7] [Fin 0.01; Fin 0.02]
           37 25 56 22 5.624 5.790 5.910 6.033 0.117 6.7);
    try lra; try apply le_n; try reflexivity;
    repeat constructor; eexists; (split; [reflexivity | lra]).
Defined.

(** ** The likelihood returns *)

Lemma take_ids_returns (a : list npfloat) (ids : list nat) :
  (forall i, In i ids -> (i < length a)%nat) ->
  exists r, take_ids a ids = Some r /\ length r = length ids.
Proof.
  induction ids as [| i ids IH]; intros H; cbn [take_ids].
  - exists []. split; reflexivity.
  - destruct (nth_error_in_range a i (H i (or_introl eq_refl))) as [x ->].
    destruct IH as (r & -> & Hr); [intros j Hj; apply H; right; exact Hj |].
    exists (x :: r). split; [reflexivity | cbn; lia].
Qed.

Lemma take_ids_in_range (a : list npfloat) (ids : list nat) (r : list npfloat) :
  take_ids a ids = Some r -> forall i, In i ids -> (i < length a)%nat.
Proof.
  revert r. induction ids as [| j ids IH]; intros r E i Hi; [destruct Hi |].
  cbn [take_ids] in E.
  destruct (nth_error a j) as [x |] eqn:Ej; [| discriminate].
  destruct (take_ids a ids) as [r' |] eqn:Er; [| discriminate].
  destruct Hi as [<- | Hi].
  - apply nth_error_Some. rewrite Ej. discriminate.
  - apply (IH r' eq_refl i Hi).
Qed.

Section Likelihood.

Variables cm ckm h k : R.
Variable MolCat : Type.
Variable mol_sim :
  npfloat -> npfloat -> npfloat -> npfloat -> MolCat ->
  list npfloat * list npfloat * list npfloat.

(** [lnlike] once the four simulations and the twelve selections are known. *)
Lemma lnlike_selected (theta : vec14) (dg : datagrid) (mol_cat : MolCat) (c : calls)
    (fs1 is1 ts1 fs2 is2 ts2 fs3 is3 ts3 fs4 is4 ts4 : list npfloat)
    (freqs1 freqs2 freqs3 freqs4 taus1 taus2 taus3 taus4 ints1 ints2 ints3 ints4
       : list npfloat) :
  mol_sim (v0 theta) (v4 theta) (v8 theta) (v13 theta) mol_cat = (fs1, is1, ts1) ->
  mol_sim (v1 theta) (v5 theta) (v8 theta) (v13 theta) mol_cat = (fs2, is2, ts2) ->
  mol_sim (v2 theta) (v6 theta) (v8 theta) (v13 theta) mol_cat = (fs3, is3, ts3) ->
  mol_sim (v3 theta) (v7 theta) (v8 theta) (v13 theta) mol_cat = (fs4, is4, ts4) ->
  take_ids fs1 (dg_line_ids dg) = Some freqs1 ->
  take_ids fs2 (dg_line_ids dg) = Some freqs2 ->
  take_ids fs3 (dg_line_ids dg) = Some freqs3 ->
  take_ids fs4 (dg_line_ids dg) = Some freqs4 ->
  take_ids ts1 (dg_line_ids dg) = Some taus1 ->
  take_ids ts2 (dg_line_ids dg) = Some taus2 ->
  take_ids ts3 (dg_line_ids dg) = Some taus3 ->
  take_ids ts4 (dg_line_ids dg) = Some taus4 ->
  take_ids is1 (dg_line_ids dg) = Some ints1 ->
  take_ids is2 (dg_line_ids dg) = Some ints2 ->
  take_ids is3 (dg_line_ids dg) = Some ints3 ->
  take_ids is4 (dg_line_ids dg) = Some ints4 ->
  lnlike cm ckm h k MolCat mol_sim theta dg mol_cat c
  = match make_model cm ckm h k freqs1 freqs2 freqs3 freqs4 taus1 taus2 taus3 taus4
                     (v0 theta) (v1 theta) (v2 theta) (v3 theta)
                     (dg_freqs dg) (dg_ints dg)
                     (v9 theta) (v10 theta) (v11 theta) (v12 theta)
                     (v13 theta) (v8 theta) with
    | Some curr_model =>
        if Nat.eqb (length (dg_ints dg)) (length curr_model) then
          if Nat.eqb (length (map2 (fun d m => NP.pow2 (d - m)%np) (dg_ints dg) curr_model))
                     (length (map (fun y => (1 / NP.pow2 y)%np) (dg_yerrs dg)))
          then (Some (- 0.5 * NP.sum (chi_terms (dg_ints dg) curr_model (dg_yerrs dg)))%np,
                after_lnlike c 1)
          else (None, after_lnlike c 1)
        else (None, after_lnlike c 1)
    | None => (None, after_lnlike c 1)
    end.
Proof.
  destruct theta as [t0 t1 t2 t3 t4 t5 t6 t7 t8 t9 t10 t11 t12 t13];
    cbn [v0 v1 v2 v3 v4 v5 v6 v7 v8 v9 v10 v11 v12 v13].
  intros S1 S2 S3 S4 F1 F2 F3 F4 T1 T2 T3 T4 I1 I2 I3 I4.
  unfold lnlike, predict_intensities, bind, tick_predict, tick_model, lift, ret, zip_same,
    chi_terms, after_lnlike.
  cbn [predict_calls model_calls].
  rewrite S1, S2, S3, S4, F1, F2, F3, F4, T1, T2, T3, T4, I1, I2, I3, I4.
  destruct (make_model _ _ _ _ _ _ _ _ _ _ _ _ _ _ _ _ _ _ _ _ _ _ _ _) as [curr_model |];
    [| reflexivity].
  destruct (length (dg_ints dg) =? length curr_model)%nat; [| reflexivity].
  destruct (length _ =? length _)%nat; reflexivity.
Qed.

Lemma sim_covers_selections (fs is_ ts : list npfloat) (ids : list nat) :
  sim_covers (fs, is_, ts) ids ->
  exists f i t,
    take_ids fs ids = Some f /\ take_ids is_ ids = Some i /\ take_ids ts ids = Some t /\
    length f = length ids /\ length i = length ids /\ length t = length ids.
Proof.
  unfold sim_covers. intros H.
  destruct (take_ids_returns fs ids) as (f & Ef & Lf); [intros i Hi; apply (H i Hi) |].
  destruct (take_ids_returns is_ ids) as (i & Ei & Li); [intros j Hj; apply (H j Hj) |].
  destruct (take_ids_returns ts ids) as (t & Et & Lt); [intros j Hj; apply (H j Hj) |].
  exists f, i, t. auto 10.
Qed.

Lemma selections_sim_covers (fs is_ ts f i t : list npfloat) (ids : list nat) :
  take_ids fs ids = Some f -> take_ids is_ ids = Some i -> take_ids ts ids = Some t ->
  sim_covers (fs, is_, ts) ids.
Proof.
  intros Ef Ei Et j Hj.
  split; [| split]; eapply take_ids_in_range; eassumption.
Qed.

Lemma take_ids_incl (a : list npfloat) (ids : list nat) (r : list npfloat) :
  take_ids a ids = Some r -> incl r a.
Proof.
  revert r. induction ids as [| j ids IH]; intros r E; cbn [take_ids] in E.
  - injection E as <-. intros x [].
  - destruct (nth_error a j) as [x |] eqn:Ej; [| discriminate].
    destruct (take_ids a ids) as [r' |] eqn:Er; [| discriminate].
    injection E as <-. intros y [<- | Hy].
    + eapply nth_error_In. exact Ej.
    + apply (IH r' eq_refl y Hy).
Qed.

(** With line indices that the four simulations cover, [lnlike] reaches
    [make_model] with the selected lines, after four simulator calls. *)
Lemma lnlike_covered (theta : vec14) (dg : datagrid) (mol_cat : MolCat) (c : calls) :
  Forall (fun sim => sim_covers sim (dg_line_ids dg))
         (component_sims MolCat mol_sim theta mol_cat) ->
  exists freqs1 freqs2 freqs3 freqs4 taus1 taus2 taus3 taus4,
    (length freqs1 = length taus1 /\ length freqs1 = length taus2 /\
     length freqs1 = length taus3 /\ length freqs1 = length taus4) /\
    incl freqs1
         (fst (fst (mol_sim (v0 theta) (v4 theta) (v8 theta) (v13 theta) mol_cat))) /\
    (incl taus1 (snd (mol_sim (v0 theta) (v4 theta) (v8 theta) (v13 theta) mol_cat)) /\
     incl taus2 (snd (mol_sim (v1 theta) (v5 theta) (v8 theta) (v13 theta) mol_cat)) /\
     incl taus3 (snd (mol_sim (v2 theta) (v6 theta) (v8 theta) (v13 theta) mol_cat)) /\
     incl taus4 (snd (mol_sim (v3 theta) (v7 theta) (v8 theta) (v13 theta) mol_cat))) /\
    lnlike cm ckm h k MolCat mol_sim theta dg mol_cat c
    = match make_model cm ckm h k freqs1 freqs2 freqs3 freqs4 taus1 taus2 taus3 taus4
                       (v0 theta) (v1 theta) (v2 theta) (v3 theta)
                       (dg_freqs dg) (dg_ints dg)
                       (v9 theta) (v10 theta) (v11 theta) (v12 theta)
                       (v13 theta) (v8 theta) with
      | Some curr_model =>
          if Nat.eqb (length (dg_ints dg)) (length curr_model) then
            if Nat.eqb (length (map2 (fun d m => NP.pow2 (d - m)%np) (dg_ints dg)
                                     curr_model))
                       (length (map (fun y => (1 / NP.pow2 y)%np) (dg_yerrs dg)))
            then (Some (- 0.5 * NP.sum (chi_terms (dg_ints dg) curr_model
                                                  (dg_yerrs dg)))%np,
                  after_lnlike c 1)
            else (None, after_lnlike c 1)
          else (None, after_lnlike c 1)
      | None => (None, after_lnlike c 1)
      end.
Proof.
  intros Hcov. unfold component_sims in Hcov.
  inversion Hcov as [| ? ? C1 Hcov1]; subst.
  inversion Hcov1 as [| ? ? C2 Hcov2]; subst.
  inversion Hcov2 as [| ? ? C3 Hcov3]; subst.
  inversion Hcov3 as [| ? ? C4 _]; subst.
  destruct (mol_sim (v0 theta) _ _ _ _) as [[fs1 is1] ts1] eqn:S1.
  destruct (mol_sim (v1 theta) _ _ _ _) as [[fs2 is2] ts2] eqn:S2.
  destruct (mol_sim (v2 theta) _ _ _ _) as [[fs3 is3] ts3] eqn:S3.
  destruct (mol_sim (v3 theta) _ _ _ _) as [[fs4 is4] ts4] eqn:S4.
  destruct (sim_covers_selections _ _ _ _ C1)
    as (freqs1 & ints1 & taus1 & F1 & I1 & T1 & LF1 & LI1 & LT1).
  destruct (sim_covers_selections _ _ _ _ C2)
    as (freqs2 & ints2 & taus2 & F2 & I2 & T2 & LF2 & LI2 & LT2).
  destruct (sim_covers_selections _ _ _ _ C3)
    as (freqs3 & ints3 & taus3 & F3 & I3 & T3 & LF3 & LI3 & LT3).
  destruct (sim_covers_selections _ _ _ _ C4)
    as (freqs4 & ints4 & taus4 & F4 & I4 & T4 & LF4 & LI4 & LT4).
  exists freqs1, freqs2, freqs3, freqs4, taus1, taus2, taus3, taus4.
  split; [repeat split; congruence |].
  split; [cbn [fst]; eapply take_ids_incl; eassumption |].
  split; [cbn [snd]; repeat split; eapply take_ids_incl; eassumption |].
  apply (lnlike_selected theta dg mol_cat c fs1 is1 ts1 fs2 is2 ts2 fs3 is3 ts3
           fs4 is4 ts4 freqs1 freqs2 freqs3 freqs4 taus1 taus2 taus3 taus4
           ints1 ints2 ints3 ints4 S1 S2 S3 S4 F1 F2 F3 F4 T1 T2 T3 T4 I1 I2 I3 I4).
Qed.

(** With line indices that the four simulations cover, a grid of one shape
    and Planck terms that return on every channel, [lnlike] returns [-0.5]
    times the sum of its terms, after four simulator calls and one call of
    [make_model] on the selected lines. *)
Lemma lnlike_value_with_model (theta : vec14) (dg : datagrid) (mol_cat : MolCat)
    (c : calls) :
  length (dg_freqs dg) = length (dg_ints dg) ->
  length (dg_yerrs dg) = length (dg_ints dg) ->
  Forall (fun sim => sim_covers sim (dg_line_ids dg))
         (component_sims MolCat mol_sim theta mol_cat) ->
  planck_defined h k (v8 theta) (dg_freqs dg) ->
  exists freqs1 freqs2 freqs3 freqs4 taus1 taus2 taus3 taus4 curr_model,
    (length freqs1 = length taus1 /\ length freqs1 = length taus2 /\
     length freqs1 = length taus3 /\ length freqs1 = length taus4) /\
    incl freqs1
         (fst (fst (mol_sim (v0 theta) (v4 theta) (v8 theta) (v13 theta) mol_cat))) /\
    (incl taus1 (snd (mol_sim (v0 theta) (v4 theta) (v8 theta) (v13 theta) mol_cat)) /\
     incl taus2 (snd (mol_sim (v1 theta) (v5 theta) (v8 theta) (v13 theta) mol_cat)) /\
     incl taus3 (snd (mol_sim (v2 theta) (v6 theta) (v8 theta) (v13 theta) mol_cat)) /\
     incl taus4 (snd (mol_sim (v3 theta) (v7 theta) (v8 theta) (v13 theta) mol_cat))) /\
    make_model cm ckm h k freqs1 freqs2 freqs3 freqs4 taus1 taus2 taus3 taus4
               (v0 theta) (v1 theta) (v2 theta) (v3 theta) (dg_freqs dg) (dg_ints dg)
               (v9 theta) (v10 theta) (v11 theta) (v12 theta) (v13 theta) (v8 theta)
    = Some curr_model /\
    length curr_model = length (dg_ints dg) /\
    lnlike cm ckm h k MolCat mol_sim theta dg mol_cat c
    = (Some (- 0.5 * NP.sum (chi_terms (dg_ints dg) curr_model (dg_yerrs dg)))%np,
       after_lnlike c 1).
Proof.
  intros Hgrid Hyerrs Hcov Hplanck.
  destruct (lnlike_covered theta dg mol_cat c Hcov)
    as (freqs1 & freqs2 & freqs3 & freqs4 & taus1 & taus2 & taus3 & taus4 &
        (L1 & L2 & L3 & L4) & If & It & E).
  destruct (make_model_returns cm ckm h k freqs1 freqs2 freqs3 freqs4
              taus1 taus2 taus3 taus4 (v0 theta) (v1 theta) (v2 theta) (v3 theta)
              (dg_freqs dg) (dg_ints dg) (v9 theta) (v10 theta) (v11 theta) (v12 theta)
              (v13 theta) (v8 theta))
    as (curr_model & Emodel & Lmodel); try lia; try assumption.
  exists freqs1, freqs2, freqs3, freqs4, taus1, taus2, taus3, taus4, curr_model.
  split; [auto |]. split; [exact If |]. split; [exact It |].
  split; [exact Emodel |]. split; [exact Lmodel |].
  rewrite E, Emodel, Lmodel, Nat.eqb_refl.
  rewrite map2_length by congruence. rewrite length_map, Hyerrs, Nat.eqb_refl.
  reflexivity.
Qed.

Lemma lnlike_value (theta : vec14) (dg : datagrid) (mol_cat : MolCat) (c : calls) :
  length (dg_freqs dg) = length (dg_ints dg) ->
  length (dg_yerrs dg) = length (dg_ints dg) ->
  Forall (fun sim => sim_covers sim (dg_line_ids dg))
         (component_sims MolCat mol_sim theta mol_cat) ->
  planck_defined h k (v8 theta) (dg_freqs dg) ->
  exists curr_model,
    length curr_model = length (dg_ints dg) /\
    lnlike cm ckm h k MolCat mol_sim theta dg mol_cat c
    = (Some (- 0.5 * NP.sum (chi_terms (dg_ints dg) curr_model (dg_yerrs dg)))%np,
       after_lnlike c 1).
Proof.
  intros Hgrid Hyerrs Hcov Hplanck.
  destruct (lnlike_value_with_model theta dg mol_cat c Hgrid Hyerrs Hcov Hplanck)
    as (f1 & f2 & f3 & f4 & t1 & t2 & t3 & t4 & model & _ & _ & _ & _ & L & E).
  exists model. split; [exact L | exact E].
Qed.

(** With line indices that the four simulations cover, a division by zero in
    a Planck term makes [lnlike] raise inside [make_model]. *)
Lemma lnlike_division (theta : vec14) (dg : datagrid) (mol_cat : MolCat) (c : calls) :
  k <> 0 ->
  Forall (fun sim => sim_covers sim (dg_line_ids dg))
         (component_sims MolCat mol_sim theta mol_cat) ->
  divides_by_zero (v8 theta) (dg_freqs dg) ->
  lnlike cm ckm h k MolCat mol_sim theta dg mol_cat c = (None, after_lnlike c 1).
Proof.
  intros Hk Hcov Hdiv.
  destruct (lnlike_covered theta dg mol_cat c Hcov)
    as (freqs1 & freqs2 & freqs3 & freqs4 & taus1 & taus2 & taus3 & taus4 & _ & _ & _ & E).
  rewrite E, make_model_raises; [reflexivity |].
  apply division_by_zero; assumption.
Qed.

(** A line index that one of the simulated arrays does not have makes
    [lnlike] raise after the four simulator calls and before [make_model]. *)
Lemma lnlike_raises (theta : vec14) (dg : datagrid) (mol_cat : MolCat) (c : calls) :
  ~ Forall (fun sim => sim_covers sim (dg_line_ids dg))
           (component_sims MolCat mol_sim theta mol_cat) ->
  lnlike cm ckm h k MolCat mol_sim theta dg mol_cat c = (None, after_lnlike c 0).
Proof.
  intros Hcov. unfold component_sims in Hcov.
  destruct theta as [t0 t1 t2 t3 t4 t5 t6 t7 t8 t9 t10 t11 t12 t13];
    cbn [v0 v1 v2 v3 v4 v5 v6 v7 v8 v9 v10 v11 v12 v13] in Hcov.
  unfold lnlike, predict_intensities, bind, tick_predict, tick_model, lift, ret,
    after_lnlike.
  cbn [predict_calls model_calls].
  destruct (mol_sim t0 t4 t8 t13 mol_cat) as [[fs1 is1] ts1].
  destruct (mol_sim t1 t5 t8 t13 mol_cat) as [[fs2 is2] ts2].
  destruct (mol_sim t2 t6 t8 t13 mol_cat) as [[fs3 is3] ts3].
  destruct (mol_sim t3 t7 t8 t13 mol_cat) as [[fs4 is4] ts4].
  destruct (take_ids fs1 (dg_line_ids dg)) as [freqs1 |] eqn:F1; [| reflexivity].
  destruct (take_ids fs2 (dg_line_ids dg)) as [freqs2 |] eqn:F2; [| reflexivity].
  destruct (take_ids fs3 (dg_line_ids dg)) as [freqs3 |] eqn:F3; [| reflexivity].
  destruct (take_ids fs4 (dg_line_ids dg)) as [freqs4 |] eqn:F4; [| reflexivity].
  destruct (take_ids ts1 (dg_line_ids dg)) as [taus1 |] eqn:T1; [| reflexivity].
  destruct (take_ids ts2 (dg_line_ids dg)) as [taus2 |] eqn:T2; [| reflexivity].
  destruct (take_ids ts3 (dg_line_ids dg)) as [taus3 |] eqn:T3; [| reflexivity].
  destruct (take_ids ts4 (dg_line_ids dg)) as [taus4 |] eqn:T4; [| reflexivity].
  destruct (take_ids is1 (dg_line_ids dg)) as [ints1 |] eqn:I1; [| reflexivity].
  destruct (take_ids is2 (dg_line_ids dg)) as [ints2 |] eqn:I2; [| reflexivity].
  destruct (take_ids is3 (dg_line_ids dg)) as [ints3 |] eqn:I3; [| reflexivity].
  destruct (take_ids is4 (dg_line_ids dg)) as [ints4 |] eqn:I4; [| reflexivity].
  exfalso. apply Hcov.
  repeat constructor; eapply selections_sim_covers; eassumption.
Qed.

(** X9: [lnlike] returns exactly when the catalogue lines of the grid are
    simulated and no Planck term divides by zero.  With [h] and [k] other
    than zero, on a grid whose three arrays have one length: if some line
    index of the grid is beyond the frequency, intensity or opacity array of
    one of the four simulations, [lnlike] raises after the four simulator
    calls, before [make_model] is called; if every index is within these
    arrays and the grid has a channel of frequency zero, or a channel of real
    frequency while [Tex] is infinite, it raises inside [make_model]; in every
    other case it returns a value after four simulator calls and one call of
    [make_model]. *)
Theorem lnlike_returns_iff_lines_simulated (theta : vec14) (dg : datagrid)
    (mol_cat : MolCat) (c : calls) :
  h <> 0 -> k <> 0 ->
  length (dg_freqs dg) = length (dg_ints dg) ->
  length (dg_yerrs dg) = length (dg_ints dg) ->
  (~ Forall (fun sim => sim_covers sim (dg_line_ids dg))
            (component_sims MolCat mol_sim theta mol_cat) ->
   lnlike cm ckm h k MolCat mol_sim theta dg mol_cat c = (None, after_lnlike c 0)) /\
  (Forall (fun sim => sim_covers sim (dg_line_ids dg))
          (component_sims MolCat mol_sim theta mol_cat) ->
   divides_by_zero (v8 theta) (dg_freqs dg) ->
   lnlike cm ckm h k MolCat mol_sim theta dg mol_cat c = (None, after_lnlike c 1)) /\
  (Forall (fun sim => sim_covers sim (dg_line_ids dg))
          (component_sims MolCat mol_sim theta mol_cat) ->
   ~ divides_by_zero (v8 theta) (dg_freqs dg) ->
   exists value,
     lnlike cm ckm h k MolCat mol_sim theta dg mol_cat c
     = (Some value, after_lnlike c 1)).
Proof.
  intros Hh Hk Hgrid Hyerrs. split; [| split].
  - apply lnlike_raises.
  - intros Hcov Hdiv. apply lnlike_division; assumption.
  - intros Hcov Hno.
    destruct (lnlike_value theta dg mol_cat c Hgrid Hyerrs Hcov
                (no_division_by_zero h k _ _ Hh Hk Hno)) as (m & _ & E).
    eexists. exact E.
Qed.

(** ** A channel without a usable uncertainty *)

Lemma sum_from_nan (a : list npfloat) : fold_left NP.add a NaN = NaN.
Proof. induction a as [| x a IH]; cbn [fold_left NP.add]; [reflexivity | exact IH]. Qed.

Lemma fold_add_nan (a : list npfloat) (x : npfloat) :
  In NaN a -> fold_left NP.add a x = NaN.
Proof.
  revert x. induction a as [| y a IH]; intros x Hin; [destruct Hin |].
  cbn [fold_left]. destruct Hin as [-> | Hin].
  - replace (x + NaN)%np with NaN by (destruct x; reflexivity). apply sum_from_nan.
  - apply IH. exact Hin.
Qed.

Lemma sum_nan (a : list npfloat) : In NaN a -> NP.sum a = NaN.
Proof. apply fold_add_nan. Qed.

Lemma In_map2_r {A B C : Type} (f : A -> B -> C) (a : list A) (b : list B) (y : B) :
  length a = length b -> In y b -> exists x, In x a /\ In (f x y) (map2 f a b).
Proof.
  revert b. induction a as [| x a IH]; intros [| y0 b] E Hin; cbn in E;
    try discriminate; [destruct Hin |].
  destruct Hin as [-> | Hin].
  - exists x. split; left; reflexivity.
  - destruct (IH b ltac:(lia) Hin) as (x' & Hx' & Hf).
    exists x'. split; right; assumption.
Qed.

Lemma In_map2_inv {A B C : Type} (f : A -> B -> C) (a : list A) (b : list B) (z : C) :
  In z (map2 f a b) -> exists x y, z = f x y.
Proof.
  revert b. induction a as [| x a IH]; intros [| y b] Hin; cbn in Hin;
    try (destruct Hin; fail).
  destruct Hin as [<- | Hin].
  - exists x, y. reflexivity.
  - apply (IH b Hin).
Qed.

(** The term of a channel whose uncertainty is zero or [nan] is [nan],
    whatever the data and the model are there. *)
Lemma chi_term_nan (d m y : npfloat) :
  y = Fin 0 \/ y = NaN ->
  (NP.pow2 (d - m) * (1 / NP.pow2 y) - NP.log (1 / NP.pow2 y))%np = NaN.
Proof.
  intros [-> | ->].
  - cbn [NP.pow2 NP.mul NP.div]. rewrite (Reqb_true (0 * 0) 0) by lra.
    unfold NP.scale_inf. rewrite (Rltb_true 0 1) by lra. cbn [NP.log].
    destruct (d - m)%np as [x | | |]; cbn [NP.pow2 NP.mul NP.sub NP.add NP.neg];
      try reflexivity.
    unfold NP.scale_inf.
    destruct (Rlt_dec 0 (x * x)) as [Hpos | Hnpos].
    + rewrite (Rltb_true _ _ Hpos). reflexivity.
    + rewrite (Rltb_false _ _ Hnpos).
      rewrite (Rltb_false (x * x) 0) by (pose proof (Rle_0_sqr x) as Hs;
                                         unfold Rsqr in Hs; lra).
      reflexivity.
  - cbn [NP.pow2 NP.mul NP.div NP.log].
    destruct (NP.pow2 (d - m))%np; reflexivity.
Qed.

Lemma chi_terms_nan (ints curr_model yerrs : list npfloat) (y : npfloat) :
  length curr_model = length ints -> length yerrs = length ints ->
  In y yerrs -> y = Fin 0 \/ y = NaN ->
  In NaN (chi_terms ints curr_model yerrs).
Proof.
  intros Lm Ly Hin Hy. unfold chi_terms.
  set (resid := map2 (fun d m => NP.pow2 (d - m)%np) ints curr_model).
  assert (Lr : length resid = length ints) by (apply map2_length; congruence).
  pose proof (in_map (fun y0 => (1 / NP.pow2 y0)%np) yerrs y Hin) as Hw.
  assert (Lw : length resid = length (map (fun y0 => (1 / NP.pow2 y0)%np) yerrs))
    by (rewrite length_map; congruence).
  destruct (In_map2_r (fun r w => (r * w - NP.log w)%np) resid _ _ Lw Hw)
    as (r & Hr & Hterm).
  destruct (In_map2_inv _ _ _ _ Hr) as (d & m & ->).
  rewrite (chi_term_nan d m y Hy) in Hterm. exact Hterm.
Qed.

Lemma neg_half_nan : (- 0.5 * NaN)%np = NaN.
Proof. reflexivity. Qed.

(** X10: one channel without a usable uncertainty spoils the whole
    likelihood.  When [lnlike] returns (with [h] and [k] other than zero: a
    grid of one shape, lines that the simulations cover, and no channel on
    which a Planck term divides by zero) and the uncertainty of some channel
    is zero or [nan], as [read_file] can store it, the value returned is
    [nan], whatever the other channels are; and [lnprob] returns [nan]
    wherever the prior is a real number. *)
Theorem lnlike_nan_without_uncertainty (theta : vec14) (dg : datagrid)
    (mol_cat : MolCat) (s m : vec14) (c : calls) (y : npfloat) :
  h <> 0 -> k <> 0 ->
  length (dg_freqs dg) = length (dg_ints dg) ->
  length (dg_yerrs dg) = length (dg_ints dg) ->
  Forall (fun sim => sim_covers sim (dg_line_ids dg))
         (component_sims MolCat mol_sim theta mol_cat) ->
  ~ divides_by_zero (v8 theta) (dg_freqs dg) ->
  In y (dg_yerrs dg) -> y = Fin 0 \/ y = NaN ->
  lnlike cm ckm h k MolCat mol_sim theta dg mol_cat c = (Some NaN, after_lnlike c 1) /\
  (finite (lnprior theta s m) ->
   lnprob cm ckm h k MolCat mol_sim theta dg mol_cat s m c
   = (Some NaN, after_lnlike c 1)).
Proof.
  intros Hh Hk Hgrid Hyerrs Hcov Hno Hin Hy.
  destruct (lnlike_value theta dg mol_cat c Hgrid Hyerrs Hcov
              (no_division_by_zero h k _ _ Hh Hk Hno)) as (model & Lm & E).
  rewrite (sum_nan _ (chi_terms_nan _ _ _ y Lm Hyerrs Hin Hy)), neg_half_nan in E.
  split; [exact E |].
  intros [lp Elp].
  rewrite (lnprob_finite_prior cm ckm h k MolCat mol_sim theta dg mol_cat s m c lp Elp).
  rewrite E. reflexivity.
Qed.

(** X11: on an empty grid the likelihood is flat.  When the three arrays of
    the grid are empty, as [read_file] returns them when no line is covered,
    [lnlike] returns 0 at every [theta] whose simulations cover the line
    indices, and [lnprob] returns the prior. *)
Theorem lnlike_zero_on_empty_grid (theta : vec14) (dg : datagrid)
    (mol_cat : MolCat) (s m : vec14) (c : calls) :
  dg_freqs dg = [] -> dg_ints dg = [] -> dg_yerrs dg = [] ->
  Forall (fun sim => sim_covers sim (dg_line_ids dg))
         (component_sims MolCat mol_sim theta mol_cat) ->
  lnlike cm ckm h k MolCat mol_sim theta dg mol_cat c = (Some (Fin 0), after_lnlike c 1) /\
  (forall lp : R,
     lnprior theta s m = Fin lp ->
     lnprob cm ckm h k MolCat mol_sim theta dg mol_cat s m c
     = (Some (Fin lp), after_lnlike c 1)).
Proof.
  intros Ef Ei Ey Hcov.
  destruct (lnlike_value theta dg mol_cat c) as (model & Lm & E);
    [rewrite Ef, Ei; reflexivity | rewrite Ey, Ei; reflexivity | exact Hcov
     | rewrite Ef; split; constructor |].
  rewrite Ei in Lm. destruct model; [| discriminate].
  rewrite Ei, Ey in E. cbn [chi_terms map2 map NP.sum fold_left NP.mul NP.neg] in E.
  split; [rewrite E; do 3 f_equal; lra |].
  intros lp Elp.
  rewrite (lnprob_finite_prior cm ckm h k MolCat mol_sim theta dg mol_cat s m c lp Elp).
  rewrite E. cbn [fst snd NP.add]. do 3 f_equal. lra.
Qed.

(** ** From the setup to the likelihood *)

Lemma gather_length (a : list npfloat) (locs : list nat) :
  length (gather a locs) = length locs.
Proof. apply length_map. Qed.

(** The shape of what [read_file] returns. *)
Lemma read_file_shape (data0 data1 restfreqs int_sim : list npfloat) (shift : npfloat)
    (GHz block : bool) (fs ints ys : list npfloat) (cov : list nat) :
  read_file data0 data1 restfreqs int_sim shift GHz block = Some (fs, ints, ys, cov) ->
  length fs = length ints /\ length ys = length ints /\
  forall i, In i cov -> (i < length restfreqs)%nat.
Proof.
  intros H. destruct (read_file_output _ _ _ _ _ _ _ _ _ _ _ H)
    as (kept & Hcov & _ & -> & -> & Hys).
  rewrite !gather_length. split; [reflexivity |]. split.
  - symmetry. eapply Forall2_length. exact Hys.
  - intros i Hi. apply Hcov in Hi. destruct Hi as (rf & Erf & _).
    apply nth_error_Some. rewrite Erf. discriminate.
Qed.

(** The frequencies that [read_file] returns are above zero. *)
Lemma read_file_frequencies (data0 data1 restfreqs int_sim : list npfloat)
    (shift : npfloat) (GHz block : bool) (fs ints ys : list npfloat) (cov : list nat) :
  read_file data0 data1 restfreqs int_sim shift GHz block = Some (fs, ints, ys, cov) ->
  Forall (np_lt 0) fs.
Proof.
  intros H. destruct (read_file_output _ _ _ _ _ _ _ _ _ _ _ H)
    as (kept & _ & Hkept & -> & _ & _).
  unfold gather. apply Forall_forall. intros nu Hnu.
  apply in_map_iff in Hnu. destruct Hnu as (j & <- & Hj).
  apply Hkept in Hj. destruct Hj as [_ Hpos]. exact Hpos.
Qed.

Lemma positive_grid_no_division (Tex : npfloat) (fs : list npfloat) :
  Tex <> PInf -> Tex <> NInf -> Forall (np_lt 0) fs -> ~ divides_by_zero Tex fs.
Proof.
  intros Hp Hn Hfs Hdiv. unfold divides_by_zero in Hdiv.
  apply Exists_exists in Hdiv. destruct Hdiv as (nu & Hin & [-> | (_ & [E | E])]).
  - rewrite Forall_forall in Hfs. specialize (Hfs _ Hin).
    unfold np_lt in Hfs. cbn [NP.ltb] in Hfs. rewrite Rltb_false in Hfs by lra.
    discriminate.
  - contradiction.
  - contradiction.
Qed.

(** On a table [lnlike] raises after the four simulator calls. *)
Lemma lnlike_loaded_table (theta : vec14) (dg : datagrid) (mol_cat : MolCat) (c : calls) :
  lnlike_loaded cm ckm h k MolCat mol_sim theta (Table dg) mol_cat c
  = (None, after_lnlike c 0).
Proof.
  destruct theta as [t0 t1 t2 t3 t4 t5 t6 t7 t8 t9 t10 t11 t12 t13]. reflexivity.
Qed.

(** X12: whether [lnlike] can read the grid that [init_setup] saves depends
    on two counts.  With [h] and [k] other than zero, when the line simulator
    returns arrays of one length [n] whatever the parameters are, and the two
    rows of the data have one length, [read_file] returns four arrays of which
    the first three have one length, with line indices below [n].  When the
    number of covered lines differs from the number of returned channels,
    [init_setup] saves an array of these four arrays, on which [lnlike]
    returns a value at every [theta] whose [Tex] is not infinite: no index
    error, no shape error, no division by zero.  When the two numbers are
    equal, in particular when no line is covered, [init_setup] saves a table
    of shape [(4, n)], on which [lnlike] raises after its four simulator
    calls, at every [theta]. *)
Theorem init_setup_grid_fits_lnlike (data0 data1 : list npfloat) (mol_cat : MolCat)
    (block_interlopers : bool) (n : nat) :
  h <> 0 -> k <> 0 ->
  (forall source_size Ncol Tex dV,
     sim_shape n (mol_sim source_size Ncol Tex dV mol_cat)) ->
  length data0 = length data1 ->
  exists dg,
    read_file data0 data1
              (fst (fst (mol_sim 40 7e11 8 0.37 mol_cat)))
              (snd (fst (mol_sim 40 7e11 8 0.37 mol_cat))) 0 false block_interlopers
    = Some (dg_freqs dg, dg_ints dg, dg_yerrs dg, dg_line_ids dg) /\
    length (dg_freqs dg) = length (dg_ints dg) /\
    length (dg_yerrs dg) = length (dg_ints dg) /\
    (forall i, In i (dg_line_ids dg) -> (i < n)%nat) /\
    (length (dg_line_ids dg) <> length (dg_freqs dg) ->
     init_setup MolCat mol_sim data0 data1 mol_cat block_interlopers = Some (Rows dg) /\
     forall (theta : vec14) (c : calls),
       v8 theta <> PInf -> v8 theta <> NInf ->
       exists value,
         lnlike_loaded cm ckm h k MolCat mol_sim theta (Rows dg) mol_cat c
         = (Some value, after_lnlike c 1)) /\
    (length (dg_line_ids dg) = length (dg_freqs dg) ->
     init_setup MolCat mol_sim data0 data1 mol_cat block_interlopers = Some (Table dg) /\
     forall (theta : vec14) (c : calls),
       lnlike_loaded cm ckm h k MolCat mol_sim theta (Table dg) mol_cat c
       = (None, after_lnlike c 0)).
Proof.
  intros Hh Hk Hsim Hrows. unfold init_setup.
  pose proof (Hsim 40 7e11 8 0.37) as Hs0.
  destruct (mol_sim 40 7e11 8 0.37 mol_cat) as [[freq_sim int_sim] tau_sim].
  destruct Hs0 as (Lf & Li & _). cbn [fst snd].
  destruct (read_file_defined data0 data1 freq_sim int_sim 0 false block_interlopers
              Hrows ltac:(lia)) as (fs & ints & ys & cov & E).
  rewrite E.
  destruct (read_file_shape _ _ _ _ _ _ _ _ _ _ _ E) as (L1 & L2 & Hcov).
  pose proof (read_file_frequencies _ _ _ _ _ _ _ _ _ _ _ E) as Hfs.
  exists (Datagrid fs ints ys cov). cbn [dg_freqs dg_ints dg_yerrs dg_line_ids].
  split; [reflexivity |]. split; [exact L1 |]. split; [exact L2 |].
  assert (Hn : forall i, In i cov -> (i < n)%nat) by (intros i Hi; rewrite <- Lf; auto).
  split; [exact Hn |].
  unfold np_array_object. cbn [dg_freqs dg_ints dg_yerrs dg_line_ids].
  rewrite <- L1, L2, L1, !Nat.eqb_refl. cbn [andb]. split.
  - intros Hne. apply Nat.eqb_neq in Hne. rewrite Hne.
    split; [reflexivity |].
    intros theta c Hp Hneg. cbn [lnlike_loaded].
    destruct (lnlike_value theta (Datagrid fs ints ys cov) mol_cat c L1 L2)
      as (model & _ & El); [| | eexists; exact El].
    + unfold component_sims. cbn [dg_line_ids].
      repeat constructor;
        match goal with
        | |- sim_covers (mol_sim ?a ?b ?c ?d ?e) _ =>
            pose proof (Hsim a b c d) as Hs; destruct (mol_sim a b c d e) as [[f1 i1] t1];
            destruct Hs as (Hf1 & Hi1 & Ht1); intros j Hj; apply Hn in Hj; lia
        end.
    + apply no_division_by_zero; try assumption.
      apply positive_grid_no_division; assumption.
  - intros Heq. rewrite Heq, Nat.eqb_refl.
    split; [reflexivity |]. intros theta c. apply lnlike_loaded_table.
Qed.

End Likelihood.

Ltac one_line_covered :=
  unfold component_sims;
  repeat (apply Forall_cons;
          [unfold sim_covers; intros i [<- | []]; repeat split; apply le_n |]);
  apply Forall_nil.

Ltac one_channel_no_division :=
  unfold divides_by_zero; intros Hdiv;
  apply Exists_exists in Hdiv;
  destruct Hdiv as (nu & [<- | []] & [E | (_ & [E | E])]);
  [injection E as E; lra | discriminate E | discriminate E].

(** The witness of X9: one line at 20000 MHz and a grid of one channel. *)
Lemma lnlike_returns_witness :
  exists value,
    lnlike 29979245800 299792.458 6.626e-27 1.381e-16 unit
           (fun _ _ _ _ _ => ([Fin 20000], [Fin 1], [Fin 1]))
           template_initial (Datagrid [Fin 19999.6] [Fin 0.01] [Fin 0.1] [0%nat]) tt
           (Calls 0 0)
    = (Some value, after_lnlike (Calls 0 0) 1).
Proof.
  apply (proj2 (proj2 (lnlike_returns_iff_lines_simulated
                  29979245800 299792.458 6.626e-27 1.381e-16 unit
                  (fun _ _ _ _ _ => ([Fin 20000], [Fin 1], [Fin 1]))
                  template_initial (Datagrid [Fin 19999.6] [Fin 0.01] [Fin 0.1] [0%nat]) tt
                  (Calls 0 0) ltac:(lra) ltac:(lra) eq_refl eq_refl))).
  - one_line_covered.
  - one_channel_no_division.
Defined.

(** The witness of X10: the same grid with an uncertainty of zero. *)
Lemma lnlike_nan_without_uncertainty_witness :
  lnlike 29979245800 299792.458 6.626e-27 1.381e-16 unit
         (fun _ _ _ _ _ => ([Fin 20000], [Fin 1], [Fin 1]))
         template_initial (Datagrid [Fin 19999.6] [Fin 0.01] [Fin 0] [0%nat]) tt
         (Calls 0 0)
  = (Some NaN, after_lnlike (Calls 0 0) 1).
Proof.
  apply (proj1 (lnlike_nan_without_uncertainty
                  29979245800 299792.458 6.626e-27 1.381e-16 unit
                  (fun _ _ _ _ _ => ([Fin 20000], [Fin 1], [Fin 1]))
                  template_initial (Datagrid [Fin 19999.6] [Fin 0.01] [Fin 0] [0%nat]) tt
                  template_prior_stds template_initial (Calls 0 0) (Fin 0)
                  ltac:(lra) ltac:(lra) eq_refl eq_refl
                  ltac:(one_line_covered) ltac:(one_channel_no_division)
                  (or_introl eq_refl) (or_introl eq_refl))).
Defined.

(** The witness of X11: an empty grid with one recorded line. *)
Lemma lnlike_zero_on_empty_grid_witness :
  lnlike 29979245800 299792.458 6.626e-27 1.381e-16 unit
         (fun _ _ _ _ _ => ([Fin 20000], [Fin 1], [Fin 1]))
         template_initial (Datagrid [] [] [] [0%nat]) tt (Calls 0 0)
  = (Some (Fin 0), after_lnlike (Calls 0 0) 1).
Proof.
  apply (proj1 (lnlike_zero_on_empty_grid
                  29979245800 299792.458 6.626e-27 1.381e-16 unit
                  (fun _ _ _ _ _ => ([Fin 20000], [Fin 1], [Fin 1]))
                  template_initial (Datagrid [] [] [] [0%nat]) tt
                  template_prior_stds template_initial (Calls 0 0)
                  eq_refl eq_refl eq_refl
                  ltac:(one_line_covered))).
Defined.

(** The witness of X12: a spectrum of one channel and a catalogue of one
    line; the channel is returned and the line is covered, so that the grid
    is saved as a table. *)
Lemma init_setup_grid_fits_lnlike_witness :
  init_setup unit (fun _ _ _ _ _ => ([Fin 300000], [Fin 1], [Fin 1]))
             [Fin 299994.5] [Fin 0] tt true
  = Some (Table (Datagrid [Fin 299994.5] [Fin 0] [Fin 0] [0%nat])) /\
  forall (theta : vec14) (c : calls),
    lnlike_loaded 29979245800 299792.458 6.626e-27 1.381e-16 unit
                  (fun _ _ _ _ _ => ([Fin 300000], [Fin 1], [Fin 1])) theta
                  (Table (Datagrid [Fin 299994.5] [Fin 0] [Fin 0] [0%nat])) tt c
    = (None, after_lnlike c 0).
Proof.
  destruct (init_setup_grid_fits_lnlike 29979245800 299792.458 6.626e-27 1.381e-16 unit
              (fun _ _ _ _ _ => ([Fin 300000], [Fin 1], [Fin 1]))
              [Fin 299994.5] [Fin 0] tt true 1)
    as ([fs ints ys cov] & E & _ & _ & _ & _ & Htable).
  - lra.
  - lra.
  - intros. repeat split.
  - reflexivity.
  - cbn [fst snd dg_freqs dg_ints dg_yerrs dg_line_ids] in E, Htable.
    rewrite read_file_one_channel in E. injection E as <- <- <- <-.
    apply Htable. reflexivity.
Defined.

(** ** Noise of a flat window *)

Lemma fold_add_repeat (c a : R) (n : nat) :
  fold_left NP.add (repeat (Fin c) n) (Fin a) = Fin (a + INR n * c).
Proof.
  revert a. induction n as [| n IH]; intros a.
  - cbn [repeat fold_left INR]. f_equal. ring.
  - cbn [repeat fold_left NP.add]. rewrite IH, S_INR. f_equal. ring.
Qed.

Lemma not_nan_repeat (c : R) (n : nat) : not_nan (repeat (Fin c) n) = repeat (Fin c) n.
Proof.
  unfold not_nan. induction n as [| n IH]; cbn [repeat filter NP.isnan negb];
    [reflexivity | rewrite IH; reflexivity].
Qed.

Lemma nanmean_flat (c : R) (n : nat) : (0 < n)%nat -> nanmean (repeat (Fin c) n) = Fin c.
Proof.
  intros Hn. apply lt_0_INR in Hn.
  unfold nanmean, NP.sum. rewrite not_nan_repeat, repeat_length, fold_add_repeat.
  cbn [NP.div]. rewrite (Reqb_false (INR n) 0) by lra.
  f_equal. field. lra.
Qed.

Lemma nanstd_flat (c : R) (n : nat) : (0 < n)%nat -> nanstd (repeat (Fin c) n) = Fin 0.
Proof.
  intros Hn. unfold nanstd. rewrite (nanmean_flat c n Hn).
  apply lt_0_INR in Hn.
  unfold NP.sum. rewrite not_nan_repeat, repeat_length, map_repeat.
  cbn [NP.pow2 NP.sub NP.add NP.neg NP.mul]. rewrite fold_add_repeat.
  cbn [NP.div]. rewrite (Reqb_false (INR n) 0) by lra.
  replace ((0 + INR n * ((c + - c) * (c + - c))) / INR n) with 0 by (field; lra).
  cbn [NP.sqrt]. rewrite (Rltb_false 0 0) by lra. f_equal. apply sqrt_0.
Qed.

Lemma where_from_none {A : Type} (f : A -> bool) (l : list A) (start : nat) :
  (forall x, In x l -> f x = false) -> where_from start (map f l) = [].
Proof.
  revert start. induction l as [| x l IH]; intros start H; cbn [map where_from];
    [reflexivity |].
  rewrite (H x (or_introl eq_refl)). apply IH. intros y Hy. apply H. right. exact Hy.
Qed.

(** Around a mean that every channel equals, with a standard deviation of
    zero, no channel is an outlier, whatever the threshold is. *)
Lemma flat_no_outliers (c : R) (n : nat) (threshold : npfloat) :
  low_outliers (repeat (Fin c) n) (Fin c) (Fin 0) threshold = [] /\
  high_outliers (repeat (Fin c) n) (Fin c) (Fin 0) threshold = [].
Proof.
  unfold low_outliers, high_outliers, np_where.
  split; apply where_from_none; intros x Hx; apply repeat_spec in Hx; subst x;
    destruct threshold as [t | | |];
    cbn [NP.sub NP.add NP.neg NP.mul NP.gtb NP.ltb]; unfold NP.scale_inf;
    rewrite ?(Rltb_false 0 (- 0)) by lra; rewrite ?(Rltb_false (- 0) 0) by lra;
    rewrite ?(Rltb_false 0 0) by lra;
    cbn [NP.ltb]; try reflexivity; apply Rltb_false; lra.
Qed.

Lemma calc_noise_std_flat (c : R) (n : nat) (threshold : npfloat) :
  (0 < n)%nat -> calc_noise_std (repeat (Fin c) n) threshold = (Fin c, Fin 0).
Proof.
  intros Hn.
  rewrite calc_noise_std_stable; rewrite (nanmean_flat c n Hn), (nanstd_flat c n Hn);
    [reflexivity |].
  destruct (flat_no_outliers c n threshold) as [-> ->]. reflexivity.
Qed.

Lemma max_flat (c : R) (n : nat) : (0 < n)%nat -> NP.max (repeat (Fin c) n) = Some (Fin c).
Proof.
  intros Hn. destruct n as [| n]; [lia |]. clear Hn. cbn [repeat NP.max]. f_equal.
  induction n as [| n IH]; cbn [repeat fold_left]; [reflexivity |].
  unfold NP.max2 at 2. cbn [NP.isnan NP.ltb]. rewrite (Rltb_false c c) by lra. exact IH.
Qed.

(** X13: a flat window.  For a window of [n >= 1] channels that all hold the
    same real intensity [c], [calc_noise_std] returns the mean [c] and the
    standard deviation 0, whatever the threshold is.  The interloper test of
    [read_file], which compares the peak with six times that standard
    deviation, then holds exactly when [c] is above zero; and the uncertainty
    stored for a channel of such a window is a tenth of [|c|]. *)
Theorem flat_window_noise (c : R) (n : nat) (threshold : npfloat) :
  (0 < n)%nat ->
  calc_noise_std (repeat (Fin c) n) threshold = (Fin c, Fin 0) /\
  (is_interloper (repeat (Fin c) n) = true <-> 0 < c) /\
  yerr_of (snd (calc_noise_std (repeat (Fin c) n) default_threshold)) (Fin c)
  = Fin (0.1 * Rabs c).
Proof.
  intros Hn. split; [apply calc_noise_std_flat; exact Hn |]. split.
  - unfold is_interloper. rewrite (max_flat c n Hn), (calc_noise_std_flat c n _ Hn).
    cbn [snd NP.mul NP.gtb NP.ltb]. rewrite Rltb_true_iff. split; intros H; lra.
  - rewrite (calc_noise_std_flat c n _ Hn). unfold yerr_of.
    cbn [snd NP.pow2 NP.mul NP.add NP.sqrt].
    assert (Hsq : 0 * 0 + c * 0.1 * (c * 0.1) = Rsqr (0.1 * c)) by (unfold Rsqr; ring).
    rewrite Hsq. rewrite (Rltb_false (Rsqr (0.1 * c)) 0) by (pose proof (Rle_0_sqr (0.1 * c)); lra).
    f_equal. rewrite sqrt_Rsqr_abs, Rabs_mult. f_equal. apply Rabs_pos_eq. lra.
Qed.

(** The witness: three channels at 2. *)
Lemma flat_window_noise_witness :
  calc_noise_std [Fin 2; Fin 2; Fin 2] default_threshold = (Fin 2, Fin 0) /\
  (is_interloper [Fin 2; Fin 2; Fin 2] = true <-> 0 < 2).
Proof.
  destruct (flat_window_noise 2 3 default_threshold ltac:(lia)) as (E & I & _).
  split; [exact E | exact I].
Defined.

(** ** What the noise estimate can be *)

Lemma fill_from_real_or_nan (pos lo hi : nat) (a : list npfloat) :
  Forall real_or_nan a -> Forall real_or_nan (fill_from pos lo hi NaN a).
Proof.
  intros H. revert pos. induction H as [| x a Hx _ IH]; intros pos; cbn [fill_from];
    constructor; [| apply IH].
  destruct ((lo <=? pos)%nat && (pos <? hi)%nat); [right; reflexivity | exact Hx].
Qed.

Lemma mask_around_real_or_nan (noise : list npfloat) (chans : list nat) :
  Forall real_or_nan noise -> Forall real_or_nan (mask_around noise chans).
Proof.
  unfold mask_around. revert noise.
  induction chans as [| chan chans IH]; intros noise H; cbn [fold_left]; [exact H |].
  apply IH. apply fill_from_real_or_nan. exact H.
Qed.

Lemma not_nan_finite (a : list npfloat) :
  Forall real_or_nan a -> Forall finite (not_nan a).
Proof.
  unfold not_nan. induction 1 as [| x a Hx _ IH]; cbn [filter]; [constructor |].
  destruct Hx as [[r ->] | ->]; cbn [NP.isnan negb]; [| exact IH].
  constructor; [exists r; reflexivity | exact IH].
Qed.

Lemma fold_add_finite (a : list npfloat) (x : R) :
  Forall finite a -> exists total : R, fold_left NP.add a (Fin x) = Fin total.
Proof.
  intros H. revert x. induction H as [| y a [r ->] _ IH]; intros x; cbn [fold_left NP.add].
  - exists x. reflexivity.
  - apply IH.
Qed.

Lemma fold_add_squares (a : list npfloat) (avg x : R) :
  Forall finite a -> 0 <= x ->
  exists total : R,
    fold_left NP.add (map (fun y => NP.pow2 (y - Fin avg)%np) a) (Fin x) = Fin total /\
    0 <= total.
Proof.
  intros H. revert x.
  induction H as [| y a [r ->] _ IH]; intros x Hx;
    cbn [map fold_left NP.add NP.pow2 NP.sub NP.neg NP.mul].
  - exists x. split; [reflexivity | exact Hx].
  - apply IH. pose proof (Rle_0_sqr (r + - avg)) as Hs. unfold Rsqr in Hs. lra.
Qed.

Lemma INR_length_pos {A : Type} (a : list A) : a <> [] -> 0 < INR (length a).
Proof.
  intros H. apply lt_0_INR. destruct a; [congruence | cbn; lia].
Qed.

(** The statistics of an array of real numbers and [nan]s: both [nan] when
    no real number is left, both real otherwise. *)
Lemma nan_statistics (a : list npfloat) :
  Forall real_or_nan a ->
  (not_nan a = [] /\ nanmean a = NaN /\ nanstd a = NaN) \/
  (not_nan a <> [] /\
   exists mean std : R, nanmean a = Fin mean /\ nanstd a = Fin std /\ 0 <= std).
Proof.
  intros H. apply not_nan_finite in H.
  unfold nanstd, nanmean, NP.sum.
  destruct (not_nan a) as [| y rest] eqn:E.
  - left. split; [reflexivity |].
    cbn [fold_left map length INR NP.div]. rewrite (Reqb_true 0 0) by reflexivity.
    unfold NP.scale_inf. rewrite (Rltb_false 0 0) by lra.
    cbn [NP.sqrt]. split; reflexivity.
  - right. split; [discriminate |].
    assert (Hlen : 0 < INR (length (y :: rest))) by (apply INR_length_pos; discriminate).
    destruct (fold_add_finite (y :: rest) 0 H) as [total ->].
    cbn [NP.div]. rewrite (Reqb_false (INR (length (y :: rest))) 0) by lra.
    destruct (fold_add_squares (y :: rest) (total / INR (length (y :: rest))) 0 H
                ltac:(lra)) as (sq & -> & Hsq).
    cbn [NP.div]. rewrite (Reqb_false (INR (length (y :: rest))) 0) by lra.
    assert (Hq : 0 <= sq / INR (length (y :: rest))).
    { apply Rmult_le_pos; [exact Hsq | left; apply Rinv_0_lt_compat; exact Hlen]. }
    cbn [NP.sqrt]. rewrite (Rltb_false _ 0) by lra.
    do 2 eexists. split; [reflexivity | split; [reflexivity | apply sqrt_pos]].
Qed.

Lemma clip_cycle_masks (dummy_ints : list npfloat) (threshold : npfloat)
    (noise : list npfloat) (mean std : npfloat) :
  Forall real_or_nan noise ->
  exists noise',
    clip_cycle dummy_ints threshold (noise, mean, std)
    = (noise', nanmean noise', nanstd noise') /\
    Forall real_or_nan noise'.
Proof.
  intros H. unfold clip_cycle. eexists. split; [reflexivity |].
  apply mask_around_real_or_nan, mask_around_real_or_nan. exact H.
Qed.

(** What [calc_noise_std] returns: the statistics of a masked copy of the
    window. *)
Lemma calc_noise_std_masked (window : list npfloat) (threshold : npfloat) :
  Forall real_or_nan window ->
  exists noise,
    Forall real_or_nan noise /\
    calc_noise_std window threshold = (nanmean noise, nanstd noise).
Proof.
  intros H. unfold calc_noise_std.
  destruct (clip_cycle_masks window threshold window (nanmean window) (nanstd window) H)
    as (n1 & -> & H1).
  destruct (clip_cycle_masks window threshold n1 (nanmean n1) (nanstd n1) H1)
    as (n2 & -> & H2).
  destruct (clip_cycle_masks window threshold n2 (nanmean n2) (nanstd n2) H2)
    as (n3 & -> & H3).
  exists n3. split; [exact H3 | reflexivity].
Qed.

(** X14: what the noise estimate can be.  For a window of real numbers and
    [nan]s, [calc_noise_std] returns either a real mean with a real standard
    deviation that is not negative, or [(nan, nan)]; never an infinity and
    never one [nan] beside a number.  The empty window gives [(nan, nan)]. *)
Theorem calc_noise_std_real_or_nan (window : list npfloat) (threshold : npfloat) :
  Forall real_or_nan window ->
  (calc_noise_std window threshold = (NaN, NaN) \/
   exists mean std : R,
     calc_noise_std window threshold = (Fin mean, Fin std) /\ 0 <= std) /\
  calc_noise_std [] threshold = (NaN, NaN).
Proof.
  intros H.
  assert (Hgen : forall w, Forall real_or_nan w ->
            calc_noise_std w threshold = (NaN, NaN) \/
            exists mean std : R,
              calc_noise_std w threshold = (Fin mean, Fin std) /\ 0 <= std).
  { intros w Hw. destruct (calc_noise_std_masked w threshold Hw) as (noise & Hn & ->).
    destruct (nan_statistics noise Hn) as [(_ & -> & ->) | (_ & mean & std & -> & -> & Hs)].
    - left. reflexivity.
    - right. exists mean, std. split; [reflexivity | exact Hs]. }
  split; [apply Hgen; exact H |].
  assert (Hempty : forall chans, mask_around [] chans = []).
  { intros chans. unfold mask_around.
    induction chans as [| c chans IH]; cbn [fold_left]; [reflexivity | exact IH]. }
  unfold calc_noise_std, clip_cycle. rewrite !Hempty.
  unfold nanstd, nanmean. cbn [not_nan filter map length INR NP.sum fold_left NP.div].
  rewrite (Reqb_true 0 0) by reflexivity. unfold NP.scale_inf.
  rewrite (Rltb_false 0 0) by lra. reflexivity.
Qed.

(** The witness: a window with a [nan] between two numbers. *)
Lemma calc_noise_std_real_or_nan_witness :
  Forall real_or_nan [Fin 1; NaN; Fin 3] /\
  (calc_noise_std [Fin 1; NaN; Fin 3] default_threshold = (NaN, NaN) \/
   exists mean std : R,
     calc_noise_std [Fin 1; NaN; Fin 3] default_threshold = (Fin mean, Fin std) /\
     0 <= std).
Proof.
  assert (H : Forall real_or_nan [Fin 1; NaN; Fin 3]).
  { apply Forall_cons; [left; eexists; reflexivity |].
    apply Forall_cons; [right; reflexivity |].
    apply Forall_cons; [left; eexists; reflexivity | apply Forall_nil]. }
  split; [exact H |].
  exact (proj1 (calc_noise_std_real_or_nan [Fin 1; NaN; Fin 3] default_threshold H)).
Defined.

(** ** Outliers among the first ten channels *)

Lemma mask_around_early (noise : list npfloat) (chans : list nat) :
  (20 <= length noise)%nat -> (forall chan, In chan chans -> (chan < 10)%nat) ->
  mask_around noise chans = noise.
Proof.
  intros Hn. unfold mask_around.
  induction chans as [| chan chans IH]; intros H; cbn [fold_left]; [reflexivity |].
  rewrite set_slice_early_channel; [| exact Hn | apply H; left; reflexivity].
  apply IH. intros c Hc. apply H. right. exact Hc.
Qed.

(** X15: outliers among the first ten channels are never masked.  In a
    window of 20 channels or more, the slice [chan-10:chan+10] of a channel
    below 10 starts at a negative index and is empty; when every channel that
    the first cycle flags lies there, the three cycles change nothing and
    [calc_noise_std] returns the mean and the standard deviation of the whole
    window, outliers included. *)
Theorem early_outliers_are_never_masked (window : list npfloat) (threshold : npfloat) :
  (20 <= length window)%nat ->
  (forall chan,
     In chan (low_outliers window (nanmean window) (nanstd window) threshold) \/
     In chan (high_outliers window (nanmean window) (nanstd window) threshold) ->
     (chan < 10)%nat) ->
  calc_noise_std window threshold = (nanmean window, nanstd window).
Proof.
  intros Hn H. apply calc_noise_std_stable.
  rewrite (mask_around_early window) by (try exact Hn; intros c Hc; apply H; left; exact Hc).
  apply mask_around_early; [exact Hn |]. intros c Hc. apply H. right. exact Hc.
Qed.

(** The witness: the window of 26 channels with a spike on channel 3. *)
Lemma early_outliers_are_never_masked_witness :
  calc_noise_std early_spike default_threshold = (nanmean early_spike, nanstd early_spike).
Proof.
  apply early_outliers_are_never_masked.
  - apply Nat.leb_le. reflexivity.
  - rewrite early_spike_mean, early_spike_std, early_spike_low_outliers,
      early_spike_high_outliers.
    intros chan [[] | [<- | []]]. apply Nat.ltb_lt. reflexivity.
Defined.

(** ** When [read_file] returns *)

Lemma read_line_raises (freqs intensity int_sim : list npfloat) (shift : npfloat)
    (block : bool) (st : windows) (i : nat) (rf : npfloat) :
  (length int_sim <= i)%nat ->
  read_line freqs intensity int_sim shift block st i rf = None.
Proof.
  intros H. unfold read_line.
  apply nth_error_None in H. rewrite H. reflexivity.
Qed.

Lemma read_lines_raises (freqs intensity int_sim : list npfloat) (shift : npfloat)
    (block : bool) (rest : list npfloat) (i : nat) (st : windows) :
  (i <= length int_sim)%nat -> (length int_sim < i + length rest)%nat ->
  read_lines freqs intensity int_sim shift block i rest st = None.
Proof.
  revert i st. induction rest as [| rf rest IH]; intros i st Hi Hlen; cbn [length] in Hlen.
  - lia.
  - cbn [read_lines].
    destruct (Nat.eq_dec i (length int_sim)) as [-> | Hne].
    + rewrite read_line_raises by lia. reflexivity.
    + destruct (read_line freqs intensity int_sim shift block st i rf); [| reflexivity].
      apply IH; lia.
Qed.

Lemma scaled_freqs_length (data0 : list npfloat) (GHz : bool) :
  length (scaled_freqs data0 GHz) = length data0.
Proof. unfold scaled_freqs. destruct GHz; [apply length_map | reflexivity]. Qed.

Lemma read_file_raises (data0 data1 restfreqs int_sim : list npfloat) (shift : npfloat)
    (GHz block : bool) :
  (length int_sim < length restfreqs)%nat ->
  read_file data0 data1 restfreqs int_sim shift GHz block = None.
Proof.
  intros H. unfold read_file.
  destruct (negb _); [reflexivity |].
  rewrite read_lines_raises; [reflexivity | lia | lia].
Qed.

(** X16: when [read_file] returns.  On two rows of one length, [read_file]
    returns exactly when there is a simulated intensity for every rest
    frequency; with fewer simulated intensities than rest frequencies it
    raises (the read [int_sim[i]] past the end), whatever the data are. *)
Theorem read_file_returns_iff (data0 data1 restfreqs int_sim : list npfloat)
    (shift : npfloat) (GHz block : bool) :
  length data0 = length data1 ->
  ((exists result,
      read_file data0 data1 restfreqs int_sim shift GHz block = Some result) <->
   (length restfreqs <= length int_sim)%nat).
Proof.
  intros Hrows. split.
  - intros [result E].
    destruct (le_lt_dec (length restfreqs) (length int_sim)) as [Hle | Hlt];
      [exact Hle |].
    rewrite read_file_raises in E by exact Hlt. discriminate.
  - intros Hle.
    destruct (read_file_defined data0 data1 restfreqs int_sim shift GHz block Hrows Hle)
      as (fs & ints & ys & cov & E).
    eexists. exact E.
Qed.

(** The witness: one channel, one line, one simulated intensity. *)
Lemma read_file_returns_iff_witness :
  (exists result,
     read_file [Fin 299994.5] [Fin 0] [Fin 300000] [Fin 1] 0 false true = Some result) <->
  (length [Fin 300000] <= length [Fin 1])%nat.
Proof.
  apply (read_file_returns_iff [Fin 299994.5] [Fin 0] [Fin 300000] [Fin 1] 0 false true).
  reflexivity.
Defined.

(** ** The order of what [read_file] returns *)

Lemma where_from_increasing (mask : list bool) (start : nat) :
  increasing (where_from start mask).
Proof.
  revert start. induction mask as [| b mask IH]; intros start; cbn [where_from];
    [exact I |].
  destruct b; [| apply IH].
  cbn [increasing]. split; [| apply IH].
  intros y Hy. apply where_from_In in Hy. lia.
Qed.

Lemma increasing_snoc (l : list nat) (i : nat) :
  increasing l -> (forall y, In y l -> (y < i)%nat) -> increasing (l ++ [i]).
Proof.
  induction l as [| x l IH]; intros Hl Hlt; cbn [app increasing].
  - split; [intros y [] | exact I].
  - destruct Hl as [Hx Hl]. split.
    + intros y Hy. apply in_app_or in Hy. destruct Hy as [Hy | [<- | []]].
      * apply Hx. exact Hy.
      * apply Hlt. left. reflexivity.
    + apply IH; [exact Hl |]. intros y Hy. apply Hlt. right. exact Hy.
Qed.

Lemma increasing_NoDup (l : list nat) : increasing l -> NoDup l.
Proof.
  induction l as [| x l IH]; intros H; constructor.
  - destruct H as [Hx _]. intros Hin. specialize (Hx x Hin). lia.
  - apply IH. apply H.
Qed.

(** The loop records the lines in the order of their indices. *)
Lemma read_lines_covered_trans (freqs intensity int_sim : list npfloat) (shift : npfloat)
    (block : bool) (rest : list npfloat) (i : nat) (st st' : windows) :
  increasing (covered_trans st) ->
  (forall j, In j (covered_trans st) -> (j < i)%nat) ->
  read_lines freqs intensity int_sim shift block i rest st = Some st' ->
  increasing (covered_trans st') /\
  (forall j, In j (covered_trans st') -> (j < i + length rest)%nat).
Proof.
  revert i st. induction rest as [| rf rest IH]; intros i st Hinc Hlt Hrun;
    cbn [read_lines] in Hrun.
  - injection Hrun as <-. split; [exact Hinc |].
    intros j Hj. specialize (Hlt j Hj). lia.
  - destruct (read_line freqs intensity int_sim shift block st i rf) as [st1 |] eqn:Hline;
      [| discriminate].
    assert (H1 : increasing (covered_trans st1) /\
                 (forall j, In j (covered_trans st1) -> (j < S i)%nat)).
    { apply read_line_cases in Hline. destruct Hline as [[_ ->] | [_ ->]].
      - unfold store_window. cbn [covered_trans]. split.
        + apply increasing_snoc; assumption.
        + intros j Hj. apply in_app_or in Hj. destruct Hj as [Hj | [<- | []]];
            [specialize (Hlt j Hj) |]; lia.
      - split; [exact Hinc |]. intros j Hj. specialize (Hlt j Hj). lia. }
    destruct (IH (S i) st1 (proj1 H1) (proj2 H1) Hrun) as [Hinc' Hlt'].
    split; [exact Hinc' |]. intros j Hj. specialize (Hlt' j Hj). cbn [length]. lia.
Qed.

Lemma read_lines_covered_trans_of_file (data0 data1 restfreqs int_sim : list npfloat)
    (shift : npfloat) (GHz block : bool) (fs ints ys : list npfloat) (cov : list nat) :
  read_file data0 data1 restfreqs int_sim shift GHz block = Some (fs, ints, ys, cov) ->
  increasing cov /\ (forall i, In i cov -> (i < length restfreqs)%nat).
Proof.
  unfold read_file. cbv zeta.
  destruct (negb _); [discriminate |].
  destruct (read_lines _ _ _ _ _ _ _ _) as [st |] eqn:Hrun; [| discriminate].
  intros [= <- <- <- <-].
  apply read_lines_covered_trans in Hrun; [| exact I | intros j []].
  exact Hrun.
Qed.

(** X17: the recorded lines.  [covered_trans] comes back in strictly
    increasing order: no line is recorded twice, every index is an index of
    [restfreqs], and there are no more recorded lines than rest
    frequencies. *)
Theorem covered_trans_is_increasing (data0 data1 restfreqs int_sim : list npfloat)
    (shift : npfloat) (GHz block : bool) (fs ints ys : list npfloat) (cov : list nat) :
  read_file data0 data1 restfreqs int_sim shift GHz block = Some (fs, ints, ys, cov) ->
  increasing cov /\ NoDup cov /\
  (forall i, In i cov -> (i < length restfreqs)%nat) /\
  (length cov <= length restfreqs)%nat.
Proof.
  intros Hrun.
  destruct (read_lines_covered_trans_of_file _ _ _ _ _ _ _ _ _ _ _ Hrun) as [Hinc Hlt].
  pose proof (increasing_NoDup _ Hinc) as Hnd.
  split; [exact Hinc |]. split; [exact Hnd |]. split; [exact Hlt |].
  rewrite <- (length_seq (length restfreqs) 0).
  apply NoDup_incl_length; [exact Hnd |].
  intros j Hj. apply in_seq. specialize (Hlt j Hj). lia.
Qed.

(** The witness: the two overlapping windows, of which the first is blocked. *)
Lemma covered_trans_is_increasing_witness :
  read_file overlap_freqs overlap_ints overlap_lines [Fin 1; Fin 1] 0 false true
  = Some ([Fin 299994.5; Fin 299995], [Fin 3; Fin 0], [Fin (sqrt 2.34); Fin 1.5],
          [1%nat]) /\
  increasing [1%nat].
Proof.
  split; [exact read_file_overlap |].
  exact (proj1 (covered_trans_is_increasing _ _ _ _ _ _ _ _ _ _ _ read_file_overlap)).
Defined.

(** What [read_file] returns, with the channels kept in their order. *)
Lemma read_file_kept (data0 data1 restfreqs int_sim : list npfloat) (shift : npfloat)
    (GHz block : bool) (fs ints ys : list npfloat) (cov : list nat) :
  read_file data0 data1 restfreqs int_sim shift GHz block = Some (fs, ints, ys, cov) ->
  let freqs := scaled_freqs data0 GHz in
  exists kept : list nat,
    increasing kept /\
    (forall i, In i cov <->
               exists rf, nth_error restfreqs i = Some rf /\
                          accepted freqs data1 int_sim shift block i rf) /\
    (forall k, In k kept <->
               covered_channel freqs restfreqs shift cov k /\ np_lt 0 (nth k freqs NaN)) /\
    fs = gather freqs kept /\
    ints = gather data1 kept /\
    length ys = length kept.
Proof.
  intros Hrun. apply read_file_unfold in Hrun. cbv zeta in *.
  set (freqs := scaled_freqs data0 GHz) in *.
  destruct Hrun as (st & Hlen & Hinv & -> & -> & -> & ->).
  destruct Hinv as (L1 & L2 & L3 & Hcov & Hch).
  set (kept := np_where (map (fun f => (f >? 0)%np) (relevant_freqs st))).
  assert (Hkept : forall k, In k kept ->
            (k < length freqs)%nat /\ np_lt 0 (nth k (relevant_freqs st) NaN)).
  { intros k Hk. unfold kept in Hk. apply np_where_In in Hk.
    rewrite nth_error_map in Hk.
    destruct (nth_error (relevant_freqs st) k) as [x |] eqn:Hx; [| discriminate].
    cbn in Hk. injection Hk as Hk. split.
    - rewrite <- L1. apply nth_error_Some. congruence.
    - rewrite (nth_error_nth_NaN _ _ _ Hx). exact Hk. }
  assert (Hwritten : forall k, In k kept ->
            exists i rf,
              In i (covered_trans st) /\ nth_error restfreqs i = Some rf /\
              In k (window_locs freqs rf shift) /\
              nth k (relevant_freqs st) NaN = nth k freqs NaN /\
              nth k (relevant_intensity st) NaN = nth k data1 NaN).
  { intros k Hk. destruct (Hkept k Hk) as [Hlt Hpos].
    destruct (Hch k Hlt) as [(Z & _) | (i & rf & H1 & H2 & H3 & H4 & H5 & _)];
      [| exists i, rf; auto].
    rewrite Z in Hpos. unfold np_lt in Hpos. cbn in Hpos.
    rewrite Rltb_false in Hpos by lra. discriminate. }
  exists kept. split; [| split; [| split; [| split; [| split]]]].
  - apply where_from_increasing.
  - intros i. rewrite Hcov. split.
    + intros [_ H]. exact H.
    + intros (rf & Hrf & Hacc). split; [| exists rf; split; assumption].
      apply nth_error_Some. congruence.
  - intros k. split.
    + intros Hk. destruct (Hwritten k Hk) as (i & rf & Hi & Hrf & Hw & E & _).
      split; [exists i, rf; auto |].
      rewrite <- E. apply Hkept. exact Hk.
    + intros [(i & rf & Hi & Hrf & Hw) Hpos].
      assert (Hlt : (k < length freqs)%nat) by (eapply window_locs_in_range; exact Hw).
      destruct (Hch k Hlt) as [(_ & _ & _ & Hnc) | (j & rfj & _ & _ & _ & E & _)].
      * exfalso. apply Hnc. exists i, rf. auto.
      * unfold kept. apply np_where_In. rewrite nth_error_map.
        destruct (nth_error (relevant_freqs st) k) as [x |] eqn:Hx.
        -- cbn. f_equal. rewrite <- (nth_error_nth_NaN _ _ _ Hx), E. exact Hpos.
        -- apply nth_error_None in Hx. lia.
  - unfold gather. apply map_ext_in. intros k Hk.
    destruct (Hwritten k Hk) as (_ & _ & _ & _ & _ & E & _). exact E.
  - unfold gather. apply map_ext_in. intros k Hk.
    destruct (Hwritten k Hk) as (_ & _ & _ & _ & _ & _ & E). exact E.
  - apply gather_length.
Qed.

(** X18: the returned channels.  The three arrays that [read_file] returns
    hold the data of one list of channels, taken in increasing order: the
    order of the spectrum is kept and no channel comes twice, also where the
    windows of several lines overlap.  Every channel is a channel of the
    spectrum, and every returned frequency is above zero. *)
Theorem returned_channels_in_order (data0 data1 restfreqs int_sim : list npfloat)
    (shift : npfloat) (GHz block : bool) (fs ints ys : list npfloat) (cov : list nat) :
  read_file data0 data1 restfreqs int_sim shift GHz block = Some (fs, ints, ys, cov) ->
  exists kept : list nat,
    increasing kept /\ NoDup kept /\
    (forall k, In k kept -> (k < length data0)%nat) /\
    fs = gather (scaled_freqs data0 GHz) kept /\
    ints = gather data1 kept /\
    length ys = length kept /\
    (length fs <= length data0)%nat /\
    Forall (np_lt 0) fs.
Proof.
  intros Hrun. destruct (read_file_kept _ _ _ _ _ _ _ _ _ _ _ Hrun)
    as (kept & Hinc & _ & Hkept & -> & -> & Hys).
  pose proof (increasing_NoDup _ Hinc) as Hnd.
  assert (Hrange : forall k, In k kept -> (k < length data0)%nat).
  { intros k Hk. apply Hkept in Hk. destruct Hk as [(i & rf & _ & _ & Hw) _].
    apply window_locs_in_range in Hw. rewrite scaled_freqs_length in Hw. exact Hw. }
  exists kept. split; [exact Hinc |]. split; [exact Hnd |]. split; [exact Hrange |].
  split; [reflexivity |]. split; [reflexivity |]. split; [exact Hys |]. split.
  - rewrite gather_length, <- (length_seq (length data0) 0).
    apply NoDup_incl_length; [exact Hnd |].
    intros k Hk. apply in_seq. specialize (Hrange k Hk). lia.
  - apply Forall_forall. intros x Hx. unfold gather in Hx. apply in_map_iff in Hx.
    destruct Hx as (k & <- & Hk). apply Hkept in Hk. apply Hk.
Qed.

(** The witness: the two overlapping windows; channel 1 lies in both. *)
Lemma returned_channels_in_order_witness :
  read_file overlap_freqs overlap_ints overlap_lines [Fin 1; Fin 1] 0 false true
  = Some ([Fin 299994.5; Fin 299995], [Fin 3; Fin 0], [Fin (sqrt 2.34); Fin 1.5],
          [1%nat]) /\
  Forall (np_lt 0) [Fin 299994.5; Fin 299995].
Proof.
  split; [exact read_file_overlap |].
  destruct (returned_channels_in_order _ _ _ _ _ _ _ _ _ _ _ read_file_overlap)
    as (kept & _ & _ & _ & _ & _ & _ & _ & H).
  exact H.
Defined.

(** ** Blocking interlopers only removes *)

Lemma accepted_without_blocking (freqs intensity int_sim : list npfloat) (shift : npfloat)
    (block : bool) (i : nat) (rf : npfloat) :
  accepted freqs intensity int_sim shift block i rf ->
  accepted freqs intensity int_sim shift false i rf.
Proof.
  intros (Hs & Hw & _). split; [exact Hs |]. split; [exact Hw | discriminate].
Qed.

Lemma read_file_returned (data0 data1 restfreqs int_sim : list npfloat) (shift : npfloat)
    (GHz block : bool) (result : list npfloat * list npfloat * list npfloat * list nat) :
  read_file data0 data1 restfreqs int_sim shift GHz block = Some result ->
  length data0 = length data1 /\ (length restfreqs <= length int_sim)%nat.
Proof.
  intros E. split.
  - destruct result as [[[fs ints] ys] cov].
    destruct (read_file_unfold _ _ _ _ _ _ _ _ _ _ _ E) as (st & Hlen & _).
    rewrite scaled_freqs_length in Hlen. exact Hlen.
  - destruct (le_lt_dec (length restfreqs) (length int_sim)) as [Hle | Hlt];
      [exact Hle |].
    rewrite read_file_raises in E by exact Hlt. discriminate.
Qed.

(** X19: blocking interlopers only removes.  Whenever [read_file] returns
    with [block_interlopers=True], it returns with [block_interlopers=False]
    on the same input, and every line recorded and every channel returned by
    the first call is recorded and returned by the second: the option removes
    lines and channels and never adds one. *)
Theorem blocking_only_removes (data0 data1 restfreqs int_sim : list npfloat)
    (shift : npfloat) (GHz : bool) (fs ints ys : list npfloat) (cov : list nat) :
  read_file data0 data1 restfreqs int_sim shift GHz true = Some (fs, ints, ys, cov) ->
  exists fs' ints' ys' cov',
    read_file data0 data1 restfreqs int_sim shift GHz false = Some (fs', ints', ys', cov') /\
    incl cov cov' /\ (length cov <= length cov')%nat /\
    exists kept kept' : list nat,
      incl kept kept' /\ (length kept <= length kept')%nat /\
      fs = gather (scaled_freqs data0 GHz) kept /\ ints = gather data1 kept /\
      fs' = gather (scaled_freqs data0 GHz) kept' /\ ints' = gather data1 kept'.
Proof.
  intros Hrun.
  destruct (read_file_returned _ _ _ _ _ _ _ _ Hrun) as [Hrows Hsim].
  destruct (read_file_defined data0 data1 restfreqs int_sim shift GHz false Hrows Hsim)
    as (fs' & ints' & ys' & cov' & Hrun').
  exists fs', ints', ys', cov'. split; [exact Hrun' |].
  destruct (read_file_kept _ _ _ _ _ _ _ _ _ _ _ Hrun)
    as (kept & Hinc & Hcov & Hkept & Efs & Eints & _).
  destruct (read_file_kept _ _ _ _ _ _ _ _ _ _ _ Hrun')
    as (kept' & Hinc' & Hcov' & Hkept' & Efs' & Eints' & _).
  assert (Icov : incl cov cov').
  { intros i Hi. apply Hcov'. apply Hcov in Hi. destruct Hi as (rf & Hrf & Hacc).
    exists rf. split; [exact Hrf |]. eapply accepted_without_blocking. exact Hacc. }
  assert (Ikept : incl kept kept').
  { intros k Hk. apply Hkept'. apply Hkept in Hk.
    destruct Hk as [(i & rf & Hi & Hrf & Hw) Hpos].
    split; [| exact Hpos]. exists i, rf. split; [apply Icov; exact Hi | auto]. }
  split; [exact Icov |]. split.
  - apply NoDup_incl_length; [| exact Icov].
    apply increasing_NoDup.
    exact (proj1 (read_lines_covered_trans_of_file _ _ _ _ _ _ _ _ _ _ _ Hrun)).
  - exists kept, kept'. split; [exact Ikept |]. split.
    + apply NoDup_incl_length; [| exact Ikept]. apply increasing_NoDup. exact Hinc.
    + auto.
Qed.

(** The witness: the two overlapping windows; the first one, blocked as an
    interloper, is recorded without the blocking. *)
Lemma blocking_only_removes_witness :
  exists fs' ints' ys' cov',
    read_file overlap_freqs overlap_ints overlap_lines [Fin 1; Fin 1] 0 false false
    = Some (fs', ints', ys', cov') /\
    incl [1%nat] cov'.
Proof.
  destruct (blocking_only_removes _ _ _ _ _ _ _ _ _ _ read_file_overlap)
    as (fs' & ints' & ys' & cov' & E & I & _).
  exists fs', ints', ys', cov'. split; [exact E | exact I].
Defined.

(** ** A spectrum that covers no line *)

Lemma no_element_nil {A : Type} (l : list A) : (forall x, ~ In x l) -> l = [].
Proof.
  destruct l as [| x l]; [reflexivity |]. intros H. destruct (H x). left. reflexivity.
Qed.

(** X20: a spectrum that covers no line.  When no line is accepted (each is
    insignificant, or has no channel in its window, or is blocked as an
    interloper), [read_file] returns four empty arrays; so it does in
    particular when no channel of the spectrum lies in the window of any rest
    frequency, and when there is no rest frequency at all. *)
Theorem nothing_accepted_nothing_returned (data0 data1 restfreqs int_sim : list npfloat)
    (shift : npfloat) (GHz block : bool) :
  length data0 = length data1 -> (length restfreqs <= length int_sim)%nat ->
  (forall i rf, nth_error restfreqs i = Some rf ->
     ~ accepted (scaled_freqs data0 GHz) data1 int_sim shift block i rf) ->
  read_file data0 data1 restfreqs int_sim shift GHz block = Some ([], [], [], []).
Proof.
  intros Hrows Hsim Hnone.
  destruct (read_file_defined data0 data1 restfreqs int_sim shift GHz block Hrows Hsim)
    as (fs & ints & ys & cov & Hrun).
  rewrite Hrun.
  destruct (read_file_kept _ _ _ _ _ _ _ _ _ _ _ Hrun)
    as (kept & _ & Hcov & Hkept & -> & -> & Hys).
  assert (Ecov : cov = []).
  { apply no_element_nil. intros i Hi. apply Hcov in Hi.
    destruct Hi as (rf & Hrf & Hacc). exact (Hnone i rf Hrf Hacc). }
  assert (Ekept : kept = []).
  { apply no_element_nil. intros k Hk. apply Hkept in Hk.
    destruct Hk as [(i & rf & Hi & _) _]. rewrite Ecov in Hi. destruct Hi. }
  subst cov kept. destruct ys; [reflexivity | discriminate].
Qed.

(** The witness: a channel at 1 MHz under a line at 300000 MHz. *)
Lemma nothing_accepted_nothing_returned_witness :
  read_file [Fin 1] [Fin 5] [Fin 300000] [Fin 1] 0 false true = Some ([], [], [], []).
Proof.
  apply nothing_accepted_nothing_returned; [reflexivity | apply le_n |].
  intros i rf Hrf (_ & Hw & _). apply Hw.
  destruct i as [| i]; [| destruct i; discriminate].
  injection Hrf as <-.
  unfold window_locs, velocity, in_window, scaled_freqs. np_eval. reflexivity.
Defined.

(** ** The window of a line in frequency *)

(** X21: the window of a line, in frequency.  For a rest frequency [rf]
    above zero and a real shift, the channels of the window are exactly the
    channels whose frequency is a real number strictly between
    [rf*(1 - (6.3 - shift)/300000)] and [rf*(1 - (5.3 - shift)/300000)]: a
    channel holding [nan] or an infinity is never selected.  A rest frequency
    of zero has an empty window. *)
Theorem window_in_frequency (freqs : list npfloat) (rf shift : R) (k : nat) :
  0 < rf ->
  (In k (window_locs freqs (Fin rf) (Fin shift)) <->
   exists f : R,
     nth_error freqs k = Some (Fin f) /\
     rf * (1 - (6.3 - shift) / 300000) < f < rf * (1 - (5.3 - shift) / 300000)) /\
  window_locs freqs (Fin 0) (Fin shift) = [].
Proof.
  intros Hrf. split.
  - rewrite window_locs_In.
    assert (Hv : forall f : R,
              velocity (Fin rf) (Fin shift) (Fin f)
              = Fin ((rf + - f) / rf * 300000 + shift)).
    { intros f. unfold velocity. cbn [NP.sub NP.add NP.neg NP.div].
      rewrite (Reqb_false rf 0) by lra. reflexivity. }
    assert (Hiff : forall f : R,
              5.3 < (rf + - f) / rf * 300000 + shift < 6.3 <->
              rf * (1 - (6.3 - shift) / 300000) < f < rf * (1 - (5.3 - shift) / 300000)).
    { intros f.
      assert (E : (rf + - f) / rf * 300000 + shift
                  = (1 - f / rf) * 300000 + shift) by (field; lra).
      rewrite E.
      assert (Hq : f = rf * (f / rf)) by (field; lra).
      set (q := f / rf) in *.
      split; intros [H1 H2].
      - rewrite Hq. split; apply Rmult_lt_compat_l; lra.
      - rewrite Hq in H1, H2. apply Rmult_lt_reg_l in H1, H2; lra. }
    split.
    + intros (x & Hx & Hw). apply in_window_bounds in Hw. unfold np_lt in Hw.
      destruct x as [f | | |].
      * exists f. split; [exact Hx |]. apply Hiff.
        rewrite Hv in Hw. cbn [NP.ltb] in Hw. rewrite !Rltb_true_iff in Hw. exact Hw.
      * exfalso. revert Hw. unfold velocity. np_eval. intros [H1 H2]; discriminate.
      * exfalso. revert Hw. unfold velocity. np_eval. intros [H1 H2]; discriminate.
      * exfalso. destruct Hw as [H _]. discriminate.
    + intros (f & Hf & Hw). exists (Fin f). split; [exact Hf |].
      apply in_window_bounds. unfold np_lt. rewrite Hv. cbn [NP.ltb].
      rewrite !Rltb_true_iff. apply Hiff. exact Hw.
  - apply no_element_nil. intros j Hj. apply window_locs_In in Hj.
    destruct Hj as (x & _ & Hw). apply in_window_bounds in Hw. unfold np_lt in Hw.
    revert Hw. unfold velocity.
    destruct x as [f | | |].
    + destruct (Rtotal_order f 0) as [Hf | [Hf | Hf]]; np_eval;
        intros [H1 H2]; discriminate.
    + np_eval. intros [H1 H2]; discriminate.
    + np_eval. intros [H1 H2]; discriminate.
    + intros [H1 H2]; discriminate.
Qed.

(** The witness: the line at 300000 MHz without shift; its window is the
    interval from 299993.7 to 299994.7 MHz. *)
Lemma window_in_frequency_witness :
  In 0%nat (window_locs [Fin 299994.5] (Fin 300000) (Fin 0)) <->
  exists f : R,
    nth_error [Fin 299994.5] 0 = Some (Fin f) /\
    300000 * (1 - (6.3 - 0) / 300000) < f < 300000 * (1 - (5.3 - 0) / 300000).
Proof.
  exact (proj1 (window_in_frequency [Fin 299994.5] 300000 0 0 ltac:(lra))).
Defined.

(** ** Overlapping windows *)

Lemma last_wins_step (freqs intensity int_sim restfreqs : list npfloat) (shift : npfloat)
    (block : bool) (done : nat) (st st' : windows) (rf : npfloat) :
  nth_error restfreqs done = Some rf ->
  loop_inv freqs intensity int_sim restfreqs shift block done st ->
  last_wins freqs intensity restfreqs shift st ->
  read_line freqs intensity int_sim shift block st done rf = Some st' ->
  last_wins freqs intensity restfreqs shift st'.
Proof.
  intros Hrf (L1 & L2 & L3 & Hcov & _) Hlast Hstep.
  apply read_line_cases in Hstep. destruct Hstep as [[Hacc ->] | [_ ->]]; [| exact Hlast].
  intros k Hk Hcovered.
  destruct (store_window_nth freqs intensity shift st done rf k L1 L2 L3)
    as (_ & E2 & E3).
  rewrite E2, E3. cbn [covered_trans store_window] in *.
  assert (Hbelow : forall j, In j (covered_trans st ++ [done]) -> (j <= done)%nat).
  { intros j Hj. apply in_app_or in Hj. destruct Hj as [Hj | [<- | []]]; [| lia].
    apply Hcov in Hj. lia. }
  destruct (existsb (Nat.eqb k) (window_locs freqs rf shift)) eqn:Ehit.
  - apply existsb_eqb_In in Ehit. exists done, rf. split; [| split; reflexivity].
    split; [apply in_or_app; right; left; reflexivity |].
    split; [exact Hrf | split; [exact Ehit |]].
    intros j rfj Hj _ _. apply Hbelow. exact Hj.
  - assert (Hout : ~ In k (window_locs freqs rf shift)).
    { intros Hin. apply existsb_eqb_In in Hin. congruence. }
    assert (Hold : covered_channel freqs restfreqs shift (covered_trans st) k).
    { destruct Hcovered as (j & rfj & Hj & Hnj & Hw). apply in_app_or in Hj.
      destruct Hj as [Hj | [<- | []]]; [exists j, rfj; auto |].
      rewrite Hrf in Hnj. injection Hnj as <-. contradiction. }
    destruct (Hlast k Hk Hold) as (i & rfi & (Hi & Hni & Hwi & Hmax) & V).
    exists i, rfi. split; [| exact V].
    split; [apply in_or_app; left; exact Hi |]. split; [exact Hni | split; [exact Hwi |]].
    intros j rfj Hj Hnj Hw. apply in_app_or in Hj.
    destruct Hj as [Hj | [<- | []]]; [apply (Hmax j rfj); assumption |].
    rewrite Hrf in Hnj. injection Hnj as <-. contradiction.
Qed.

Lemma nth_error_skipn_head {A : Type} (l rest : list A) (n : nat) (x : A) :
  skipn n l = x :: rest -> nth_error l n = Some x.
Proof.
  revert l. induction n as [| n IH]; intros [| y l] H; cbn in H; try discriminate.
  - injection H as -> _. reflexivity.
  - cbn. apply IH. exact H.
Qed.

Lemma read_lines_last_wins (freqs intensity int_sim restfreqs : list npfloat)
    (shift : npfloat) (block : bool) (rest : list npfloat) (done : nat)
    (st st' : windows) :
  skipn done restfreqs = rest ->
  loop_inv freqs intensity int_sim restfreqs shift block done st ->
  last_wins freqs intensity restfreqs shift st ->
  read_lines freqs intensity int_sim shift block done rest st = Some st' ->
  last_wins freqs intensity restfreqs shift st'.
Proof.
  revert done st. induction rest as [| rf rest IH]; intros done st Hskip Hinv Hlast Hrun;
    cbn [read_lines] in Hrun.
  - injection Hrun as <-. exact Hlast.
  - destruct (read_line freqs intensity int_sim shift block st done rf) as [st1 |] eqn:Hstep;
      [| discriminate].
    pose proof (nth_error_skipn_head _ _ _ _ Hskip) as Hrf.
    apply (IH (S done) st1).
    + replace (S done) with (1 + done)%nat by lia. rewrite <- skipn_skipn, Hskip. reflexivity.
    + eapply loop_inv_step; eassumption.
    + eapply last_wins_step; eassumption.
    + exact Hrun.
Qed.

(** X22: where windows overlap, the last line wins.  A channel that lies in
    the windows of several recorded lines is returned once, and the
    uncertainty returned for it is the one computed with the noise of the
    window of the recorded line of highest index that covers it: each stored
    window overwrites what the windows before it stored. *)
Theorem overlapping_windows_last_line_wins (data0 data1 restfreqs int_sim : list npfloat)
    (shift : npfloat) (GHz block : bool) (fs ints ys : list npfloat) (cov : list nat) :
  read_file data0 data1 restfreqs int_sim shift GHz block = Some (fs, ints, ys, cov) ->
  let freqs := scaled_freqs data0 GHz in
  exists kept : list nat,
    NoDup kept /\
    fs = gather freqs kept /\
    ints = gather data1 kept /\
    Forall2 (fun k y =>
               exists i rf,
                 last_cover freqs restfreqs shift cov k i rf /\
                 y = yerr_of (window_noise freqs data1 rf shift) (nth k data1 NaN))
            kept ys.
Proof.
  intros Hfile. cbv zeta.
  destruct (read_file_kept _ _ _ _ _ _ _ _ _ _ _ Hfile)
    as (kept0 & _ & _ & Hkept0 & _).
  revert Hfile. unfold read_file. cbv zeta.
  set (freqs := scaled_freqs data0 GHz) in *.
  destruct (length freqs =? length data1)%nat eqn:Hlen;
    [change (negb true) with false; cbv iota | discriminate].
  apply Nat.eqb_eq in Hlen.
  destruct (read_lines freqs data1 int_sim shift block 0 restfreqs _) as [st |] eqn:Hrun;
    [| discriminate].
  set (mask := map (fun f => (f >? 0)%np) (relevant_freqs st)).
  intros Hsome.
  assert (Efs : fs = compress mask (relevant_freqs st)) by congruence.
  assert (Eints : ints = compress mask (relevant_intensity st)) by congruence.
  assert (Eys : ys = compress mask (relevant_yerrs st)) by congruence.
  assert (Ecov : cov = covered_trans st) by congruence.
  clear Hsome. subst fs ints ys cov.
  assert (Hinit : loop_inv freqs data1 int_sim restfreqs shift block 0
                    {| relevant_freqs := zeros (length freqs);
                       relevant_intensity := zeros (length data1);
                       relevant_yerrs := zeros (length freqs);
                       covered_trans := [] |})
    by (apply loop_inv_init; exact Hlen).
  assert (Hinv : loop_inv freqs data1 int_sim restfreqs shift block (length restfreqs) st).
  { eapply read_lines_inv; [| exact Hinit | exact Hrun]. reflexivity. }
  assert (Hlast : last_wins freqs data1 restfreqs shift st).
  { eapply read_lines_last_wins; [| exact Hinit | | exact Hrun]; [reflexivity |].
    intros k _ (j & rfj & [] & _). }
  destruct Hinv as (L1 & L2 & L3 & Hcov & Hch).
  assert (Lm : length mask = length freqs) by (unfold mask; rewrite length_map; exact L1).
  rewrite (compress_gather mask (relevant_freqs st)) by (rewrite Lm, L1; reflexivity).
  rewrite (compress_gather mask (relevant_intensity st)) by (rewrite Lm, L2; reflexivity).
  rewrite (compress_gather mask (relevant_yerrs st)) by (rewrite Lm, L3; reflexivity).
  set (kept := np_where mask).
  assert (Hkept : forall k, In k kept ->
            (k < length freqs)%nat /\ np_lt 0 (nth k (relevant_freqs st) NaN)).
  { intros k Hk. unfold kept, mask in Hk. apply np_where_In in Hk.
    rewrite nth_error_map in Hk.
    destruct (nth_error (relevant_freqs st) k) as [x |] eqn:Hx; [| discriminate].
    cbn in Hk. injection Hk as Hk. split.
    - rewrite <- L1. apply nth_error_Some. congruence.
    - rewrite (nth_error_nth_NaN _ _ _ Hx). exact Hk. }
  assert (Hwritten : forall k, In k kept ->
            covered_channel freqs restfreqs shift (covered_trans st) k /\
            nth k (relevant_freqs st) NaN = nth k freqs NaN).
  { intros k Hk. destruct (Hkept k Hk) as [Hlt Hpos].
    destruct (Hch k Hlt) as [(Z & _) | (i & rf & H1 & H2 & H3 & H4 & _)].
    - rewrite Z in Hpos. unfold np_lt in Hpos. cbn in Hpos.
      rewrite Rltb_false in Hpos by lra. discriminate.
    - split; [exists i, rf; auto | exact H4]. }
  exists kept. split; [| split; [| split]].
  - apply increasing_NoDup. apply where_from_increasing.
  - unfold gather. apply map_ext_in. intros k Hk. apply (Hwritten k Hk).
  - unfold gather. apply map_ext_in. intros k Hk.
    destruct (Hlast k (proj1 (Hkept k Hk)) (proj1 (Hwritten k Hk)))
      as (i & rf & _ & E & _). exact E.
  - unfold gather at 1. apply Forall2_map_self. intros k Hk.
    destruct (Hlast k (proj1 (Hkept k Hk)) (proj1 (Hwritten k Hk)))
      as (i & rf & Hl & _ & E).
    exists i, rf. split; [exact Hl | exact E].
Qed.

(** The witness: the two overlapping windows. *)
Lemma overlapping_windows_witness :
  exists kept : list nat,
    NoDup kept /\
    [Fin 299994.5; Fin 299995] = gather (scaled_freqs overlap_freqs false) kept /\
    [Fin 3; Fin 0] = gather overlap_ints kept /\
    Forall2 (fun k y =>
               exists i rf,
                 last_cover (scaled_freqs overlap_freqs false) overlap_lines 0 [1%nat] k i rf /\
                 y = yerr_of (window_noise (scaled_freqs overlap_freqs false) overlap_ints rf 0)
                             (nth k overlap_ints NaN))
            kept [Fin (sqrt 2.34); Fin 1.5].
Proof.
  exact (overlapping_windows_last_line_wins _ _ _ _ _ _ _ _ _ _ _ read_file_overlap).
Defined.

(** ** The channels that the noise estimate leaves out *)

Lemma fill_from_length (pos lo hi : nat) (v : npfloat) (a : list npfloat) :
  length (fill_from pos lo hi v a) = length a.
Proof.
  revert pos. induction a as [| x a IH]; intros pos; cbn [fill_from length];
    [reflexivity | rewrite IH; reflexivity].
Qed.

Lemma set_slice_length (a : list npfloat) (start stop : Z) (v : npfloat) :
  length (set_slice a start stop v) = length a.
Proof. apply fill_from_length. Qed.

Lemma mask_around_length (noise : list npfloat) (chans : list nat) :
  length (mask_around noise chans) = length noise.
Proof.
  unfold mask_around. revert noise.
  induction chans as [| chan chans IH]; intros noise; cbn [fold_left]; [reflexivity |].
  rewrite IH. apply set_slice_length.
Qed.

(** A write of [nan] into a slice leaves every entry as it was or makes it
    [nan]. *)
Lemma nth_set_slice_nan (noise : list npfloat) (start stop : Z) (j : nat) :
  nth j (set_slice noise start stop NaN) NaN
  = if ((slice_index (length noise) start <=? j)
        && (j <? slice_index (length noise) stop))%nat
    then NaN else nth j noise NaN.
Proof.
  destruct (le_lt_dec (length noise) j) as [Hout | Hin].
  - rewrite !nth_overflow by (rewrite ?set_slice_length; exact Hout).
    destruct (_ && _); reflexivity.
  - unfold set_slice. rewrite nth_fill_from by exact Hin. reflexivity.
Qed.

Lemma mask_around_keeps_nan (noise : list npfloat) (chans : list nat) (j : nat) :
  nth j noise NaN = NaN -> nth j (mask_around noise chans) NaN = NaN.
Proof.
  unfold mask_around. revert noise.
  induction chans as [| chan chans IH]; intros noise H; cbn [fold_left]; [exact H |].
  apply IH. rewrite nth_set_slice_nan. destruct (_ && _); [reflexivity | exact H].
Qed.

Lemma mask_around_nan_or_same (noise : list npfloat) (chans : list nat) (j : nat) :
  nth j (mask_around noise chans) NaN = NaN \/
  nth j (mask_around noise chans) NaN = nth j noise NaN.
Proof.
  unfold mask_around. revert noise.
  induction chans as [| chan chans IH]; intros noise; cbn [fold_left];
    [right; reflexivity |].
  destruct (IH (set_slice noise (Z.of_nat chan - 10) (Z.of_nat chan + 10) NaN))
    as [H | H]; [left; exact H |].
  rewrite H, nth_set_slice_nan. destruct (_ && _); [left | right]; reflexivity.
Qed.

(** From channel 10 on, the slice of a flagged channel holds the channel, the
    ten channels below it and the nine channels above it. *)
Lemma set_slice_masks (noise : list npfloat) (chan j : nat) :
  (10 <= chan)%nat -> (chan - 10 <= j < chan + 10)%nat ->
  nth j (set_slice noise (Z.of_nat chan - 10) (Z.of_nat chan + 10) NaN) NaN = NaN.
Proof.
  intros Hc Hj.
  destruct (le_lt_dec (length noise) j) as [Hout | Hin].
  - apply nth_overflow. rewrite set_slice_length. exact Hout.
  - rewrite nth_set_slice_nan.
    replace ((slice_index (length noise) (Z.of_nat chan - 10) <=? j)
             && (j <? slice_index (length noise) (Z.of_nat chan + 10)))%nat
      with true; [reflexivity |].
    symmetry. apply andb_true_iff. unfold slice_index.
    destruct (Z.of_nat chan - 10 <? 0)%Z eqn:E1; [apply Z.ltb_lt in E1; lia |].
    destruct (Z.of_nat chan + 10 <? 0)%Z eqn:E2; [apply Z.ltb_lt in E2; lia |].
    split; [apply Nat.leb_le | apply Nat.ltb_lt]; lia.
Qed.

Lemma mask_around_masks (noise : list npfloat) (chans : list nat) (chan j : nat) :
  In chan chans -> (10 <= chan)%nat -> (chan - 10 <= j < chan + 10)%nat ->
  nth j (mask_around noise chans) NaN = NaN.
Proof.
  intros Hin Hc Hj. revert noise.
  induction chans as [| c chans IH]; intros noise; [destruct Hin |].
  destruct Hin as [-> | Hin].
  - change (mask_around noise (chan :: chans))
      with (mask_around (set_slice noise (Z.of_nat chan - 10) (Z.of_nat chan + 10) NaN)
              chans).
    apply mask_around_keeps_nan. apply set_slice_masks; assumption.
  - change (mask_around noise (c :: chans))
      with (mask_around (set_slice noise (Z.of_nat c - 10) (Z.of_nat c + 10) NaN) chans).
    apply IH. exact Hin.
Qed.

(** X23: the channels that the noise estimate leaves out.  [calc_noise_std]
    returns the [nanmean] and the [nanstd] of a copy of the window in which
    some entries are replaced by [nan] and the others are untouched.  Every
    channel from channel 10 on that the first cycle flags (below or above
    the threshold around the statistics of the whole window) is replaced,
    and with it the ten channels below it and the nine channels above it. *)
Theorem noise_estimate_leaves_out (window : list npfloat) (threshold : npfloat) :
  exists noise : list npfloat,
    length noise = length window /\
    calc_noise_std window threshold = (nanmean noise, nanstd noise) /\
    (forall j, nth j noise NaN = NaN \/ nth j noise NaN = nth j window NaN) /\
    (forall chan j,
       In chan (low_outliers window (nanmean window) (nanstd window) threshold) \/
       In chan (high_outliers window (nanmean window) (nanstd window) threshold) ->
       (10 <= chan)%nat -> (chan - 10 <= j < chan + 10)%nat ->
       nth j noise NaN = NaN).
Proof.
  unfold calc_noise_std, clip_cycle.
  set (low1 := low_outliers window (nanmean window) (nanstd window) threshold).
  set (high1 := high_outliers window (nanmean window) (nanstd window) threshold).
  set (noise1 := mask_around (mask_around window low1) high1).
  set (low2 := low_outliers window (nanmean noise1) (nanstd noise1) threshold).
  set (high2 := high_outliers window (nanmean noise1) (nanstd noise1) threshold).
  set (noise2 := mask_around (mask_around noise1 low2) high2).
  set (low3 := low_outliers window (nanmean noise2) (nanstd noise2) threshold).
  set (high3 := high_outliers window (nanmean noise2) (nanstd noise2) threshold).
  set (noise3 := mask_around (mask_around noise2 low3) high3).
  assert (Hstay : forall j, nth j noise1 NaN = NaN -> nth j noise3 NaN = NaN).
  { intros j H. unfold noise3, noise2. do 4 apply mask_around_keeps_nan. exact H. }
  assert (Hsame : forall a l1 l2 j,
            nth j (mask_around (mask_around a l1) l2) NaN = NaN \/
            nth j (mask_around (mask_around a l1) l2) NaN = nth j a NaN).
  { intros a l1 l2 j.
    destruct (mask_around_nan_or_same (mask_around a l1) l2 j) as [H | H];
      [left; exact H |].
    rewrite H. apply mask_around_nan_or_same. }
  exists noise3. split; [| split; [reflexivity | split]].
  - unfold noise3, noise2, noise1. rewrite !mask_around_length. reflexivity.
  - intros j.
    destruct (Hsame noise2 low3 high3 j) as [H | H]; [left; exact H |].
    fold noise3 in H. rewrite H.
    destruct (Hsame noise1 low2 high2 j) as [H2 | H2]; [left; exact H2 |].
    fold noise2 in H2. rewrite H2. apply Hsame.
  - intros chan j Hflag Hc Hj. apply Hstay. unfold noise1.
    destruct Hflag as [Hl | Hh].
    + apply mask_around_keeps_nan. apply (mask_around_masks _ _ chan); assumption.
    + apply (mask_around_masks _ _ chan); assumption.
Qed.

(** ** A constant added to the window *)

Lemma shifted_length (c : R) (a : list npfloat) : length (shifted c a) = length a.
Proof. apply length_map. Qed.

Lemma shifted_fill_from (c : R) (pos lo hi : nat) (a : list npfloat) :
  shifted c (fill_from pos lo hi NaN a) = fill_from pos lo hi NaN (shifted c a).
Proof.
  unfold shifted. revert pos. induction a as [| x a IH]; intros pos;
    cbn [fill_from map]; [reflexivity |].
  rewrite IH. f_equal. destruct ((lo <=? pos)%nat && (pos <? hi)%nat); reflexivity.
Qed.

Lemma shifted_mask_around (c : R) (noise : list npfloat) (chans : list nat) :
  shifted c (mask_around noise chans) = mask_around (shifted c noise) chans.
Proof.
  unfold mask_around. revert noise.
  induction chans as [| chan chans IH]; intros noise; cbn [fold_left]; [reflexivity |].
  rewrite IH. f_equal. unfold set_slice. rewrite shifted_fill_from, shifted_length.
  reflexivity.
Qed.

Lemma not_nan_shifted (c : R) (a : list npfloat) :
  not_nan (shifted c a) = shifted c (not_nan a).
Proof.
  unfold not_nan, shifted. induction a as [| x a IH]; cbn [map filter]; [reflexivity |].
  rewrite IH. destruct x; reflexivity.
Qed.

Lemma fold_add_from (l : list npfloat) (a b t : R) :
  Forall finite l ->
  fold_left NP.add l (Fin a) = Fin t ->
  fold_left NP.add l (Fin (a + b)) = Fin (t + b).
Proof.
  intros H. revert a. induction H as [| y l [r ->] _ IH]; intros a;
    cbn [fold_left NP.add].
  - intros [= <-]. reflexivity.
  - intros Ht. replace (a + b + r) with (a + r + b) by ring. apply IH. exact Ht.
Qed.

Lemma shifted_finite (c : R) (l : list npfloat) :
  Forall finite l -> Forall finite (shifted c l).
Proof.
  intros H. unfold shifted. apply Forall_map. eapply Forall_impl; [| exact H].
  intros a [ar ->]. eexists. reflexivity.
Qed.

Lemma fold_add_shifted (c : R) (l : list npfloat) (x total : R) :
  Forall finite l ->
  fold_left NP.add l (Fin x) = Fin total ->
  fold_left NP.add (shifted c l) (Fin x) = Fin (total + INR (length l) * c).
Proof.
  intros H. revert x. induction H as [| y l [r ->] Hl IH]; intros x.
  - cbn [shifted map fold_left length INR]. intros [= <-]. f_equal. ring.
  - cbn [shifted map fold_left NP.add]. fold (shifted c l). intros Ht.
    replace (x + (r + c)) with (x + r + c) by ring.
    rewrite (fold_add_from (shifted c l) (x + r) c (total + INR (length l) * c)
               (shifted_finite c l Hl) (IH (x + r) Ht)).
    change (length (Fin r :: l)) with (S (length l)). rewrite S_INR. f_equal. ring.
Qed.

(** The mean of what is left moves with the constant. *)
Lemma nanmean_shifted (c : R) (a : list npfloat) :
  Forall real_or_nan a -> nanmean (shifted c a) = (nanmean a + Fin c)%np.
Proof.
  intros H. apply not_nan_finite in H.
  unfold nanmean, NP.sum. rewrite not_nan_shifted, shifted_length.
  destruct (fold_add_finite (not_nan a) 0 H) as [total Et].
  rewrite (fold_add_shifted c (not_nan a) 0 total H Et), Et.
  destruct (not_nan a) as [| y rest] eqn:E.
  - cbn in Et. injection Et as <-.
    cbn [length INR NP.div]. rewrite !(Reqb_true 0 0) by reflexivity.
    unfold NP.scale_inf.
    rewrite (Rltb_false 0 (0 + 0 * c)), (Rltb_false (0 + 0 * c) 0),
      (Rltb_false 0 0) by lra.
    reflexivity.
  - assert (Hlen : 0 < INR (length (y :: rest))) by (apply INR_length_pos; discriminate).
    cbn [NP.div]. rewrite !(Reqb_false (INR (length (y :: rest))) 0) by lra.
    cbn [NP.add]. f_equal. field. lra.
Qed.

(** The spread of what is left does not move. *)
Lemma nanstd_shifted (c : R) (a : list npfloat) :
  Forall real_or_nan a -> nanstd (shifted c a) = nanstd a.
Proof.
  intros H. unfold nanstd. rewrite (nanmean_shifted c a H).
  pose proof (not_nan_finite a H) as Hf.
  rewrite not_nan_shifted, shifted_length.
  destruct (nan_statistics a H) as [(E & -> & _) | (_ & mean & std & -> & _)].
  - rewrite E. reflexivity.
  - cbn [NP.add]. do 3 f_equal.
    unfold shifted. rewrite map_map. apply map_ext_in. intros x Hx.
    rewrite Forall_forall in Hf. destruct (Hf x Hx) as [r ->].
    cbn [NP.pow2 NP.sub NP.add NP.neg NP.mul]. f_equal. ring.
Qed.

Lemma outliers_shifted (c : R) (window : list npfloat) (mean std threshold : npfloat) :
  Forall real_or_nan window -> real_or_nan mean ->
  low_outliers (shifted c window) (mean + Fin c)%np std threshold
  = low_outliers window mean std threshold /\
  high_outliers (shifted c window) (mean + Fin c)%np std threshold
  = high_outliers window mean std threshold.
Proof.
  intros Hw Hm. unfold low_outliers, high_outliers, shifted.
  rewrite !map_map. rewrite Forall_forall in Hw.
  assert (Hdiff : forall x, In x window -> (x + Fin c - (mean + Fin c) = x - mean)%np).
  { intros x Hx. destruct (Hw x Hx) as [[r ->] | ->], Hm as [[m ->] | ->];
      cbn [NP.sub NP.add NP.neg]; try reflexivity.
    f_equal. ring. }
  split; f_equal; apply map_ext_in; intros x Hx; rewrite (Hdiff x Hx); reflexivity.
Qed.

Lemma nanmean_real_or_nan (a : list npfloat) :
  Forall real_or_nan a -> real_or_nan (nanmean a).
Proof.
  intros H. destruct (nan_statistics a H) as [(_ & -> & _) | (_ & mean & std & -> & _)];
    [right; reflexivity | left; eexists; reflexivity].
Qed.

Lemma clip_cycle_shifted (c : R) (window noise : list npfloat)
    (mean std threshold : npfloat) :
  Forall real_or_nan window -> Forall real_or_nan noise -> real_or_nan mean ->
  exists noise',
    Forall real_or_nan noise' /\
    clip_cycle window threshold (noise, mean, std)
    = (noise', nanmean noise', nanstd noise') /\
    clip_cycle (shifted c window) threshold (shifted c noise, (mean + Fin c)%np, std)
    = (shifted c noise', (nanmean noise' + Fin c)%np, nanstd noise').
Proof.
  intros Hw Hn Hm. unfold clip_cycle.
  destruct (outliers_shifted c window mean std threshold Hw Hm) as [-> ->].
  rewrite <- !shifted_mask_around.
  set (noise' := mask_around (mask_around noise _) _).
  assert (Hn' : Forall real_or_nan noise')
    by (apply mask_around_real_or_nan, mask_around_real_or_nan; exact Hn).
  exists noise'. split; [exact Hn' |]. split; [reflexivity |].
  rewrite (nanmean_shifted c noise' Hn'), (nanstd_shifted c noise' Hn'). reflexivity.
Qed.

(** X24: a constant offset does not change the noise.  Adding one real
    number [c] to every channel of a window of real numbers and [nan]s moves
    the mean returned by [calc_noise_std] by [c] and leaves the standard
    deviation as it is: the same channels are flagged and masked in each of
    the three cycles. *)
Theorem noise_is_offset_invariant (c : R) (window : list npfloat) (threshold : npfloat) :
  Forall real_or_nan window ->
  calc_noise_std (shifted c window) threshold
  = ((fst (calc_noise_std window threshold) + Fin c)%np,
     snd (calc_noise_std window threshold)).
Proof.
  intros H. unfold calc_noise_std.
  rewrite (nanmean_shifted c window H), (nanstd_shifted c window H).
  destruct (clip_cycle_shifted c window window (nanmean window) (nanstd window) threshold
              H H (nanmean_real_or_nan window H)) as (n1 & H1 & -> & ->).
  destruct (clip_cycle_shifted c window n1 (nanmean n1) (nanstd n1) threshold
              H H1 (nanmean_real_or_nan n1 H1)) as (n2 & H2 & -> & ->).
  destruct (clip_cycle_shifted c window n2 (nanmean n2) (nanstd n2) threshold
              H H2 (nanmean_real_or_nan n2 H2)) as (n3 & H3 & -> & ->).
  reflexivity.
Qed.

(** The witness: the window with a spike on channel 3, raised by 100. *)
Lemma noise_is_offset_invariant_witness :
  calc_noise_std (shifted 100 early_spike) default_threshold
  = ((fst (calc_noise_std early_spike default_threshold) + Fin 100)%np,
     snd (calc_noise_std early_spike default_threshold)).
Proof.
  apply noise_is_offset_invariant.
  unfold early_spike. repeat (apply Forall_cons; [left; eexists; reflexivity |]).
  apply Forall_nil.
Defined.

(** ** The posterior on physical inputs *)

Section PhysicalInputs.

Variables cm ckm h k : R.
Variable MolCat : Type.
Variable mol_sim :
  npfloat -> npfloat -> npfloat -> npfloat -> MolCat ->
  list npfloat * list npfloat * list npfloat.

Lemma chi_terms_finite (ints curr_model yerrs : list npfloat) :
  Forall finite ints -> Forall finite curr_model -> Forall positive yerrs ->
  Forall finite (chi_terms ints curr_model yerrs).
Proof.
  unfold chi_terms. intros Hi. revert curr_model yerrs.
  induction Hi as [| d ints [dr ->] _ IH]; intros curr_model yerrs Hm Hy;
    cbn [map2]; [constructor |].
  destruct Hm as [| mdl curr_model [mr ->] Hm]; cbn [map2]; [constructor |].
  destruct Hy as [| y yerrs (yr & -> & Hyr) Hy]; cbn [map map2]; constructor.
  - assert (Hyy : 0 < yr * yr) by (apply Rmult_lt_0_compat; assumption).
    assert (Hw : 0 < 1 / (yr * yr)) by (apply Rdiv_lt_0_compat; lra).
    cbn [NP.pow2 NP.sub NP.add NP.neg NP.mul NP.div].
    rewrite (Reqb_false (yr * yr) 0) by lra. cbn [NP.mul NP.log].
    rewrite (Rltb_true 0 (1 / (yr * yr))) by exact Hw.
    eexists. reflexivity.
  - apply (IH curr_model yerrs Hm Hy).
Qed.

Lemma nonnegative_finite (a : list npfloat) : Forall nonnegative a -> Forall finite a.
Proof.
  intros H. eapply Forall_impl; [| exact H]. intros x (r & -> & _). exists r. reflexivity.
Qed.

Lemma Forall_incl {A : Type} (P : A -> Prop) (l l' : list A) :
  incl l l' -> Forall P l' -> Forall P l.
Proof.
  intros Hi H. rewrite Forall_forall in *. intros x Hx. apply H, Hi, Hx.
Qed.

(** X25: the posterior is a real number on physical inputs.  With [h], [k]
    positive and [cm] other than zero, for a [theta] within the bounds with a
    real [Tex] and a real [dV], on a grid of one shape with positive real
    frequencies, real intensities and positive real uncertainties, when the
    four simulations cover the lines of the grid with line frequencies that
    are positive real numbers and opacities that are real and not negative,
    [lnlike] returns a real number; and with usable priors [lnprob] returns
    the real number [lnprior + lnlike]: no [nan], no infinity and no
    exception. *)
Theorem posterior_is_real_on_physical_inputs (theta : vec14) (dg : datagrid)
    (mol_cat : MolCat) (s m : vec14) (c : calls) :
  cm <> 0 -> 0 < h -> 0 < k ->
  is_within_bounds theta = true -> finite (v8 theta) -> finite (v13 theta) ->
  Forall positive (dg_freqs dg) -> Forall finite (dg_ints dg) ->
  Forall positive (dg_yerrs dg) ->
  length (dg_freqs dg) = length (dg_ints dg) ->
  length (dg_yerrs dg) = length (dg_ints dg) ->
  Forall (fun sim => sim_covers sim (dg_line_ids dg) /\
                     Forall positive (fst (fst sim)) /\ Forall nonnegative (snd sim))
         (component_sims MolCat mol_sim theta mol_cat) ->
  exists ll : R,
    lnlike cm ckm h k MolCat mol_sim theta dg mol_cat c
    = (Some (Fin ll), after_lnlike c 1) /\
    (usable_priors s m ->
     exists lp : R,
       lnprior theta s m = Fin lp /\
       lnprob cm ckm h k MolCat mol_sim theta dg mol_cat s m c
       = (Some (Fin (lp + ll)), after_lnlike c 1)).
Proof.
  intros Hc Hh Hk Hb [Tex ETex] [dV EdV] Hfreqs Hints Hyerrs Lgrid Lyerrs Hsims.
  assert (Hcov : Forall (fun sim => sim_covers sim (dg_line_ids dg))
                   (component_sims MolCat mol_sim theta mol_cat)).
  { eapply Forall_impl; [| exact Hsims]. intros sim [H _]. exact H. }
  assert (Htau : Forall (fun sim => Forall nonnegative (snd sim))
                   (component_sims MolCat mol_sim theta mol_cat)).
  { eapply Forall_impl; [| exact Hsims]. intros sim (_ & _ & H). exact H. }
  assert (Hline : Forall positive
                    (fst (fst (mol_sim (v0 theta) (v4 theta) (v8 theta) (v13 theta)
                                       mol_cat)))).
  { unfold component_sims in Hsims. inversion Hsims as [| ? ? (_ & H & _) _]. exact H. }
  assert (HT : 2.7 <= Tex).
  { destruct (within_bounds_reals theta Hb) as (_ & _ & _ & HTex & _).
    unfold np_lt in HTex. rewrite ETex in HTex. cbn [NP.ltb] in HTex.
    apply Rltb_true_iff in HTex. lra. }
  assert (Hplanck : planck_defined h k (v8 theta) (dg_freqs dg)).
  { rewrite ETex. split; apply Forall_forall; intros nu Hnu;
      rewrite Forall_forall in Hfreqs; destruct (Hfreqs nu Hnu) as (x & -> & Hx);
      rewrite planck_value by lra; discriminate. }
  unfold component_sims in Htau.
  inversion Htau as [| ? ? N1 Htau1]; subst.
  inversion Htau1 as [| ? ? N2 Htau2]; subst.
  inversion Htau2 as [| ? ? N3 Htau3]; subst.
  inversion Htau3 as [| ? ? N4 _]; subst.
  destruct (lnlike_value_with_model cm ckm h k MolCat mol_sim theta dg mol_cat c
              Lgrid Lyerrs Hcov Hplanck)
    as (f1 & f2 & f3 & f4 & t1 & t2 & t3 & t4 & model &
        (L1 & L2 & L3 & L4) & If & (I1 & I2 & I3 & I4) & Emodel & Lmodel & E).
  destruct (within_bounds_reals theta Hb)
    as ((s1 & s2 & s3 & s4 & E0 & E1 & E2 & E3 & _) & _ &
        (u1 & u2 & u3 & u4 & E9 & E10 & E11 & E12 & _) & HTex & _).
  rewrite E0, E1, E2, E3, E9, E10, E11, E12, ETex, EdV in Emodel.
  destruct (make_model_nonnegative cm ckm h k f1 f2 f3 f4 t1 t2 t3 t4
              (dg_freqs dg) (dg_ints dg) s1 s2 s3 s4 u1 u2 u3 u4 dV Tex
              Hc Hh Hk Hfreqs (Forall_incl _ _ _ If Hline)
              Lgrid ltac:(lia) ltac:(lia) ltac:(lia) ltac:(lia)
              (Forall_incl _ _ _ I1 N1) (Forall_incl _ _ _ I2 N2)
              (Forall_incl _ _ _ I3 N3) (Forall_incl _ _ _ I4 N4) HT)
    as (model' & Emodel' & _ & Hpos).
  rewrite Emodel in Emodel'. injection Emodel' as <-.
  pose proof (chi_terms_finite _ _ _ Hints (nonnegative_finite _ Hpos) Hyerrs) as Hterms.
  destruct (fold_add_finite _ 0 Hterms) as [total Etotal].
  unfold NP.sum in E. rewrite Etotal in E. cbn [NP.mul NP.neg] in E.
  eexists. split; [exact E |].
  intros Hu.
  assert (Hf : finite (lnprior theta s m)).
  { apply (lnprior_finite_usable theta s m Hb).
    split; [exists Tex; exact ETex |]. split; [exists dV; exact EdV | exact Hu]. }
  destruct Hf as [lp Elp]. exists lp. split; [exact Elp |].
  rewrite (lnprob_finite_prior cm ckm h k MolCat mol_sim theta dg mol_cat s m c lp Elp).
  rewrite E. reflexivity.
Qed.

End PhysicalInputs.

(** The witness of X25: the template vector on a grid of one channel. *)
Lemma posterior_is_real_witness :
  exists ll : R,
    lnlike 29979245800 299792.458 6.626e-27 1.381e-16 unit
           (fun _ _ _ _ _ => ([Fin 20000], [Fin 1], [Fin 1]))
           template_initial (Datagrid [Fin 19999.6] [Fin 0.01] [Fin 0.1] [0%nat]) tt
           (Calls 0 0)
    = (Some (Fin ll), after_lnlike (Calls 0 0) 1).
Proof.
  destruct (posterior_is_real_on_physical_inputs
              29979245800 299792.458 6.626e-27 1.381e-16 unit
              (fun _ _ _ _ _ => ([Fin 20000], [Fin 1], [Fin 1]))
              template_initial (Datagrid [Fin 19999.6] [Fin 0.01] [Fin 0.1] [0%nat]) tt
              template_prior_stds template_initial (Calls 0 0))
    as (ll & E & _).
  - lra.
  - lra.
  - lra.
  - exact template_initial_within_bounds.
  - eexists. reflexivity.
  - eexists. reflexivity.
  - apply Forall_cons; [eexists; split; [reflexivity | lra] | apply Forall_nil].
  - apply Forall_cons; [eexists; reflexivity | apply Forall_nil].
  - apply Forall_cons; [eexists; split; [reflexivity | lra] | apply Forall_nil].
  - reflexivity.
  - reflexivity.
  - unfold component_sims.
    repeat (apply Forall_cons;
            [split;
             [unfold sim_covers; intros i [<- | []]; repeat split; apply le_n
             | cbn [fst snd]; split;
               (apply Forall_cons;
                [eexists; split; [reflexivity | lra] | apply Forall_nil])] |]).
    apply Forall_nil.
  - exists ll. exact E.
Defined.
